(** * BOSA driver: transport and response framing

    A shallow embedding of the transport layer of [BOSA.py] (class
    [BOSA23095]): the socket and VISA handles the driver talks to, the
    line-oriented [write]/[read], the binary and ASCII trace readers, the
    destructor and two of the parameter-checking setters.

    Python objects are modelled as follows.
    - [bytes] is a list of [Byte.byte]; a [str] is the list of its Unicode
      code points; [bytes.decode()] and [str.encode()] are strict UTF-8.
    - Exceptions are values of [exn]; a method either returns, raises, or
      (for the [while(1)] loops) runs out of the fuel given to it.
    - The driver object and the world it acts on (its handle, the logger,
      standard output) form the record [BOSA]; methods are state
      transformers in the monad [M]. *)

From Stdlib Require Import ZArith List Lia Bool String Ascii Strings.Byte.
From Stdlib Require Import DecimalString.
From Stdlib Require Import Floats.SpecFloat.
Import ListNotations.

Open Scope Z_scope.

(* ------------------------------------------------------------------ *)
(** ** Bytes and text *)

Definition bytes := list byte.

(** A Python [str]: the sequence of its code points. *)
Definition str := list Z.

Definition byte_val (b : byte) : Z := Z.of_N (Byte.to_N b).

Definition byte_of (n : Z) : byte :=
  match Byte.of_N (Z.to_N n) with
  | Some b => b
  | None => x00
  end.

(** A string literal of the source, as a [str]. *)
Definition lit (s : string) : str :=
  map (fun a => Z.of_N (N_of_ascii a)) (list_ascii_of_string s).
Arguments lit s%_string.

Definition NL : Z := 10.
Definition CRLF : str := [13; 10].

(** [x in s] for a one-character needle. *)
Definition contains (c : Z) (s : str) : bool := existsb (Z.eqb c) s.

Definition between (lo hi : Z) (b : byte) : bool :=
  (lo <=? byte_val b) && (byte_val b <=? hi).

Definition low6 (b : byte) : Z := byte_val b - 128.

(** Admissible second byte of a three-byte sequence (no overlong forms, no
    surrogates) and of a four-byte sequence (no overlong forms, nothing
    above U+10FFFF). *)
Definition second3 (b0 b1 : byte) : bool :=
  if byte_val b0 =? 224 then between 160 191 b1
  else if byte_val b0 =? 237 then between 128 159 b1
  else between 128 191 b1.

Definition second4 (b0 b1 : byte) : bool :=
  if byte_val b0 =? 240 then between 144 191 b1
  else if byte_val b0 =? 244 then between 128 143 b1
  else between 128 191 b1.

(** [bytes.decode()]: strict UTF-8; [None] stands for UnicodeDecodeError. *)
Fixpoint decode (bs : bytes) : option str :=
  match bs with
  | [] => Some []
  | b0 :: r0 =>
    if byte_val b0 <? 128 then option_map (cons (byte_val b0)) (decode r0)
    else if between 194 223 b0 then
      match r0 with
      | b1 :: r1 =>
        if between 128 191 b1
        then option_map (cons ((byte_val b0 - 192) * 64 + low6 b1)) (decode r1)
        else None
      | _ => None
      end
    else if between 224 239 b0 then
      match r0 with
      | b1 :: b2 :: r2 =>
        if second3 b0 b1 && between 128 191 b2
        then option_map
               (cons ((byte_val b0 - 224) * 4096 + low6 b1 * 64 + low6 b2))
               (decode r2)
        else None
      | _ => None
      end
    else if between 240 244 b0 then
      match r0 with
      | b1 :: b2 :: b3 :: r3 =>
        if second4 b0 b1 && between 128 191 b2 && between 128 191 b3
        then option_map
               (cons ((byte_val b0 - 240) * 262144 + low6 b1 * 4096
                      + low6 b2 * 64 + low6 b3))
               (decode r3)
        else None
      | _ => None
      end
    else None
  end.

(** UTF-8 encoding of one code point; lone surrogates cannot be encoded. *)
Definition encode_char (c : Z) : option bytes :=
  if c <? 0 then None
  else if c <? 128 then Some [byte_of c]
  else if c <? 2048 then Some [byte_of (192 + c / 64); byte_of (128 + c mod 64)]
  else if c <? 65536 then
    if (55296 <=? c) && (c <=? 57343) then None
    else Some [byte_of (224 + c / 4096); byte_of (128 + (c / 64) mod 64);
               byte_of (128 + c mod 64)]
  else if c <? 1114112 then
    Some [byte_of (240 + c / 262144); byte_of (128 + (c / 4096) mod 64);
          byte_of (128 + (c / 64) mod 64); byte_of (128 + c mod 64)]
  else None.

(** [str.encode()]: strict UTF-8; [None] stands for UnicodeEncodeError. *)
Fixpoint encode (s : str) : option bytes :=
  match s with
  | [] => Some []
  | c :: r =>
    match encode_char c, encode r with
    | Some bc, Some br => Some (bc ++ br)
    | _, _ => None
    end
  end.

(** [str.encode('ascii')], the default encoding of a VISA message resource. *)
Fixpoint encode_ascii (s : str) : option bytes :=
  match s with
  | [] => Some []
  | c :: r =>
    if (0 <=? c) && (c <? 128)
    then option_map (cons (byte_of c)) (encode_ascii r)
    else None
  end.

Definition is_ascii (s : str) : Prop := Forall (fun c => 0 <= c < 128) s.
Definition ascii_bytes (bs : bytes) : Prop := Forall (fun b => byte_val b < 128) bs.

Definition lower_char (a : ascii) : ascii :=
  let n := N_of_ascii a in
  if ((65 <=? n) && (n <=? 90))%N then ascii_of_N (n + 32) else a.

Definition upper_char (a : ascii) : ascii :=
  let n := N_of_ascii a in
  if ((97 <=? n) && (n <=? 122))%N then ascii_of_N (n - 32) else a.

Fixpoint string_map (f : ascii -> ascii) (s : string) : string :=
  match s with
  | EmptyString => EmptyString
  | String a r => String (f a) (string_map f r)
  end.

(** [s.lower()] and [s.upper()] on the interface name. *)
Definition lower : string -> string := string_map lower_char.
Definition upper : string -> string := string_map upper_char.

(** [b[lo:hi]] for [0 <= lo]. *)
Definition slice {A} (lo hi : nat) (l : list A) : list A :=
  firstn (hi - lo) (skipn lo l).

(* ------------------------------------------------------------------ *)
(** ** IEEE-754 binary64 *)

Inductive byteorder := LittleEndian | BigEndian.

Definition float64 := spec_float.

Fixpoint le_bits (bs : bytes) : Z :=
  match bs with
  | [] => 0
  | b :: r => byte_val b + 256 * le_bits r
  end.

Definition bits_of (o : byteorder) (bs : bytes) : Z :=
  match o with
  | LittleEndian => le_bits bs
  | BigEndian => le_bits (rev bs)
  end.

(** The binary64 datum with bit pattern [w]: sign bit 63, biased exponent in
    bits 62..52, fraction in bits 51..0. *)
Definition float64_of_bits (w : Z) : float64 :=
  let s := Z.testbit w 63 in
  let e := Z.land (Z.shiftr w 52) 2047 in
  let m := Z.land w (2 ^ 52 - 1) in
  if e =? 0 then
    match m with
    | Zpos p => S754_finite s p (-1074)
    | _ => S754_zero s
    end
  else if e =? 2047 then
    if m =? 0 then S754_infinity s else S754_nan
  else
    match m + 2 ^ 52 with
    | Zpos p => S754_finite s p (e - 1075)
    | _ => S754_nan
    end.

Definition float_at (o : byteorder) (bs : bytes) : float64 :=
  float64_of_bits (bits_of o bs).

(* ------------------------------------------------------------------ *)
(** ** Exceptions *)

(** The exception objects the driver can meet.  None of the built-in classes
    has a [message] attribute; [LibraryError] stands for an exception class
    of a handle library, which may define one. *)
Inductive exn :=
| AttributeError (attr : string)
| TypeError
| UnboundLocalError (var : string)
| ValueError
| UnicodeDecodeError
| UnicodeEncodeError
| StructError
| TimeoutError
| OSError
| VisaIOError
| LibraryError (message : option str).

(** [e.message]. *)
Definition exn_message (e : exn) : option str :=
  match e with
  | LibraryError m => m
  | _ => None
  end.

(* ------------------------------------------------------------------ *)
(** ** Handles *)

(** What [recv] does once every delivered fragment has been consumed: the
    peer has closed (an empty result, at once) or is silent (the socket
    timeout fires). *)
Inductive ending := PeerClosed | Silent.

Inductive sock_call :=
| Sendall (data : bytes)
| Recv (bufsize : Z) (data : bytes).

(** A connected stream socket.  [inbox] lists the fragments in the order the
    network delivers them; [calls] records what the driver asked of it. *)
Record socket := {
  inbox : list bytes;
  at_end : ending;
  send_fault : option exn;
  sock_close_fault : option exn;
  sock_closed : bool;
  calls : list sock_call
}.

(** One answer of the bus: a message, a block of bytes, a parsed list of
    numbers, or a failure of the read. *)
Inductive reply :=
| ReplyText (s : str)
| ReplyBytes (b : bytes)
| ReplyValues (vs : list float64)
| ReplyFault (e : exn).

(** A VISA message-based resource as [open_resource] returns it. *)
Record visa := {
  write_termination : str;
  replies : list reply;
  write_fault : option exn;
  visa_close_fault : option exn;
  visa_closed : bool;
  written : list bytes
}.

Inductive handle :=
| Socket (s : socket)
| Visa (v : visa).

(** [take_chunk n frags]: at most [n] bytes of the first fragment that has
    any, and what is left to deliver. *)
Fixpoint take_chunk (n : nat) (frags : list bytes) : bytes * list bytes :=
  match frags with
  | [] => ([], [])
  | [] :: rest => take_chunk n rest
  | f :: rest =>
    (firstn n f, match skipn n f with [] => rest | r => r :: rest end)
  end.

Definition logged (s : socket) (c : sock_call) (frags : list bytes) : socket :=
  {| inbox := frags; at_end := at_end s; send_fault := send_fault s;
     sock_close_fault := sock_close_fault s; sock_closed := sock_closed s;
     calls := calls s ++ [c] |}.

(** [socket.recv(bufsize)]. *)
Definition sock_recv (bufsize : Z) (s : socket) : (exn + bytes) * socket :=
  if sock_closed s then (inl OSError, s)
  else if bufsize <? 0 then (inl ValueError, s)
  else if bufsize =? 0 then (inr [], logged s (Recv bufsize []) (inbox s))
  else
    match take_chunk (Z.to_nat bufsize) (inbox s) with
    | ([], rest) =>
      match at_end s with
      | PeerClosed => (inr [], logged s (Recv bufsize []) rest)
      | Silent => (inl TimeoutError, s)
      end
    | (c, rest) => (inr c, logged s (Recv bufsize c) rest)
    end.

(** [socket.sendall(data)]. *)
Definition sock_sendall (data : bytes) (s : socket) : (exn + unit) * socket :=
  if sock_closed s then (inl OSError, s)
  else
    match send_fault s with
    | Some e => (inl e, s)
    | None => (inr tt, logged s (Sendall data) (inbox s))
    end.

(** [socket.close()]: closing a closed socket does nothing. *)
Definition sock_close (s : socket) : (exn + unit) * socket :=
  if sock_closed s then (inr tt, s)
  else
    match sock_close_fault s with
    | Some e => (inl e, s)
    | None =>
      (inr tt,
       {| inbox := inbox s; at_end := at_end s; send_fault := send_fault s;
          sock_close_fault := sock_close_fault s; sock_closed := true;
          calls := calls s |})
    end.

Definition with_replies (v : visa) (rs : list reply) : visa :=
  {| write_termination := write_termination v; replies := rs;
     write_fault := write_fault v; visa_close_fault := visa_close_fault v;
     visa_closed := visa_closed v; written := written v |}.

(** [resource.write(message)]: the resource appends its write termination,
    encodes in ASCII and sends. *)
Definition visa_write (message : str) (v : visa) : (exn + unit) * visa :=
  if visa_closed v then (inl VisaIOError, v)
  else
    match write_fault v with
    | Some e => (inl e, v)
    | None =>
      match encode_ascii (message ++ write_termination v) with
      | None => (inl UnicodeEncodeError, v)
      | Some bs =>
        (inr tt,
         {| write_termination := write_termination v; replies := replies v;
            write_fault := write_fault v;
            visa_close_fault := visa_close_fault v;
            visa_closed := visa_closed v; written := written v ++ [bs] |})
      end
    end.

(** The next answer of the bus; none left is a timeout. *)
Definition next_reply (v : visa) : (exn + reply) * visa :=
  if visa_closed v then (inl VisaIOError, v)
  else
    match replies v with
    | [] => (inl VisaIOError, v)
    | ReplyFault e :: rs => (inl e, with_replies v rs)
    | r :: rs => (inr r, with_replies v rs)
    end.

(** [resource.read()]. *)
Definition visa_read (v : visa) : (exn + str) * visa :=
  match next_reply v with
  | (inr (ReplyText s), v') => (inr s, v')
  | (inr _, v') => (inl VisaIOError, v')
  | (inl e, v') => (inl e, v')
  end.

(** [resource.read_bytes(count, chunk_size=None, break_on_termchar=False)]:
    exactly [count] bytes, or a failure. *)
Definition visa_read_bytes (count : Z) (v : visa) : (exn + bytes) * visa :=
  match next_reply v with
  | (inr (ReplyBytes b), v') =>
    if Z.of_nat (List.length b) =? count then (inr b, v')
    else (inl VisaIOError, v')
  | (inr _, v') => (inl VisaIOError, v')
  | (inl e, v') => (inl e, v')
  end.

(** [resource.read_ascii_values(converter='f', separator=',',
    container=list, delay=None)]. *)
Definition visa_read_ascii_values (v : visa) : (exn + list float64) * visa :=
  match next_reply v with
  | (inr (ReplyValues vs), v') => (inr vs, v')
  | (inr _, v') => (inl VisaIOError, v')
  | (inl e, v') => (inl e, v')
  end.

(** [resource.close()]: closing a closed resource does nothing. *)
Definition visa_close (v : visa) : (exn + unit) * visa :=
  if visa_closed v then (inr tt, v)
  else
    match visa_close_fault v with
    | Some e => (inl e, v)
    | None =>
      (inr tt,
       {| write_termination := write_termination v; replies := replies v;
          write_fault := write_fault v;
          visa_close_fault := visa_close_fault v;
          visa_closed := true; written := written v |})
    end.

(** [visa.ResourceManager().open_resource(location)] leaves the library's
    default write termination, carriage return and line feed, in place. *)
Definition open_resource (rs : list reply) : visa :=
  {| write_termination := CRLF; replies := rs; write_fault := None;
     visa_close_fault := None; visa_closed := false; written := [] |}.

(* ------------------------------------------------------------------ *)
(** ** The driver object and its monad *)

Inductive level := DEBUG | INFO | WARNING | ERROR.

(** What [print] wrote: a text, or an exception object. *)
Inductive output :=
| Line (s : str)
| ExnLine (e : exn).

(** The transport-level methods, as the façade calls them. *)
Inductive op :=
| OpWrite (command : str)
| OpRead
| OpReadTraceReal
| OpReadTraceAscii.

(** [self] together with the logger and standard output.  [instrument] is
    [None] while the attribute has not been assigned; [history] records the
    transport-level calls in order. *)
Record BOSA := {
  interfaceType : string;
  instrument : option handle;
  log : list (level * str);
  stdout : list output;
  history : list op
}.

Definition set_instrument (self : BOSA) (h : handle) : BOSA :=
  {| interfaceType := interfaceType self; instrument := Some h;
     log := log self; stdout := stdout self; history := history self |}.

Inductive outcome (A : Type) :=
| Return (a : A) (self : BOSA)
| Raise (e : exn) (self : BOSA)
| OutOfFuel.
Arguments Return {A} a self.
Arguments Raise {A} e self.
Arguments OutOfFuel {A}.

Definition M (A : Type) := BOSA -> outcome A.

Definition ret {A} (a : A) : M A := fun self => Return a self.
Definition raise {A} (e : exn) : M A := fun self => Raise e self.
Definition diverge {A} : M A := fun _ => OutOfFuel.

Definition bind {A B} (m : M A) (k : A -> M B) : M B :=
  fun self =>
    match m self with
    | Return a self' => k a self'
    | Raise e self' => Raise e self'
    | OutOfFuel => OutOfFuel
    end.

(** [try: m except Exception as e: h e]. *)
Definition try_except {A} (m : M A) (h : exn -> M A) : M A :=
  fun self =>
    match m self with
    | Raise e self' => h e self'
    | r => r
    end.

Notation "x <- m ;; k" := (bind m (fun x => k))
  (at level 61, m at next level, right associativity).
Notation "m ;;; k" := (bind m (fun _ => k))
  (at level 61, right associativity).

Definition log_msg (l : level) (msg : str) : M unit :=
  fun self =>
    Return tt {| interfaceType := interfaceType self;
                 instrument := instrument self;
                 log := log self ++ [(l, msg)];
                 stdout := stdout self; history := history self |}.

Definition print (o : output) : M unit :=
  fun self =>
    Return tt {| interfaceType := interfaceType self;
                 instrument := instrument self; log := log self;
                 stdout := stdout self ++ [o]; history := history self |}.

Definition note (o : op) : M unit :=
  fun self =>
    Return tt {| interfaceType := interfaceType self;
                 instrument := instrument self; log := log self;
                 stdout := stdout self; history := history self ++ [o] |}.

(** [self.instrument.<method>(...)] for a method only sockets have. *)
Definition on_socket {A} (method : string)
    (f : socket -> (exn + A) * socket) : M A :=
  fun self =>
    match instrument self with
    | None => Raise (AttributeError "instrument") self
    | Some (Visa _) => Raise (AttributeError method) self
    | Some (Socket s) =>
      match f s with
      | (inl e, s') => Raise e (set_instrument self (Socket s'))
      | (inr a, s') => Return a (set_instrument self (Socket s'))
      end
    end.

(** [self.instrument.<method>(...)] for a method only VISA resources have. *)
Definition on_visa {A} (method : string)
    (f : visa -> (exn + A) * visa) : M A :=
  fun self =>
    match instrument self with
    | None => Raise (AttributeError "instrument") self
    | Some (Socket _) => Raise (AttributeError method) self
    | Some (Visa v) =>
      match f v with
      | (inl e, v') => Raise e (set_instrument self (Visa v'))
      | (inr a, v') => Return a (set_instrument self (Visa v'))
      end
    end.

(** [self.instrument.close()]: both kinds of handle have it. *)
Definition close_instrument : M unit :=
  fun self =>
    match instrument self with
    | None => Raise (AttributeError "instrument") self
    | Some (Socket s) =>
      match sock_close s with
      | (inl e, s') => Raise e (set_instrument self (Socket s'))
      | (inr a, s') => Return a (set_instrument self (Socket s'))
      end
    | Some (Visa v) =>
      match visa_close v with
      | (inl e, v') => Raise e (set_instrument self (Visa v'))
      | (inr a, v') => Return a (set_instrument self (Visa v'))
      end
    end.

Definition kind_is (name : string) : M bool :=
  fun self => Return (String.eqb (lower (interfaceType self)) name) self.

(** The handler every I/O method of the driver uses:
    [log.exception(msg); print(e); raise e]. *)
Definition reraise {A} (msg : string) (e : exn) : M A :=
  log_msg ERROR (lit msg) ;;; print (ExnLine e) ;;; raise e.

(* ------------------------------------------------------------------ *)
(** ** write, read, ask *)

Definition encoded (s : str) : M bytes :=
  match encode s with
  | Some bs => ret bs
  | None => raise UnicodeEncodeError
  end.

Definition decoded (bs : bytes) : M str :=
  match decode bs with
  | Some s => ret s
  | None => raise UnicodeDecodeError
  end.

Definition write (command : str) : M unit :=
  note (OpWrite command) ;;;
  lan <- kind_is "lan" ;;
  if lan then
    log_msg DEBUG (lit "Sending command '" ++ command
                   ++ lit "' using LAN interface...") ;;;
    try_except
      (data <- encoded (command ++ CRLF) ;;
       on_socket "sendall" (sock_sendall data))
      (reraise "Could not send data, command %r")
  else
    gpib <- kind_is "gpib" ;;
    if gpib then
      log_msg DEBUG (lit "Sending command '" ++ command
                     ++ lit "' using GPIB interface...") ;;;
      try_except
        (on_visa "write" (visa_write command))
        (reraise "Could not send data, command %r")
    else ret tt.

(** The LAN loop of [read]: [recv(115200)], decode, append, until the
    accumulated text contains a newline. *)
Fixpoint read_lan (fuel : nat) (message : str) : M str :=
  match fuel with
  | O => diverge
  | S fuel' =>
    message' <- try_except
                  (data <- on_socket "recv" (sock_recv 115200) ;;
                   text <- decoded data ;;
                   ret (message ++ text))
                  (reraise "Could not read data") ;;
    if contains NL message' then ret message'
    else read_lan fuel' message'
  end.

(** The GPIB loop of [read]: one [read()] per turn, until the payload is not
    the empty string. *)
Fixpoint read_gpib (fuel : nat) : M str :=
  match fuel with
  | O => diverge
  | S fuel' =>
    message <- try_except (on_visa "read" visa_read)
                          (reraise "Could not read data") ;;
    match message with
    | [] => read_gpib fuel'
    | _ => ret message
    end
  end.

Definition read (fuel : nat) : M str :=
  note OpRead ;;;
  lan <- kind_is "lan" ;;
  message <-
    (if lan then
       log_msg DEBUG (lit "Reading data using LAN interface...") ;;;
       message <- read_lan fuel [] ;;
       log_msg DEBUG (lit "All data readed!") ;;;
       ret message
     else
       gpib <- kind_is "gpib" ;;
       if gpib then
         log_msg DEBUG (lit "Reading data using GPIB interface...") ;;;
         message <- read_gpib fuel ;;
         log_msg DEBUG (lit "All data readed!") ;;;
         ret message
       else ret []) ;;
  log_msg DEBUG (lit "Data received: " ++ message) ;;;
  ret message.

Definition ask (fuel : nat) (command : str) : M str :=
  write command ;;;
  data <- read fuel ;;
  ret data.

(* ------------------------------------------------------------------ *)
(** ** Trace readers *)

(** A cell of the trace table: the [0] it is created with, or the one-element
    tuple [struct.unpack('d', ...)] returns. *)
Inductive cell :=
| Int0
| Tuple1 (v : float64).

Definition Trace := list (list cell).

(** [row[col] = v]. *)
Fixpoint set_item {A} (i : nat) (v : A) (l : list A) : list A :=
  match l, i with
  | [], _ => []
  | _ :: r, O => v :: r
  | a :: r, S i' => a :: set_item i' v r
  end.

(** [Trace[x][col] = v]. *)
Definition set_cell (x col : nat) (v : cell) (t : Trace) : Trace :=
  match nth_error t x with
  | Some row => set_item x (set_item col v row) t
  | None => t
  end.

Section NativeOrder.

(** The byte order of the machine the driver runs on: format ['d'] is
    native. *)
Variable native : byteorder.

(** [struct.unpack('d', b)]. *)
Definition struct_unpack_d (b : bytes) : M cell :=
  if (List.length b =? 8)%nat then ret (Tuple1 (float_at native b))
  else raise StructError.

(** The LAN loop of [read_TRACE_REAL]. *)
Fixpoint recv_trace (fuel : nat) (msgLength : Z) (response_byte_array : bytes)
  : M bytes :=
  match fuel with
  | O => diverge
  | S fuel' =>
    step <- try_except
              (Byte_data <- (if msgLength <? 19200
                             then on_socket "recv" (sock_recv msgLength)
                             else on_socket "recv" (sock_recv 19200)) ;;
               ret (response_byte_array ++ Byte_data,
                    msgLength - Z.of_nat (List.length Byte_data)))
              (reraise "Could not read data") ;;
    if snd step =? 0 then ret (fst step)
    else recv_trace fuel' (snd step) (fst step)
  end.

(** The decoding loop of [read_TRACE_REAL], over [range(0, int(NumPoints))]. *)
Fixpoint fill_trace (xs : list nat) (response_byte_array : bytes) (t : Trace)
  : M Trace :=
  match xs with
  | [] => ret t
  | x :: xs' =>
    v0 <- struct_unpack_d (slice (x * 16) (x * 16 + 8) response_byte_array) ;;
    v1 <- struct_unpack_d
            (slice (x * 16 + 8) ((x + 1) * 16) response_byte_array) ;;
    fill_trace xs' response_byte_array (set_cell x 1 v1 (set_cell x 0 v0 t))
  end.

(** [read_TRACE_REAL(interfaceType, NumPoints)]; the argument [interfaceType]
    is not looked at, the attribute is.  In the GPIB branch the test
    [response_byte_array != ''] compares bytes with a str and is always
    true, so that loop body runs once. *)
Definition read_TRACE_REAL (fuel : nat) (interfaceType_arg : string)
    (NumPoints : Z) : M Trace :=
  note OpReadTraceReal ;;;
  let msgLength := NumPoints * 2 * 8 in
  log_msg DEBUG (lit "Reading data using LAN interface...") ;;;
  lan <- kind_is "lan" ;;
  response_byte_array <-
    (if lan then recv_trace fuel msgLength []
     else
       gpib <- kind_is "gpib" ;;
       if gpib then
         try_except (on_visa "read_bytes" (visa_read_bytes msgLength))
                    (reraise "Could not read data")
       else ret []) ;;
  let r := Z.to_nat NumPoints in
  fill_trace (seq 0 r) response_byte_array (repeat [Int0; Int0] r).

(** [read_TRACE_ASCII()]; the test [Byte_data != ''] compares a list with a
    str and is always true, so the loop body runs once. *)
Definition read_TRACE_ASCII : M (list float64) :=
  note OpReadTraceAscii ;;;
  log_msg DEBUG (lit "Reading data using GPIB interface...") ;;;
  try_except
    (on_visa "read_ascii_values" visa_read_ascii_values)
    (reraise "Could not read data").

Definition ask_TRACE_REAL (fuel : nat) (interfaceType_arg : string)
    (NumPoints : Z) : M Trace :=
  write (lit "TRAC?") ;;;
  data <- read_TRACE_REAL fuel interfaceType_arg NumPoints ;;
  ret data.

Definition ask_TRACE_ASCII : M (list float64) :=
  write (lit "FORM ASCII") ;;;
  write (lit "TRAC?") ;;;
  data <- read_TRACE_ASCII ;;
  ret data.

End NativeOrder.

(* ------------------------------------------------------------------ *)
(** ** The destructor *)

(** [__del__]: close the handle; on an exception [e], log a warning built
    from [e.message]. *)
Definition __del__ : M unit :=
  try_except
    (fun self =>
       if String.eqb (upper (interfaceType self)) "LAN"
       then close_instrument self
       else if String.eqb (upper (interfaceType self)) "GPIB"
       then close_instrument self
       else ret tt self)
    (fun e =>
       match exn_message e with
       | Some _ =>
         log_msg WARNING
           (lit "could not close interface correctly: exception %r")
       | None => raise (AttributeError "message")
       end).

(* ------------------------------------------------------------------ *)
(** ** Parameter-checking setters *)

(** The values callers hand to the setters. *)
Inductive pyval :=
| PNone
| PBool (b : bool)
| PInt (n : Z)
| PStr (s : str).

Definition str_eqb (a b : str) : bool :=
  if list_eq_dec Z.eq_dec a b then true else false.

(** [a == b]; a bool equals the integer it stands for. *)
Definition py_eq (a b : pyval) : bool :=
  match a, b with
  | PNone, PNone => true
  | PBool x, PBool y => Bool.eqb x y
  | PBool x, PInt n | PInt n, PBool x => (if x then 1 else 0) =? n
  | PInt m, PInt n => m =? n
  | PStr s, PStr t => str_eqb s t
  | _, _ => false
  end.

(** The empty [str]. *)
Definition empty_str : str := [].

(** [a in (t0, t1, ...)]. *)
Definition py_in (a : pyval) (t : list pyval) : bool := existsb (py_eq a) t.

(** [str(a)]. *)
Definition py_str (a : pyval) : str :=
  match a with
  | PNone => lit "None"
  | PBool true => lit "True"
  | PBool false => lit "False"
  | PInt n => lit (NilEmpty.string_of_int (Z.to_int n))
  | PStr s => s
  end.

Definition truthy (a : pyval) : bool :=
  match a with
  | PNone => false
  | PBool b => b
  | PInt n => negb (n =? 0)
  | PStr [] => false
  | PStr _ => true
  end.

(** [a or b]. *)
Definition py_or (a b : pyval) : pyval := if truthy a then a else b.

(** [s.upper()] on a [str] of ASCII characters.  On other text this is not
    [str.upper]: Python maps letters outside ASCII too, and some of them to
    ASCII letters (U+0131 to I, U+017F to S, U+FB00 to FF), where this
    function leaves them alone.  A text with such a letter can therefore
    upper-case to an accepted token in the code and not here (to MAIN, OFF,
    MIN or SIMUL, say), so what is proved of a method that tests the
    upper-cased argument is stated for ASCII text wherever that matters. *)
Definition str_upper (s : str) : str :=
  map (fun c => if (97 <=? c) && (c <=? 122) then c - 32 else c) s.

(** [a.upper()]: only a [str] has the method. *)
Definition method_upper (a : pyval) : M str :=
  match a with
  | PStr s => ret (str_upper s)
  | _ => raise (AttributeError "upper")
  end.

(** [s + a] with a [str] on the left: [a] must be a [str] too. *)
Definition plus (s : str) (a : pyval) : M str :=
  match a with
  | PStr t => ret (s ++ t)
  | _ => raise TypeError
  end.

(** Reading a local variable that may not have been assigned. *)
Definition local (name : string) (v : option str) : M str :=
  match v with
  | Some s => ret s
  | None => raise (UnboundLocalError name)
  end.

Definition set_state (fuel : nat) (meas_state on : pyval) : M pyval :=
  up <- method_upper meas_state ;;
  if py_in (PStr up) [PStr (lit "HOLD"); PStr (lit "RUN")]
     && py_in on [PInt 1; PInt 0; PStr (lit "1"); PStr (lit "0");
                  PBool true; PBool false]
  then
    let on := if py_eq on (PBool true) then PInt 1
              else if py_eq on (PBool false) then PInt 0
              else on in
    c <- plus (lit "INST:STAT:") meas_state ;;
    data <- ask fuel (c ++ lit " " ++ py_str on) ;;
    ret (PStr data)
  else
    c <- plus (lit "Measurement state ") meas_state ;;
    c <- plus (c ++ lit " or state ") on ;;
    print (Line (c ++ lit " not valid")) ;;;
    ret PNone.

Definition set_bottomY (fuel : nat) (value magnitude window scale : pyval)
  : M pyval :=
  wind <- (if py_eq window (PBool true) then ret (Some (lit ":WIND"))
           else if py_eq window (PBool false) then ret (Some empty_str)
           else
             c <- plus (lit "Value for window must be boolean, instead it is ")
                       window ;;
             print (Line c) ;;;
             ret None) ;;
  match wind with
  | None => ret PNone
  | Some wind =>
    scal <- (if py_eq scale (PBool true) then ret (Some (lit ":SCAL"))
             else if py_eq scale (PBool false) then ret (Some empty_str)
             else
               c <- plus (lit "Value for scale must be boolean, instead it is ")
                         scale ;;
               print (Line c) ;;;
               ret None) ;;
    let unit_ := str_upper (py_str (py_or magnitude (PStr empty_str))) in
    if py_in (PStr unit_)
             [PStr (lit "DBM"); PStr (lit "MW"); PStr empty_str]
    then
      scal <- local "scal" scal ;;
      c <- plus (lit "DISP" ++ wind ++ lit ":TRAC:Y" ++ scal ++ lit ":BOTT ")
                value ;;
      data <- ask fuel (c ++ unit_) ;;
      ret (PStr data)
    else
      scal <- local "scal" scal ;;
      c <- plus (lit "DISP" ++ wind ++ lit ":TRAC:Y" ++ scal ++ lit ":BOTT ")
                value ;;
      data <- ask fuel c ;;
      ret (PStr data)
  end.

(* ------------------------------------------------------------------ *)
(** ** Construction *)

(** [self.instrument = h]. *)
Definition assign_instrument (h : handle) : M unit :=
  fun self => Return tt (set_instrument self h).

(** [connectLan()].  [fresh] is the socket object [socket.socket(...)]
    returns, with the behaviour the network will give it ([settimeout(30)]
    is what makes a silent peer a timeout); [refusal] is what [connect]
    raises, if it does. *)
Definition connectLan (fresh : socket) (refusal : option exn) : M unit :=
  log_msg DEBUG (lit "creating socket") ;;;
  assign_instrument (Socket fresh) ;;;
  try_except
    (log_msg DEBUG (lit "Connecting to remote socket...") ;;;
     on_socket "connect"
       (fun s => match refusal with
                 | Some e => (inl e, s)
                 | None => (inr tt, s)
                 end))
    (reraise "Could not connection to remote socket") ;;;
  log_msg DEBUG (lit "Connected to remote socket") ;;;
  log_msg INFO (lit "BOSA ready!").

(** [__init__(interfaceType, location, portNo, IDN, Reset)], run in a world
    whose log and output are those of [world].  [resource] is what
    [open_resource(location)] gives: a resource, or an exception.  The bare
    [Exception] raised for an unknown interface name is an exception object
    without a [message] attribute, written [LibraryError None]. *)
Definition __init__ (fuel : nat) (interfaceType_arg : string)
    (fresh : socket) (refusal : option exn) (resource : exn + visa)
    (IDN Reset : bool) : M unit :=
  fun world =>
    ((lan <- kind_is "lan" ;;
      if lan then
        log_msg INFO (lit "Connection to BOSA using Lan interface on %r") ;;;
        try_except (connectLan fresh refusal)
                   (reraise "Could not connect to BOSA device")
      else
        gpib <- kind_is "gpib" ;;
        if gpib then
          log_msg INFO (lit "GPIB interface chosen to connect BOSA on %r") ;;;
          try_except
            (match resource with
             | inl e => raise e
             | inr v => assign_instrument (Visa v)
             end)
            (reraise "couldn't connect to device") ;;;
          log_msg INFO (lit "Connected to device.")
        else
          log_msg ERROR (lit "Interface Type " ++ lit interfaceType_arg
                         ++ lit " not valid") ;;;
          raise (LibraryError None)) ;;;
     (if IDN then
        try_except
          (log_msg DEBUG (lit "Sending IDN to device...") ;;;
           write (lit "*IDN?"))
          (reraise "Could not send *IDN? device") ;;;
        log_msg DEBUG (lit "IDN send, waiting response...") ;;;
        response <- try_except (read fuel)
                               (reraise "Could read response from device") ;;
        print (Line (lit "IDN= " ++ response))
      else ret tt) ;;;
     (if Reset then
        try_except
          (log_msg INFO (lit "resting device") ;;; write (lit "*RST"))
          (reraise "Could not reset device")
      else ret tt))
      {| interfaceType := interfaceType_arg; instrument := None;
         log := log world; stdout := stdout world;
         history := history world |}.

(* ------------------------------------------------------------------ *)
(** ** More of the command layer

    In the methods below [str_upper] stands for [str.upper] on ASCII text;
    what is proved of them is proved for text arguments in ASCII. *)

(** [self.modes], as [__init__] sets it. *)
Definition modes : list pyval :=
  [PStr (lit "MAIN"); PStr (lit "BOSA"); PStr (lit "TLS"); PStr (lit "CA")].

(** [isinstance(a, bool)]. *)
Definition is_bool (a : pyval) : bool :=
  match a with
  | PBool _ => true
  | _ => false
  end.

(** [return self.ask(command)]. *)
Definition return_ask (fuel : nat) (command : str) : M pyval :=
  data <- ask fuel command ;;
  ret (PStr data).

Definition get_mode (fuel : nat) : M pyval :=
  return_ask fuel (lit "INST:STAT:MODE ?").

Definition set_mode (fuel : nat) (mode : pyval) : M pyval :=
  up <- method_upper mode ;;
  if py_in (PStr up) modes then
    up <- method_upper mode ;;
    return_ask fuel (lit "INST:STAT:MODE " ++ up)
  else
    c <- plus (lit "Mode selected ") mode ;;
    print (Line (c ++ lit " is not valid")) ;;;
    ret PNone.

Definition get_state (fuel : nat) (meas_state : pyval) : M pyval :=
  up <- method_upper meas_state ;;
  if py_in (PStr up) [PStr (lit "HOLD"); PStr (lit "RUN")] then
    c <- plus (lit "INST:STAT:") meas_state ;;
    return_ask fuel (c ++ lit " ?")
  else
    c <- plus (lit "Measurement state ") meas_state ;;
    print (Line (c ++ lit " not valid")) ;;;
    ret PNone.

(** The flag tests that open the display methods: [wind] from [window],
    and likewise [scal]; [None] when the method has printed and returns. *)
Definition flag (name : string) (yes no : str) (v : pyval) : M (option str) :=
  if py_eq v (PBool true) then ret (Some yes)
  else if py_eq v (PBool false) then ret (Some no)
  else
    c <- plus (lit "Value for " ++ lit name
               ++ lit " must be boolean, instead it is ") v ;;
    print (Line c) ;;;
    ret None.

Definition get_bottomY (fuel : nat) (window scale : pyval) : M pyval :=
  wind <- flag "window" (lit ":WIND") empty_str window ;;
  match wind with
  | None => ret PNone
  | Some wind =>
    scal <- flag "scale" (lit ":SCAL") empty_str scale ;;
    match scal with
    | None => ret PNone
    | Some scal =>
      return_ask fuel (lit "DISP" ++ wind ++ lit ":TRAC:Y" ++ scal
                       ++ lit ":BOTT?")
    end
  end.

Definition get_trcount (fuel : nat) (data : pyval) : M pyval :=
  dat <- flag "data" (lit ":DATA") empty_str data ;;
  match dat with
  | None => ret PNone
  | Some dat => return_ask fuel (lit "TRAC" ++ dat ++ lit ":COUNT?")
  end.

(** The body shared, up to the command, by [set_wavSingle],
    [set_wavSweepCal], [set_avgState], [set_avgCorr], [set_laser],
    [set_sweep], [set_inpMueller] and [set_mrkState]. *)
Definition switch_setter (command : str) (fuel : nat) (on : pyval) : M pyval :=
  if py_in (PStr (str_upper (py_str on)))
           [PStr (lit "1"); PStr (lit "0"); PStr (lit "ON"); PStr (lit "OFF")]
  then return_ask fuel (command ++ str_upper (py_str on))
  else if is_bool on then
    if py_eq on (PBool true) then return_ask fuel (command ++ lit "1")
    else if py_eq on (PBool false) then return_ask fuel (command ++ lit "0")
    else ret PNone
  else
    c <- plus (lit "Value for on must be 1, 0, ON, OFF or a boolean, instead it is ")
              on ;;
    print (Line c) ;;;
    ret PNone.

Definition set_wavSingle := switch_setter (lit "SENS:WAV:SINGLE ").
Definition set_wavSweepCal := switch_setter (lit "SENS:WAV:SWEEPCAL ").
Definition set_avgState := switch_setter (lit "SENS:AVER:STAT ").
Definition set_avgCorr := switch_setter (lit "SENS:AVER:CORR ").
Definition set_laser := switch_setter (lit "SENS:SWITCH ").
Definition set_sweep := switch_setter (lit "SENS:SWEEP ").
Definition set_inpMueller := switch_setter (lit "INP:POL:MUELL ").
Definition set_mrkState := switch_setter (lit "CALC:MARK:STAT ").

(** The units the wavelength setters accept. *)
Definition wavelength_units : list pyval :=
  [PStr (lit "NM"); PStr (lit "PM"); PStr (lit "GHZ"); PStr (lit "THZ");
   PStr empty_str].

(** The body shared, up to the command, by [set_wavSmooth], [set_wavSpan],
    [set_wavSpeed], [set_wavStat], [set_wavStart], [set_wavStop],
    [set_wavRes], [set_mrkX] and [set_TPowUp]. *)
Definition wavelength_setter (command : str) (fuel : nat)
    (value units : pyval) : M pyval :=
  if py_in (PStr (str_upper (py_str (py_or units (PStr empty_str)))))
           wavelength_units
  then
    c <- plus command value ;;
    return_ask fuel (c ++ lit " "
                     ++ str_upper (py_str (py_or units (PStr empty_str))))
  else
    c <- plus (lit "Value for units must be NM, PM, GHZ or THZ, instead it is ")
              units ;;
    print (Line c) ;;;
    ret PNone.

(** [set_wavSmooth] does send the centre command. *)
Definition set_wavSmooth := wavelength_setter (lit "SENS:WAV:CENT ").
Definition set_wavSpan := wavelength_setter (lit "SENS:WAV:SPAN ").
Definition set_wavSpeed := wavelength_setter (lit "SENS:WAV:SPEED ").
Definition set_wavStat := wavelength_setter (lit "SENS:WAV:STAT ").
Definition set_wavStart := wavelength_setter (lit "SENS:WAV:STAR ").
Definition set_wavStop := wavelength_setter (lit "SENS:WAV:STOP ").
Definition set_wavRes := wavelength_setter (lit "SENS:WAV:RES ").
Definition set_mrkX := wavelength_setter (lit "CALC:MARK:X ").
Definition set_TPowUp := wavelength_setter (lit "CALC:TPOW:IRAN:UPP ").

Definition set_wavCenter (fuel : nat) (units value : pyval) : M pyval :=
  if py_eq (PStr (str_upper (py_str value))) (PStr (lit "MAX")) then
    return_ask fuel (lit "SENS:WAV:CENT MAX")
  else if py_in (PStr (str_upper (py_str (py_or units (PStr empty_str)))))
                wavelength_units
  then
    c <- plus (lit "SENS:WAV:CENT ") value ;;
    return_ask fuel (c ++ lit " "
                     ++ str_upper (py_str (py_or units (PStr empty_str))))
  else
    c <- plus (lit "Value for units must be NM, PM, GHZ or THZ, instead it is ")
              units ;;
    print (Line c) ;;;
    ret PNone.

Definition set_inpPol (fuel : nat) (pol : pyval) : M pyval :=
  if py_in (PStr (str_upper (py_str pol)))
           [PStr (lit "1+2"); PStr (lit "1"); PStr (lit "2"); PStr (lit "1&2");
            PStr (lit "PDL"); PStr (lit "MAX"); PStr (lit "MIN");
            PStr (lit "SIMUL"); PStr (lit "INDEP")]
  then return_ask fuel (lit "INP:POL " ++ str_upper (py_str pol))
  else
    print (Line (lit "Value for pol must be 1+2, 1, 2, 1&2 for BOSA and PDL, MAX, MIN, SIMUL, INDEP, 1 or 2 for CA ")) ;;;
    ret PNone.

(** [set_format(format, length, data)] for an integer [length]; the method
    ends with [return self.ask("FORM" + dat)], which the branch that prints
    falls through to. *)
Definition set_format (fuel : nat) (format : pyval) (length : Z)
    (data : pyval) : M pyval :=
  dat <- flag "data" (lit ":DATA") empty_str data ;;
  match dat with
  | None => ret PNone
  | Some dat =>
    if py_eq (PStr (str_upper (py_str format))) (PStr (lit "ASCII")) then
      if negb (length =? -1) then
        c <- plus (lit "FORM" ++ dat ++ lit " ASCII,") (PInt length) ;;
        return_ask fuel c
      else return_ask fuel (lit "FORM" ++ dat ++ lit " ASCII")
    else if py_eq (PStr (str_upper (py_str format))) (PStr (lit "REAL")) then
      return_ask fuel (lit "FORM" ++ dat ++ lit " REAL")
    else
      c <- plus (lit "Value for format must be ASCII or REAL, instead it is ")
                format ;;
      print (Line c) ;;;
      return_ask fuel (lit "FORM" ++ dat)
  end.

(** The body shared, up to the command, by [set_maxHold] and [set_minHold].
    The message for a bad [state] is built from [stat], which is not
    assigned on that path; the boolean branches add an integer to the
    command. *)
Definition hold_setter (command : str) (fuel : nat) (on state : pyval)
  : M pyval :=
  stat <- (if py_eq state (PBool true) then ret (Some (lit ":STAT "))
           else if py_eq state (PBool false) then ret (Some (lit " "))
           else
             stat <- local "stat" None ;;
             print (Line (lit "Value for state must be boolean, instead it is "
                          ++ stat)) ;;;
             ret None) ;;
  match stat with
  | None => ret PNone
  | Some stat =>
    if py_in (PStr (str_upper (py_str on)))
             [PStr (lit "1"); PStr (lit "0"); PStr (lit "ON"); PStr (lit "OFF")]
    then return_ask fuel (command ++ stat ++ str_upper (py_str on))
    else if is_bool on then
      if py_eq on (PBool true) then
        c <- plus (command ++ stat) (PInt 1) ;; return_ask fuel c
      else if py_eq on (PBool false) then
        c <- plus (command ++ stat) (PInt 0) ;; return_ask fuel c
      else ret PNone
    else
      c <- plus (lit "Value for on must be 1, 0, ON, OFF or a boolean, instead it is ")
                on ;;
      print (Line c) ;;;
      ret PNone
  end.

Definition set_maxHold := hold_setter (lit "CALC:MAX").
Definition set_minHold := hold_setter (lit "CALC:MIN").

(* ------------------------------------------------------------------ *)
(** ** The acquisition scripts *)

(** [time.sleep(seconds)]: it acts on nothing the driver sees. *)
Definition sleep (seconds : Z) : M unit := ret tt.

(** The loop of [checkvar]. *)
Fixpoint checkvar_loop (fuel : nat) (target : str) (slptime : Z)
    (checkf : M pyval) (checkv : pyval) : M unit :=
  match fuel with
  | O => diverge
  | S fuel' =>
    if negb (py_eq checkv (PStr target)) then
      print (Line (py_str checkv)) ;;;
      checkv <- checkf ;;
      sleep slptime ;;;
      checkvar_loop fuel' target slptime checkf checkv
    else ret tt
  end.

(** [checkvar(msg, slptime, checkv, checkf, ...)], the call of [checkf] on
    its arguments given as the action it is. *)
Definition checkvar (fuel : nat) (msg : str) (slptime : Z) (checkv : pyval)
    (checkf : M pyval) : M unit :=
  checkv <- checkf ;;
  checkvar_loop fuel (msg ++ CRLF) slptime checkf checkv.

(** What the scripts flatten: numbers, and tuples of such things. *)
Inductive atom :=
| AFloat (v : float64)
| AInt (n : Z).

#[local] Set Warnings "-register-all".
Inductive nest :=
| Item (a : atom)
| Tup (xs : list nest).

(** [tuple(flatten(iterable))]: nothing for what is not a tuple. *)
Fixpoint flatten (iterable : nest) : list atom :=
  match iterable with
  | Item _ => []
  | Tup xs =>
    flat_map (fun x => match x with
                       | Tup _ => flatten x
                       | Item a => [a]
                       end) xs
  end.

Definition nest_of_cell (c : cell) : nest :=
  match c with
  | Int0 => Item (AInt 0)
  | Tuple1 v => Tup [Item (AFloat v)]
  end.

(** The first element of every row, if every row has one. *)
Fixpoint heads {A} (rows : list (list A)) : option (list A) :=
  match rows with
  | [] => Some []
  | [] :: _ => None
  | (a :: _) :: r => option_map (cons a) (heads r)
  end.

Fixpoint zip_columns {A} (n : nat) (rows : list (list A)) : list (list A) :=
  match n with
  | O => []
  | S n' =>
    match heads rows with
    | Some hs => hs :: zip_columns n' (map (@tl A) rows)
    | None => []
    end
  end.

(** [zip] applied to the rows: the columns, as many as the shortest row has
    cells. *)
Definition zip_star {A} (rows : list (list A)) : list (list A) :=
  match rows with
  | [] => []
  | r :: _ => zip_columns (List.length r) rows
  end.

(** The script's [x_axis, y_axis] = [zip] of the rows of [Trace], followed
    by [x_axis = tuple(flatten(x_axis))] and the same for [y_axis]. *)
Definition script_axes (t : Trace) : exn + (list atom * list atom) :=
  match zip_star t with
  | [x_axis; y_axis] =>
    inr (flatten (Tup (map nest_of_cell x_axis)),
         flatten (Tup (map nest_of_cell y_axis)))
  | _ => inl ValueError
  end.

(* ------------------------------------------------------------------ *)
(** ** Reading the socket's call record *)

(** Every call is a [recv] that asks for the bytes still missing, or for
    19200 when more are missing. *)
Fixpoint chunked (remaining : Z) (cs : list sock_call) : bool :=
  match cs with
  | [] => true
  | Recv bufsize data :: r =>
    (bufsize =? Z.min remaining 19200) && (bufsize <=? 19200)
    && chunked (remaining - Z.of_nat (List.length data)) r
  | Sendall _ :: _ => false
  end.

(** The bytes the [recv] calls returned, in order. *)
Fixpoint received (cs : list sock_call) : bytes :=
  match cs with
  | [] => []
  | Recv _ data :: r => data ++ received r
  | Sendall _ :: r => received r
  end.

(** The bytes the [sendall] calls were given, in order. *)
Fixpoint sent (cs : list sock_call) : bytes :=
  match cs with
  | [] => []
  | Sendall data :: r => data ++ sent r
  | Recv _ _ :: r => sent r
  end.

(** The row the binary decoder owes for point [i] of the buffer: the two
    doubles at byte offsets [i*16, i*16+8) and [i*16+8, i*16+16), each in
    the one-element tuple [struct.unpack] wraps it in. *)
Definition pair_at (o : byteorder) (buf : bytes) (i : nat) : list cell :=
  [Tuple1 (float_at o (slice (i * 16) (i * 16 + 8) buf));
   Tuple1 (float_at o (slice (i * 16 + 8) (i * 16 + 16) buf))].

(** The connection is about to receive exactly [buf]: over the socket in
    whatever fragments, or from the bus as one block. *)
Definition receives (self : BOSA) (buf : bytes) : Prop :=
  (lower (interfaceType self) = "lan"%string
   /\ exists s, instrument self = Some (Socket s)
                /\ sock_closed s = false /\ List.concat (inbox s) = buf)
  \/ (lower (interfaceType self) = "gpib"%string
      /\ exists v rs, instrument self = Some (Visa v)
                      /\ visa_closed v = false
                      /\ replies v = ReplyBytes buf :: rs).

(** The text a sequence of chunks decodes to, each chunk decoded on its
    own as [read] does. *)
Fixpoint decode_all (frags : list bytes) : option str :=
  match frags with
  | [] => Some []
  | f :: r =>
    match decode f, decode_all r with
    | Some t, Some tr => Some (t ++ tr)
    | _, _ => None
    end
  end.

(** A fragment one [recv(115200)] returns whole. *)
Definition whole (f : bytes) : Prop :=
  f <> [] /\ Z.of_nat (List.length f) <= 115200.

(** The bytes of a text of one-byte characters. *)
Definition wire_bytes (s : str) : bytes := map byte_of s.

(** Every byte the driver has put on the channel so far. *)
Definition wire (self : BOSA) : bytes :=
  match instrument self with
  | Some (Socket s) => sent (calls s)
  | Some (Visa v) => List.concat (written v)
  | None => []
  end.

(** The encoding a text goes through on its way out: UTF-8 on the socket
    (the driver's [encode()]), ASCII on the bus (the resource's own). *)
Definition channel_encode (self : BOSA) (text : str) : option bytes :=
  if String.eqb (lower (interfaceType self)) "lan" then encode text
  else if String.eqb (lower (interfaceType self)) "gpib" then encode_ascii text
  else None.

(** The connection is open for writing, with no fault pending; a bus
    resource is as [open_resource] configured it. *)
Definition ready_to_send (self : BOSA) : Prop :=
  (lower (interfaceType self) = "lan"%string
   /\ exists s, instrument self = Some (Socket s)
                /\ sock_closed s = false /\ send_fault s = None)
  \/ (lower (interfaceType self) = "gpib"%string
      /\ exists v, instrument self = Some (Visa v)
                   /\ visa_closed v = false /\ write_fault v = None
                   /\ write_termination v = CRLF).

(** The stream cut into one-byte fragments. *)
Definition bytewise (stream : bytes) : list bytes := map (fun b => [b]) stream.

Definition is_read (o : op) : bool :=
  match o with
  | OpWrite _ => false
  | _ => true
  end.

(** The calls come in pairs: a write, then a read. *)
Fixpoint one_read_per_write (h : list op) : bool :=
  match h with
  | [] => true
  | OpWrite _ :: r :: rest => is_read r && one_read_per_write rest
  | _ => false
  end.

(** Whenever [m] returns, it has made exactly the calls [evs]. *)
Definition appends {A} (evs : list op) (m : M A) : Prop :=
  forall self a self',
    m self = Return a self' -> history self' = history self ++ evs.

Inductive handle_kind := NoHandle | SocketHandle | VisaHandle.

Definition kind_of (self : BOSA) : handle_kind :=
  match instrument self with
  | None => NoHandle
  | Some (Socket _) => SocketHandle
  | Some (Visa _) => VisaHandle
  end.

(** Whenever [m] returns, the handle is of the kind it was. *)
Definition keeps_kind {A} (m : M A) : Prop :=
  forall self a self',
    m self = Return a self' -> kind_of self' = kind_of self.

(** The call did nothing but print one line, and returned [None]: no
    command went out and nothing was read. *)
Definition reported_not_sent (m : M pyval) (self : BOSA) : Prop :=
  exists diagnostic,
    m self
    = Return PNone
        {| interfaceType := interfaceType self; instrument := instrument self;
           log := log self; stdout := stdout self ++ [Line diagnostic];
           history := history self |}.

(* ------------------------------------------------------------------ *)
(** ** What a method leaves as it was *)

(** Whatever way [m] ends, by returning or by raising, the object it ends
    with is related by [R] to the one it started with. *)
Definition always {A} (R : BOSA -> BOSA -> Prop) (m : M A) : Prop :=
  forall self,
    match m self with
    | Return _ self' => R self self'
    | Raise _ self' => R self self'
    | OutOfFuel => True
    end.

(** [f] reads the same before and after. *)
Definition same {B} (f : BOSA -> B) : BOSA -> BOSA -> Prop :=
  fun self self' => f self' = f self.

(** A socket method that leaves [f] as it reads, and the same of a bus
    method. *)
Definition socket_keeps {A B} (f : BOSA -> B)
    (g : socket -> (exn + A) * socket) : Prop :=
  forall self s,
    instrument self = Some (Socket s) ->
    f (set_instrument self (Socket (snd (g s)))) = f self.

Definition visa_keeps {A B} (f : BOSA -> B)
    (g : visa -> (exn + A) * visa) : Prop :=
  forall self v,
    instrument self = Some (Visa v) ->
    f (set_instrument self (Visa (snd (g v)))) = f self.

(** What the handle still has to deliver. *)
Definition incoming (self : BOSA) : list bytes * list reply :=
  match instrument self with
  | Some (Socket s) => (inbox s, [])
  | Some (Visa v) => ([], replies v)
  | None => ([], [])
  end.

(** Whether the handle is closed, and the faults that await its use. *)
Definition condition (self : BOSA)
  : option (bool * option exn * option exn) :=
  match instrument self with
  | Some (Socket s) => Some (sock_closed s, send_fault s, sock_close_fault s)
  | Some (Visa v) => Some (visa_closed v, write_fault v, visa_close_fault v)
  | None => None
  end.

(** The interface name together with the handle's condition. *)
Definition named_condition (self : BOSA) :=
  (interfaceType self, condition self).

(** The numbers in a nest of tuples, left to right. *)
Fixpoint leaves (t : nest) : list atom :=
  match t with
  | Item a => [a]
  | Tup xs => flat_map leaves xs
  end.

(** A text argument is in ASCII; other values are what they are. *)
Definition ascii_arg (a : pyval) : Prop :=
  match a with
  | PStr s => is_ascii s
  | _ => True
  end.

(** The writes among the calls. *)
Fixpoint writes (h : list op) : list str :=
  match h with
  | [] => []
  | OpWrite c :: r => c :: writes r
  | _ :: r => writes r
  end.

(** A fragment that carries, whole, an answer other than the awaited
    [msg] followed by ["\r\n"]. *)
Definition other_answer (msg : str) (f : bytes) (t : str) : Prop :=
  whole f /\ decode f = Some t /\ contains NL t = true /\ t <> msg ++ CRLF.

(** The rows of a trace whose points are [points]: each coordinate in the
    one-element tuple [struct.unpack] returns. *)
Definition rows_of (points : list (float64 * float64)) : Trace :=
  map (fun p => [Tuple1 (fst p); Tuple1 (snd p)]) points.

(* ------------------------------------------------------------------ *)
(** ** Objects to run the methods on *)

Definition open_socket (frags : list bytes) (e : ending) : socket :=
  {| inbox := frags; at_end := e; send_fault := None;
     sock_close_fault := None; sock_closed := false; calls := [] |}.

(** A driver object on a connected socket that will deliver [frags]. *)
Definition lan_object (frags : list bytes) (e : ending) : BOSA :=
  {| interfaceType := "LAN"; instrument := Some (Socket (open_socket frags e));
     log := []; stdout := []; history := [] |}.

(** A driver object on a bus resource that will answer [rs]. *)
Definition gpib_object (rs : list reply) : BOSA :=
  {| interfaceType := "GPIB"; instrument := Some (Visa (open_resource rs));
     log := []; stdout := []; history := [] |}.

(** A GPIB object whose [open_resource] failed: [instrument] was never
    assigned. *)
Definition gpib_unopened : BOSA :=
  {| interfaceType := "GPIB"; instrument := None;
     log := []; stdout := []; history := [] |}.

(** 1.0 and 2.0 as little-endian doubles. *)
Definition one_le : bytes := [x00; x00; x00; x00; x00; x00; xf0; x3f].
Definition two_le : bytes := [x00; x00; x00; x00; x00; x00; x00; x40].

(** The identification reply of the specification's scenario, as it travels. *)
Definition idn_reply : bytes := wire_bytes (lit "ACME,BOSA400,001,1.0" ++ CRLF).

(** Two lines in one stream: ["A\r\nB\r\n"]. *)
Definition two_lines : bytes := wire_bytes (lit "A" ++ CRLF ++ lit "B" ++ CRLF).

(** A bus that answers a trace query with two numbers. *)
Definition gpib_with_values : BOSA :=
  gpib_object [ReplyValues [S754_finite false 4503599627370496 (-52);
                            S754_finite false 4503599627370496 (-51)]].

(** A socket whose [close] fails. *)
Definition lan_close_fails : BOSA :=
  {| interfaceType := "LAN";
     instrument :=
       Some (Socket {| inbox := []; at_end := Silent; send_fault := None;
                       sock_close_fault := Some OSError;
                       sock_closed := false; calls := [] |});
     log := []; stdout := []; history := [] |}.

(** An instrument that answers ["0\r\n"] to whatever it is sent. *)
Definition lan_answering : BOSA :=
  lan_object [wire_bytes (lit "0" ++ CRLF)] Silent.

(** A bus that answers two empty payloads and then a mode. *)
Definition gpib_slow : BOSA :=
  gpib_object [ReplyText []; ReplyText []; ReplyText (lit "CA");
               ReplyText (lit "later")].

(** A socket whose [sendall] fails. *)
Definition lan_send_fails : BOSA :=
  {| interfaceType := "LAN";
     instrument :=
       Some (Socket {| inbox := [idn_reply]; at_end := Silent;
                       send_fault := Some OSError; sock_close_fault := None;
                       sock_closed := false; calls := [] |});
     log := []; stdout := []; history := [] |}.

(** A world with nothing logged or printed yet. *)
Definition quiet_world : BOSA :=
  {| interfaceType := ""; instrument := None;
     log := []; stdout := []; history := [] |}.

(** A fresh socket whose peer will answer the identification query. *)
Definition answering_socket : socket := open_socket [idn_reply] Silent.

(** An instrument that is still in its main mode at the first query and in
    the component-analyser mode at the second. *)
Definition lan_changing_mode : BOSA :=
  lan_object [wire_bytes (lit "MAIN" ++ CRLF); wire_bytes (lit "CA" ++ CRLF)]
             Silent.

(* ------------------------------------------------------------------ *)
(** ** Running the monad *)

Ltac run :=
  unfold reraise, bind, ret, raise, try_except, note, log_msg, print, kind_is;
  cbn [interfaceType instrument log stdout history set_instrument fst snd].

(** Run a method on an object whose interface name is known by [H]. *)
Ltac run_as H :=
  repeat (progress (run; rewrite ?H; cbn [String.eqb Ascii.eqb Bool.eqb])).

(* ------------------------------------------------------------------ *)
(** ** The socket delivers a prefix of what is still to come *)

Lemma take_chunk_spec (n : nat) (frags : list bytes) :
  (0 < n)%nat ->
  List.concat frags = fst (take_chunk n frags) ++ List.concat (snd (take_chunk n frags))
  /\ (List.length (fst (take_chunk n frags)) <= n)%nat
  /\ (List.concat frags <> [] -> fst (take_chunk n frags) <> []).
Proof.
  intros Hn. induction frags as [|f rest IH].
  - simpl. repeat split; auto; lia.
  - destruct f as [|b f].
    + simpl. exact IH.
    + cbn [take_chunk fst snd]. repeat split.
      * rewrite <- (firstn_skipn n (b :: f)) at 1.
        cbn [List.concat]. destruct (skipn n (b :: f)) as [|x r] eqn:E.
        -- now rewrite app_nil_r.
        -- cbn [List.concat]. now rewrite app_assoc.
      * apply firstn_le_length.
      * intros _. destruct n; [lia | discriminate].
Qed.

Lemma sock_recv_data (bufsize : Z) (s : socket) :
  sock_closed s = false -> 0 < bufsize -> List.concat (inbox s) <> [] ->
  exists c rest,
    sock_recv bufsize s = (inr c, logged s (Recv bufsize c) rest)
    /\ c <> [] /\ Z.of_nat (List.length c) <= bufsize
    /\ List.concat (inbox s) = c ++ List.concat rest.
Proof.
  intros Hopen Hpos Hdata.
  destruct (take_chunk_spec (Z.to_nat bufsize) (inbox s)) as (Hcat & Hlen & Hne);
    [lia|].
  specialize (Hne Hdata).
  unfold sock_recv. rewrite Hopen.
  destruct (Z.ltb_spec bufsize 0); [lia|].
  destruct (Z.eqb_spec bufsize 0); [lia|].
  destruct (take_chunk (Z.to_nat bufsize) (inbox s)) as [c rest].
  cbn [fst snd] in *. exists c, rest.
  destruct c as [|b c]; [congruence|].
  repeat split; auto; try congruence. lia.
Qed.

Lemma sock_recv_eof (bufsize : Z) (s : socket) :
  sock_closed s = false -> 0 < bufsize -> List.concat (inbox s) = [] ->
  at_end s = PeerClosed ->
  exists rest,
    sock_recv bufsize s = (inr [], logged s (Recv bufsize []) rest)
    /\ List.concat rest = [].
Proof.
  intros Hopen Hpos Hdata Hend.
  destruct (take_chunk_spec (Z.to_nat bufsize) (inbox s)) as (Hcat & _ & _);
    [lia|].
  unfold sock_recv. rewrite Hopen, Hend.
  destruct (Z.ltb_spec bufsize 0); [lia|].
  destruct (Z.eqb_spec bufsize 0); [lia|].
  destruct (take_chunk (Z.to_nat bufsize) (inbox s)) as [c rest].
  cbn [fst snd] in *. rewrite Hdata in Hcat.
  symmetry in Hcat. apply app_eq_nil in Hcat as [-> Hrest].
  exists rest. split; auto.
Qed.

Lemma on_socket_returns {A} (method : string)
    (f : socket -> (exn + A) * socket) (self : BOSA) (s s' : socket) (a : A) :
  instrument self = Some (Socket s) -> f s = (inr a, s') ->
  on_socket method f self = Return a (set_instrument self (Socket s')).
Proof. intros Hi Hf. unfold on_socket. now rewrite Hi, Hf. Qed.

(* ------------------------------------------------------------------ *)
(** ** The receive loop of the binary trace *)

Lemma recv_request (msgLength : Z) (self : BOSA) :
  (if msgLength <? 19200
   then on_socket "recv" (sock_recv msgLength)
   else on_socket "recv" (sock_recv 19200)) self
  = on_socket "recv" (sock_recv (Z.min msgLength 19200)) self.
Proof.
  destruct (Z.ltb_spec msgLength 19200).
  - now rewrite Z.min_l by lia.
  - now rewrite Z.min_r by lia.
Qed.

Lemma request_ok (msgLength : Z) :
  (Z.min msgLength 19200 =? Z.min msgLength 19200)
  && (Z.min msgLength 19200 <=? 19200) = true.
Proof.
  rewrite Z.eqb_refl. cbn [andb]. apply Z.leb_le. lia.
Qed.

Lemma skipn_app_plus {A} (l r : list A) (k : nat) :
  skipn (List.length l + k) (l ++ r) = skipn k r.
Proof. induction l as [|a l IH]; cbn; auto. Qed.

Lemma recv_trace_complete (fuel : nat) :
  forall (msgLength : Z) (acc : bytes) (self : BOSA) (s : socket),
    instrument self = Some (Socket s) -> sock_closed s = false ->
    0 <= msgLength <= Z.of_nat (List.length (List.concat (inbox s))) ->
    (Z.to_nat msgLength < fuel)%nat ->
    exists s' cs,
      recv_trace fuel msgLength acc self
      = Return (acc ++ firstn (Z.to_nat msgLength) (List.concat (inbox s)))
               (set_instrument self (Socket s'))
      /\ List.concat (inbox s')
         = skipn (Z.to_nat msgLength) (List.concat (inbox s))
      /\ calls s' = calls s ++ cs
      /\ chunked msgLength cs = true
      /\ received cs = firstn (Z.to_nat msgLength) (List.concat (inbox s)).
Proof.
  induction fuel as [|fuel IH]; intros msgLength acc self s Hi Hopen Hlen Hfuel;
    [lia|].
  cbn [recv_trace]. unfold bind at 1. unfold try_except. unfold bind at 1.
  rewrite recv_request.
  destruct (Z.eq_dec msgLength 0) as [->|Hpos].
  - (* nothing is asked for: [recv(0)] *)
    change (Z.min 0 19200) with 0.
    rewrite (on_socket_returns "recv" (sock_recv 0) self s
               (logged s (Recv 0 []) (inbox s)) ([] : bytes))
      by (auto; unfold sock_recv; now rewrite Hopen).
    cbn. exists (logged s (Recv 0 []) (inbox s)), [Recv 0 []].
    repeat split; auto.
  - destruct (sock_recv_data (Z.min msgLength 19200) s) as (c & rest & Hr & Hc & Hcl & Hcat);
      auto; [lia| |].
    { intros E. rewrite E in Hlen. cbn in Hlen. lia. }
    rewrite (on_socket_returns _ _ self s _ c Hi Hr).
    cbn [ret fst snd].
    assert (Hclen : (0 < List.length c)%nat)
      by (destruct c; [congruence | cbn; lia]).
    rewrite Hcat in Hlen |- *. rewrite length_app in Hlen.
    destruct (Z.eqb_spec (msgLength - Z.of_nat (List.length c)) 0) as [E|E].
    + exists (logged s (Recv (Z.min msgLength 19200) c) rest),
             [Recv (Z.min msgLength 19200) c].
      assert (Hn : Z.to_nat msgLength = List.length c) by lia.
      rewrite Hn, firstn_app, Nat.sub_diag, firstn_all, skipn_app,
        Nat.sub_diag, skipn_all.
      cbn. rewrite !app_nil_r.
      repeat split; auto.
      now rewrite request_ok.
    + set (self1 := set_instrument self
                      (Socket (logged s (Recv (Z.min msgLength 19200) c) rest))).
      destruct (IH (msgLength - Z.of_nat (List.length c)) (acc ++ c) self1
                   (logged s (Recv (Z.min msgLength 19200) c) rest))
        as (s' & cs & Hrun & Hrest & Hcalls & Hchunk & Hrecv);
        [reflexivity | exact Hopen | cbn [inbox logged]; lia | lia |].
      exists s', (Recv (Z.min msgLength 19200) c :: cs).
      cbn [inbox logged calls] in *.
      assert (Hn : Z.to_nat msgLength
                   = (List.length c
                      + Z.to_nat (msgLength - Z.of_nat (List.length c)))%nat)
        by lia.
      rewrite Hrun. subst self1. cbn [set_instrument interfaceType log stdout history].
      rewrite Hn.
      rewrite firstn_app_2, skipn_app_plus.
      split; [now rewrite <- app_assoc|].
      split; [exact Hrest|].
      split; [rewrite Hcalls; now rewrite <- app_assoc|].
      split.
      * cbn [chunked]. now rewrite Hchunk, request_ok.
      * cbn [received]. now rewrite Hrecv.
Qed.

Lemma recv_trace_starved (fuel : nat) :
  forall (msgLength : Z) (acc : bytes) (self : BOSA) (s : socket),
    instrument self = Some (Socket s) -> sock_closed s = false ->
    at_end s = PeerClosed ->
    Z.of_nat (List.length (List.concat (inbox s))) < msgLength ->
    recv_trace fuel msgLength acc self = OutOfFuel.
Proof.
  induction fuel as [|fuel IH]; intros msgLength acc self s Hi Hopen Hend Hlen;
    [reflexivity|].
  cbn [recv_trace]. unfold bind at 1. unfold try_except. unfold bind at 1.
  rewrite recv_request.
  destruct (List.concat (inbox s)) as [|b content] eqn:Hdata.
  - destruct (sock_recv_eof (Z.min msgLength 19200) s) as (rest & Hr & Hrest);
      auto; [cbn in Hlen; lia|].
    rewrite (on_socket_returns _ _ self s _ _ Hi Hr).
    cbn [ret fst snd List.length]. cbn in Hlen.
    destruct (Z.eqb_spec (msgLength - Z.of_nat 0) 0); [lia|].
    eapply IH; [reflexivity | exact Hopen | exact Hend |].
    cbn [inbox logged]. rewrite Hrest. cbn. lia.
  - destruct (sock_recv_data (Z.min msgLength 19200) s)
      as (c & rest & Hr & Hc & Hcl & Hcat); auto;
      [cbn in Hlen; lia | congruence |].
    rewrite (on_socket_returns _ _ self s _ c Hi Hr).
    cbn [ret fst snd].
    rewrite Hdata in Hcat. rewrite Hcat, length_app in Hlen.
    destruct (Z.eqb_spec (msgLength - Z.of_nat (List.length c)) 0); [lia|].
    eapply IH; [reflexivity | exact Hopen | exact Hend |].
    cbn [inbox logged]. lia.
Qed.

(* ------------------------------------------------------------------ *)
(** ** The decoding loop of the binary trace *)

Lemma set_item_middle {A} (pre post : list A) (old new : A) :
  set_item (List.length pre) new (pre ++ old :: post) = pre ++ new :: post.
Proof. induction pre as [|a pre IH]; cbn; [reflexivity | now rewrite IH]. Qed.

Lemma set_cell_middle (k : nat) (pre post : Trace) (row : list cell)
    (col : nat) (v : cell) :
  List.length pre = k ->
  set_cell k col v (pre ++ row :: post) = pre ++ set_item col v row :: post.
Proof.
  intros <-. unfold set_cell. rewrite nth_error_app2, Nat.sub_diag by lia.
  cbn [nth_error]. apply set_item_middle.
Qed.

Lemma slice_length {A} (lo hi : nat) (l : list A) :
  (lo <= hi)%nat -> (hi <= List.length l)%nat ->
  List.length (slice lo hi l) = (hi - lo)%nat.
Proof.
  intros H1 H2. unfold slice. rewrite length_firstn, length_skipn. lia.
Qed.

Section Decoding.

Variable native : byteorder.

Lemma unpack_full (b : bytes) (self : BOSA) :
  List.length b = 8%nat ->
  struct_unpack_d native b self = Return (Tuple1 (float_at native b)) self.
Proof. intros H. unfold struct_unpack_d. now rewrite H. Qed.

Lemma unpack_short (b : bytes) (self : BOSA) :
  List.length b <> 8%nat ->
  struct_unpack_d native b self = Raise StructError self.
Proof.
  intros H. unfold struct_unpack_d.
  destruct (Nat.eqb_spec (List.length b) 8); [contradiction | reflexivity].
Qed.

Lemma fill_trace_rows (buf : bytes) (self : BOSA) (n : nat) :
  forall k : nat,
    ((k + n) * 16 <= List.length buf)%nat ->
    fill_trace native (seq k n) buf
      (map (pair_at native buf) (seq 0 k) ++ repeat [Int0; Int0] n) self
    = Return (map (pair_at native buf) (seq 0 (k + n))) self.
Proof.
  induction n as [|n IH]; intros k Hlen.
  - cbn. now rewrite Nat.add_0_r, app_nil_r.
  - cbn [seq fill_trace repeat]. unfold bind.
    rewrite unpack_full by (rewrite slice_length; lia).
    rewrite unpack_full by (rewrite slice_length; lia).
    assert (Hk : List.length (map (pair_at native buf) (seq 0 k)) = k)
      by now rewrite length_map, length_seq.
    rewrite !(set_cell_middle k) by exact Hk.
    cbn [set_item].
    replace (map (pair_at native buf) (seq 0 k)
             ++ [Tuple1 (float_at native (slice (k * 16) (k * 16 + 8) buf));
                 Tuple1 (float_at native
                           (slice (k * 16 + 8) ((k + 1) * 16) buf))]
                :: repeat [Int0; Int0] n)
      with (map (pair_at native buf) (seq 0 (S k)) ++ repeat [Int0; Int0] n).
    + rewrite IH by lia. now rewrite Nat.add_succ_r.
    + rewrite seq_S, map_app, <- app_assoc. cbn [map app Nat.add].
      unfold pair_at.
      now replace ((k + 1) * 16)%nat with (k * 16 + 16)%nat by lia.
Qed.

End Decoding.

(* ------------------------------------------------------------------ *)
(** ** read_TRACE_REAL on each transport *)

Section BinaryTrace.

Variable native : byteorder.

Lemma read_TRACE_REAL_lan (fuel : nat) (arg : string) (N : nat)
    (self : BOSA) (s : socket) :
  lower (interfaceType self) = "lan"%string ->
  instrument self = Some (Socket s) -> sock_closed s = false ->
  (N * 16 <= List.length (List.concat (inbox s)))%nat ->
  (N * 16 < fuel)%nat ->
  exists self' s' cs,
    read_TRACE_REAL native fuel arg (Z.of_nat N) self
    = Return (map (pair_at native (firstn (N * 16) (List.concat (inbox s))))
                  (seq 0 N)) self'
    /\ instrument self' = Some (Socket s')
    /\ List.concat (inbox s') = skipn (N * 16) (List.concat (inbox s))
    /\ calls s' = calls s ++ cs
    /\ chunked (Z.of_nat N * 16) cs = true
    /\ received cs = firstn (N * 16) (List.concat (inbox s)).
Proof.
  intros Hlan Hi Hopen Hlen Hfuel.
  unfold read_TRACE_REAL. run_as Hlan.
  match goal with
  | |- context [recv_trace fuel ?m [] ?st] =>
    destruct (recv_trace_complete fuel m [] st s)
      as (s' & cs & Hrun & Hrest & Hcalls & Hchunk & Hrecv);
      [exact Hi | exact Hopen | lia | lia |]
  end.
  replace (Z.to_nat (Z.of_nat N * 2 * 8)) with (N * 16)%nat in * by lia.
  replace (Z.of_nat N * 2 * 8) with (Z.of_nat N * 16) in * by lia.
  rewrite Hrun. cbn [app]. rewrite Nat2Z.id.
  change (repeat [Int0; Int0] N)
    with (map (pair_at native (firstn (N * 16) (List.concat (inbox s))))
              (seq 0 0) ++ repeat [Int0; Int0] N).
  rewrite fill_trace_rows.
  - cbn [Nat.add]. eexists _, s', cs. repeat split; eauto.
  - rewrite length_firstn. lia.
Qed.

Lemma read_TRACE_REAL_gpib (fuel : nat) (arg : string) (N : nat)
    (self : BOSA) (v : visa) (buf : bytes) (rs : list reply) :
  lower (interfaceType self) = "gpib"%string ->
  instrument self = Some (Visa v) -> visa_closed v = false ->
  replies v = ReplyBytes buf :: rs ->
  List.length buf = (N * 16)%nat ->
  exists self',
    read_TRACE_REAL native fuel arg (Z.of_nat N) self
    = Return (map (pair_at native buf) (seq 0 N)) self'.
Proof.
  intros Hgpib Hi Hopen Hrep Hlen.
  unfold read_TRACE_REAL, on_visa. run_as Hgpib. rewrite Hi.
  unfold visa_read_bytes, next_reply. rewrite Hopen, Hrep.
  replace (Z.of_nat (List.length buf) =? Z.of_nat N * 2 * 8) with true
    by (symmetry; apply Z.eqb_eq; lia).
  rewrite Nat2Z.id.
  change (repeat [Int0; Int0] N)
    with (map (pair_at native buf) (seq 0 0) ++ repeat [Int0; Int0] N).
  rewrite fill_trace_rows by (cbn [Nat.add]; lia).
  eexists. reflexivity.
Qed.

Lemma read_TRACE_REAL_starved (fuel : nat) (arg : string) (NumPoints : Z)
    (self : BOSA) (s : socket) :
  lower (interfaceType self) = "lan"%string ->
  instrument self = Some (Socket s) -> sock_closed s = false ->
  at_end s = PeerClosed ->
  Z.of_nat (List.length (List.concat (inbox s))) < NumPoints * 16 ->
  read_TRACE_REAL native fuel arg NumPoints self = OutOfFuel.
Proof.
  intros Hlan Hi Hopen Hend Hlen.
  unfold read_TRACE_REAL. run_as Hlan.
  match goal with
  | |- context [recv_trace fuel ?m [] ?st] =>
    rewrite (recv_trace_starved fuel m [] st s); auto; lia
  end.
Qed.

End BinaryTrace.

(* ------------------------------------------------------------------ *)
(** ** A returned trace is never short *)

Lemma bind_returns {A B} (m : M A) (k : A -> M B) (self : BOSA) (b : B)
    (self' : BOSA) :
  bind m k self = Return b self' ->
  exists a self1, m self = Return a self1 /\ k a self1 = Return b self'.
Proof.
  unfold bind. intros H.
  destruct (m self) as [a self1| |]; try discriminate H.
  now exists a, self1.
Qed.

Lemma set_item_length {A} (i : nat) (v : A) (l : list A) :
  List.length (set_item i v l) = List.length l.
Proof.
  revert i. induction l as [|a l IH]; intros [|i]; cbn; auto.
Qed.

Lemma set_cell_length (x col : nat) (v : cell) (t : Trace) :
  List.length (set_cell x col v t) = List.length t.
Proof.
  unfold set_cell. destruct (nth_error t x); [apply set_item_length | auto].
Qed.

Lemma fill_trace_length (native : byteorder) (xs : list nat) :
  forall (buf : bytes) (t : Trace) (self : BOSA) (t' : Trace) (self' : BOSA),
    fill_trace native xs buf t self = Return t' self' ->
    List.length t' = List.length t.
Proof.
  induction xs as [|x xs IH]; intros buf t self t' self' H; cbn [fill_trace] in H.
  - now injection H as <- _.
  - apply bind_returns in H as (v0 & s0 & _ & H).
    apply bind_returns in H as (v1 & s1 & _ & H).
    apply IH in H. now rewrite H, !set_cell_length.
Qed.

Lemma slice_length_min {A} (lo hi : nat) (l : list A) :
  List.length (slice lo hi l) = Nat.min (hi - lo) (List.length l - lo).
Proof. unfold slice. now rewrite length_firstn, length_skipn. Qed.

(** The decoding loop on a buffer that ends before the last point does:
    [struct.unpack] raises on the first slice that is not eight bytes. *)
Lemma fill_trace_short (native : byteorder) (buf : bytes) (n : nat) :
  forall (k : nat) (t : Trace) (self : BOSA),
    (k * 16 <= List.length buf < (k + n) * 16)%nat ->
    fill_trace native (seq k n) buf t self = Raise StructError self.
Proof.
  induction n as [|n IH]; intros k t self Hlen; [lia|].
  cbn [seq fill_trace]. unfold bind.
  destruct (Nat.le_gt_cases (k * 16 + 8) (List.length buf)) as [H8 | H8].
  - rewrite unpack_full by (rewrite slice_length_min; lia).
    destruct (Nat.le_gt_cases ((k + 1) * 16) (List.length buf)) as [H16 | H16].
    + rewrite unpack_full by (rewrite slice_length_min; lia).
      apply IH. lia.
    + now rewrite unpack_short by (rewrite slice_length_min; lia).
  - now rewrite unpack_short by (rewrite slice_length_min; lia).
Qed.

Lemma read_TRACE_REAL_never_partial (native : byteorder) (fuel : nat)
    (arg : string) (NumPoints : Z) (self : BOSA) (t : Trace) (self' : BOSA) :
  read_TRACE_REAL native fuel arg NumPoints self = Return t self' ->
  List.length t = Z.to_nat NumPoints.
Proof.
  unfold read_TRACE_REAL. intros H.
  apply bind_returns in H as (? & ? & _ & H).
  apply bind_returns in H as (? & ? & _ & H).
  apply bind_returns in H as (? & ? & _ & H).
  apply bind_returns in H as (? & ? & _ & H).
  apply fill_trace_length in H. now rewrite H, repeat_length.
Qed.

(* ------------------------------------------------------------------ *)
(** ** Text on the wire *)

Lemma decode_ascii (bs : bytes) :
  ascii_bytes bs -> decode bs = Some (map byte_val bs).
Proof.
  induction 1 as [|b bs Hb _ IH]; [reflexivity|].
  cbn [decode map].
  destruct (Z.ltb_spec (byte_val b) 128); [|lia].
  now rewrite IH.
Qed.

Lemma encode_is_ascii (t : str) :
  is_ascii t ->
  encode t = Some (wire_bytes t) /\ encode_ascii t = Some (wire_bytes t).
Proof.
  induction 1 as [|c t Hc _ [IH1 IH2]]; [now split|].
  cbn [encode encode_ascii wire_bytes map]. unfold encode_char.
  destruct (Z.ltb_spec c 0); [lia|].
  destruct (Z.ltb_spec c 128); [|lia].
  destruct (Z.leb_spec 0 c); [|lia].
  cbn [andb]. now rewrite IH1, IH2.
Qed.

(** The codec on characters of one, two, three and four bytes, and on a
    lone surrogate. *)
Example codec_samples :
  decode [x41; xc3; xa9; xe2; x82; xac; xf0; x9f; x98; x80]
  = Some [65; 233; 8364; 128512]
  /\ encode [65; 233; 8364; 128512]
     = Some [x41; xc3; xa9; xe2; x82; xac; xf0; x9f; x98; x80]
  /\ decode [xed; xa0; x80] = None
  /\ encode [55296] = None
  /\ decode [xc0; x80] = None.
Proof. repeat split. Qed.

(** 1.0, 2.0 and minus infinity as doubles. *)
Example float_samples :
  float_at LittleEndian one_le = S754_finite false 4503599627370496 (-52)
  /\ float_at BigEndian (rev two_le)
     = S754_finite false 4503599627370496 (-51)
  /\ float_at LittleEndian [x00; x00; x00; x00; x00; x00; xf0; xff]
     = S754_infinity true.
Proof. repeat split. Qed.

Lemma contains_app (c : Z) (s t : str) :
  contains c (s ++ t) = contains c s || contains c t.
Proof. apply existsb_app. Qed.

Lemma take_chunk_whole (f : bytes) (rest : list bytes) :
  whole f -> take_chunk (Z.to_nat 115200) (f :: rest) = (f, rest).
Proof.
  intros [Hne Hlen]. destruct f as [|b f]; [congruence|].
  cbn [take_chunk].
  rewrite firstn_all2, skipn_all2 by lia. reflexivity.
Qed.

Lemma sock_recv_whole (s : socket) (f : bytes) (rest : list bytes) :
  sock_closed s = false -> inbox s = f :: rest -> whole f ->
  sock_recv 115200 s = (inr f, logged s (Recv 115200 f) rest).
Proof.
  intros Hopen Hin Hw. unfold sock_recv. rewrite Hopen, Hin.
  change (115200 <? 0) with false. change (115200 =? 0) with false.
  cbv iota.
  rewrite take_chunk_whole by exact Hw.
  destruct Hw as [Hne _]. destruct f; [congruence | reflexivity].
Qed.

(** The LAN loop of [read] over fragments that arrive whole: it consumes
    fragments up to and including the first one whose text brings a newline
    into the accumulator, and returns everything accumulated. *)
Lemma read_lan_fragments (pre : list bytes) :
  forall (fuel : nat) (acc : str) (self : BOSA) (s : socket)
         (last : bytes) (post : list bytes) (tp tl : str),
    instrument self = Some (Socket s) -> sock_closed s = false ->
    inbox s = pre ++ last :: post ->
    Forall whole (pre ++ [last]) ->
    decode_all pre = Some tp -> decode last = Some tl ->
    contains NL (acc ++ tp) = false -> contains NL tl = true ->
    (List.length pre < fuel)%nat ->
    exists s',
      read_lan fuel acc self
      = Return (acc ++ tp ++ tl) (set_instrument self (Socket s'))
      /\ inbox s' = post
      /\ calls s' = calls s ++ map (Recv 115200) (pre ++ [last])
      /\ sock_closed s' = false.
Proof.
  induction pre as [|f pre IH];
    intros fuel acc self s last post tp tl Hi Hopen Hin Hw Hdp Hdl Hacc Hnl Hfuel;
    (destruct fuel as [|fuel]; [cbn in Hfuel; lia|]);
    cbn [read_lan]; unfold bind at 1; unfold try_except; unfold bind at 1.
  - cbn [app] in *. inversion Hw as [|? ? Hwl _]; subst.
    injection Hdp as <-. rewrite app_nil_r in Hacc.
    rewrite (on_socket_returns _ _ self s _ _ Hi
               (sock_recv_whole s last post Hopen Hin Hwl)).
    unfold bind, decoded. rewrite Hdl. cbn [ret].
    rewrite contains_app, Hacc, Hnl. cbn [orb app].
    eexists. repeat split. exact Hopen.
  - cbn [app] in *. inversion Hw as [|? ? Hwf Hw']; subst.
    cbn [decode_all] in Hdp.
    destruct (decode f) as [tf|] eqn:Hdf; [|discriminate].
    destruct (decode_all pre) as [tp'|] eqn:Hdp'; [|discriminate].
    injection Hdp as <-.
    rewrite (on_socket_returns _ _ self s _ _ Hi
               (sock_recv_whole s f (pre ++ last :: post) Hopen Hin Hwf)).
    unfold bind at 1. unfold decoded. rewrite Hdf. cbn [ret bind].
    rewrite app_assoc in Hacc.
    assert (Hf : contains NL (acc ++ tf) = false).
    { rewrite contains_app in Hacc. now apply orb_false_elim in Hacc. }
    rewrite Hf.
    destruct (IH fuel (acc ++ tf)
                (set_instrument self
                   (Socket (logged s (Recv 115200 f) (pre ++ last :: post))))
                (logged s (Recv 115200 f) (pre ++ last :: post))
                last post tp' tl)
      as (s' & Hrun & Hin' & Hcalls & Hopen'); auto.
    { cbn in Hfuel. lia. }
    exists s'. cbn [set_instrument interfaceType log stdout history] in Hrun.
    rewrite Hrun. cbn [calls logged] in Hcalls.
    rewrite <- !app_assoc in *. cbn [map app] in *.
    repeat split; auto.
Qed.

Lemma app_eq_snoc {A} (c r body : list A) (z : A) :
  c ++ r = body ++ [z] ->
  (r = [] /\ c = body ++ [z]) \/ (exists r', r = r' ++ [z] /\ body = c ++ r').
Proof.
  intros H. destruct r as [|a r] using rev_ind.
  - left. now rewrite app_nil_r in H.
  - right. rewrite app_assoc in H. apply app_inj_tail in H as [H ->].
    exists r. now split.
Qed.

Lemma ascii_bytes_app (a b : bytes) :
  ascii_bytes (a ++ b) -> ascii_bytes a /\ ascii_bytes b.
Proof. apply Forall_app. Qed.

(** The LAN loop of [read] over a stream of one-byte characters whose only
    newline is its last byte, however the stream is cut into fragments. *)
Lemma read_lan_ascii (fuel : nat) :
  forall (acc : str) (self : BOSA) (s : socket) (body : bytes),
    instrument self = Some (Socket s) -> sock_closed s = false ->
    List.concat (inbox s) = body ++ [x0a] ->
    ascii_bytes body ->
    contains NL (map byte_val body) = false ->
    contains NL acc = false ->
    (List.length body < fuel)%nat ->
    exists s',
      read_lan fuel acc self
      = Return (acc ++ map byte_val (body ++ [x0a]))
               (set_instrument self (Socket s'))
      /\ List.concat (inbox s') = [].
Proof.
  induction fuel as [|fuel IH];
    intros acc self s body Hi Hopen Hin Hascii Hbody Hacc Hfuel; [lia|].
  cbn [read_lan]. unfold bind at 1. unfold try_except. unfold bind at 1.
  destruct (sock_recv_data 115200 s) as (c & rest & Hr & Hc & _ & Hcat);
    auto; [lia | rewrite Hin; now destruct body |].
  rewrite (on_socket_returns _ _ self s _ c Hi Hr).
  rewrite Hin in Hcat. symmetry in Hcat.
  destruct (app_eq_snoc _ _ _ _ Hcat) as [[Hrest ->] | (r' & Hrest & ->)].
  - (* the chunk is all that was left *)
    unfold bind, decoded. rewrite decode_ascii.
    + cbn [ret]. rewrite contains_app, map_app, contains_app.
      cbn [map]. change (contains NL [byte_val x0a]) with true.
      rewrite !orb_true_r.
      eexists. split; [reflexivity|]. exact Hrest.
    + apply Forall_app. split; [exact Hascii|].
      constructor; [|constructor]. vm_compute. reflexivity.
  - (* the chunk stops short of the newline *)
    apply ascii_bytes_app in Hascii as [Hac Har].
    rewrite map_app, contains_app in Hbody.
    apply orb_false_elim in Hbody as [Hbc Hbr].
    unfold bind at 1. unfold decoded. rewrite (decode_ascii c Hac).
    cbn [ret bind]. rewrite contains_app, Hacc, Hbc. cbn [orb].
    destruct (IH (acc ++ map byte_val c)
                (set_instrument self (Socket (logged s (Recv 115200 c) rest)))
                (logged s (Recv 115200 c) rest) r')
      as (s' & Hrun & Hleft); auto.
    { now rewrite contains_app, Hacc, Hbc. }
    { rewrite length_app in Hfuel.
      destruct c; [congruence | cbn in Hfuel; lia]. }
    exists s'. cbn [set_instrument interfaceType log stdout history] in Hrun.
    rewrite Hrun. split; [|exact Hleft].
    now rewrite !map_app, <- !app_assoc.
Qed.

Lemma write_lan (command : str) (self : BOSA) (s : socket) (data : bytes) :
  lower (interfaceType self) = "lan"%string ->
  instrument self = Some (Socket s) -> sock_closed s = false ->
  send_fault s = None -> encode (command ++ CRLF) = Some data ->
  write command self
  = Return tt
      {| interfaceType := interfaceType self;
         instrument := Some (Socket (logged s (Sendall data) (inbox s)));
         log := log self ++ [(DEBUG, lit "Sending command '" ++ command
                                     ++ lit "' using LAN interface...")];
         stdout := stdout self;
         history := history self ++ [OpWrite command] |}.
Proof.
  intros Hlan Hi Hopen Hfault Henc.
  unfold write, encoded, on_socket, sock_sendall. run_as Hlan.
  rewrite Henc. run. rewrite Hi. cbv beta iota. now rewrite Hopen, Hfault.
Qed.

Lemma write_gpib (command : str) (self : BOSA) (v : visa) (data : bytes) :
  lower (interfaceType self) = "gpib"%string ->
  instrument self = Some (Visa v) -> visa_closed v = false ->
  write_fault v = None ->
  encode_ascii (command ++ write_termination v) = Some data ->
  write command self
  = Return tt
      {| interfaceType := interfaceType self;
         instrument :=
           Some (Visa {| write_termination := write_termination v;
                         replies := replies v; write_fault := write_fault v;
                         visa_close_fault := visa_close_fault v;
                         visa_closed := visa_closed v;
                         written := written v ++ [data] |});
         log := log self ++ [(DEBUG, lit "Sending command '" ++ command
                                     ++ lit "' using GPIB interface...")];
         stdout := stdout self;
         history := history self ++ [OpWrite command] |}.
Proof.
  intros Hgpib Hi Hopen Hfault Henc.
  unfold write, on_visa, visa_write. run_as Hgpib.
  rewrite Hi. cbv beta iota. now rewrite Hopen, Hfault, Henc.
Qed.

Lemma read_fragments (fuel : nat) (self : BOSA) (s : socket)
    (pre : list bytes) (last : bytes) (post : list bytes) (tp tl : str) :
  lower (interfaceType self) = "lan"%string ->
  instrument self = Some (Socket s) -> sock_closed s = false ->
  inbox s = pre ++ last :: post ->
  Forall whole (pre ++ [last]) ->
  decode_all pre = Some tp -> decode last = Some tl ->
  contains NL tp = false -> contains NL tl = true ->
  (List.length pre < fuel)%nat ->
  exists self' s',
    read fuel self = Return (tp ++ tl) self'
    /\ instrument self' = Some (Socket s')
    /\ inbox s' = post
    /\ calls s' = calls s ++ map (Recv 115200) (pre ++ [last]).
Proof.
  intros Hlan Hi Hopen Hin Hw Hdp Hdl Htp Htl Hfuel.
  unfold read. run_as Hlan.
  match goal with
  | |- context [read_lan fuel [] ?st] =>
    destruct (read_lan_fragments pre fuel [] st s last post tp tl)
      as (s' & Hrun & Hin' & Hcalls & _); auto
  end.
  rewrite Hrun. cbn [app]. run.
  eexists _, s'. repeat split; auto.
Qed.

Lemma read_ascii_stream (fuel : nat) (self : BOSA) (s : socket) (body : bytes) :
  lower (interfaceType self) = "lan"%string ->
  instrument self = Some (Socket s) -> sock_closed s = false ->
  List.concat (inbox s) = body ++ [x0a] ->
  ascii_bytes body ->
  contains NL (map byte_val body) = false ->
  (List.length body < fuel)%nat ->
  exists self', read fuel self = Return (map byte_val (body ++ [x0a])) self'.
Proof.
  intros Hlan Hi Hopen Hin Hascii Hbody Hfuel.
  unfold read. run_as Hlan.
  match goal with
  | |- context [read_lan fuel [] ?st] =>
    destruct (read_lan_ascii fuel [] st s body) as (s' & Hrun & _); auto
  end.
  rewrite Hrun. cbn [app]. run. eexists. reflexivity.
Qed.

(* ------------------------------------------------------------------ *)
(** ** The calls a method makes *)

Section Appends.

Context {A B : Type}.

Lemma appends_ret (a : A) : appends [] (ret a).
Proof. intros self a' self' H. injection H as _ <-. now rewrite app_nil_r. Qed.

Lemma appends_raise (evs : list op) (e : exn) : appends evs (@raise A e).
Proof. intros self a self' H. discriminate H. Qed.

Lemma appends_diverge (evs : list op) : appends evs (@diverge A).
Proof. intros self a self' H. discriminate H. Qed.

Lemma appends_bind (e1 e2 : list op) (m : M A) (k : A -> M B) :
  appends e1 m -> (forall a, appends e2 (k a)) -> appends (e1 ++ e2) (bind m k).
Proof.
  intros Hm Hk self b self' H. unfold bind in H.
  destruct (m self) as [a self1 | |] eqn:E; try discriminate.
  rewrite (Hk a _ _ _ H), (Hm _ _ _ E). now rewrite app_assoc.
Qed.

Lemma appends_try (evs : list op) (m : M A) (h : exn -> M A) :
  appends evs m -> (forall e self a self', h e self <> Return a self') ->
  appends evs (try_except m h).
Proof.
  intros Hm Hh self a self' H. unfold try_except in H.
  destruct (m self) as [a1 self1 | e self1 |] eqn:E; try discriminate.
  - injection H as <- <-. eapply Hm, E.
  - now apply Hh in H.
Qed.

Lemma appends_if (evs : list op) (b : bool) (m1 m2 : M A) :
  appends evs m1 -> appends evs m2 -> appends evs (if b then m1 else m2).
Proof. now destruct b. Qed.

Lemma appends_on_socket (method : string) (f : socket -> (exn + A) * socket) :
  appends [] (on_socket method f).
Proof.
  intros self a self' H. unfold on_socket in H.
  destruct (instrument self) as [[s|v]|]; try discriminate.
  destruct (f s) as [[e|a'] s']; try discriminate.
  injection H as _ <-. cbn. now rewrite app_nil_r.
Qed.

Lemma appends_on_visa (method : string) (f : visa -> (exn + A) * visa) :
  appends [] (on_visa method f).
Proof.
  intros self a self' H. unfold on_visa in H.
  destruct (instrument self) as [[s|v]|]; try discriminate.
  destruct (f v) as [[e|a'] v']; try discriminate.
  injection H as _ <-. cbn. now rewrite app_nil_r.
Qed.

End Appends.

Lemma reraise_never_returns {A} (msg : string) (e : exn) (self : BOSA)
    (a : A) (self' : BOSA) :
  reraise msg e self <> Return a self'.
Proof. unfold reraise. run. discriminate. Qed.

Lemma appends_log (l : level) (msg : str) : appends [] (log_msg l msg).
Proof. intros self a self' H. injection H as _ <-. cbn. now rewrite app_nil_r. Qed.

Lemma appends_print (o : output) : appends [] (print o).
Proof. intros self a self' H. injection H as _ <-. cbn. now rewrite app_nil_r. Qed.

Lemma appends_note (o : op) : appends [o] (note o).
Proof. intros self a self' H. now injection H as _ <-. Qed.

Lemma appends_kind_is (name : string) : appends [] (kind_is name).
Proof. intros self a self' H. injection H as _ <-. now rewrite app_nil_r. Qed.

Lemma appends_encoded (s : str) : appends [] (encoded s).
Proof.
  unfold encoded. destruct (encode s); [apply appends_ret | apply appends_raise].
Qed.

Lemma appends_decoded (b : bytes) : appends [] (decoded b).
Proof.
  unfold decoded. destruct (decode b); [apply appends_ret | apply appends_raise].
Qed.

Create HintDb calls.
#[local] Hint Resolve appends_ret appends_raise appends_diverge appends_on_socket
  appends_on_visa appends_log appends_print appends_kind_is appends_encoded
  appends_decoded reraise_never_returns : calls.

(** [m ;; k] where [m] makes no transport-level call. *)
Ltac quiet_bind := apply (appends_bind [] _); [auto with calls | intros ?].

Lemma appends_write (command : str) : appends [OpWrite command] (write command).
Proof.
  unfold write.
  apply (appends_bind [OpWrite command] []); [apply appends_note | intros _].
  quiet_bind. apply appends_if.
  - quiet_bind. apply appends_try; auto with calls.
    quiet_bind. auto with calls.
  - quiet_bind. apply appends_if; auto with calls.
    quiet_bind. apply appends_try; auto with calls.
Qed.

Lemma appends_read_lan (fuel : nat) :
  forall message, appends [] (read_lan fuel message).
Proof.
  induction fuel as [|fuel IH]; intros message; cbn [read_lan];
    [apply appends_diverge|].
  quiet_bind.
  - apply appends_try; auto with calls.
    quiet_bind. quiet_bind. auto with calls.
  - apply appends_if; auto with calls.
Qed.

Lemma appends_read_gpib (fuel : nat) : appends [] (read_gpib fuel).
Proof.
  induction fuel as [|fuel IH]; cbn [read_gpib]; [apply appends_diverge|].
  quiet_bind.
  - apply appends_try; auto with calls.
  - destruct a; auto with calls.
Qed.

Lemma appends_read (fuel : nat) : appends [OpRead] (read fuel).
Proof.
  unfold read.
  apply (appends_bind [OpRead] []); [apply appends_note | intros _].
  quiet_bind. quiet_bind.
  - apply appends_if.
    + quiet_bind. quiet_bind; [apply appends_read_lan|].
      quiet_bind. auto with calls.
    + quiet_bind. apply appends_if; auto with calls.
      quiet_bind. quiet_bind; [apply appends_read_gpib|].
      quiet_bind. auto with calls.
  - quiet_bind. auto with calls.
Qed.

Lemma appends_recv_trace (fuel : nat) :
  forall msgLength acc, appends [] (recv_trace fuel msgLength acc).
Proof.
  induction fuel as [|fuel IH]; intros msgLength acc; cbn [recv_trace];
    [apply appends_diverge|].
  quiet_bind.
  - apply appends_try; auto with calls.
    quiet_bind; [apply appends_if; auto with calls|]. auto with calls.
  - apply appends_if; auto with calls.
Qed.

Lemma appends_fill_trace (native : byteorder) (xs : list nat) :
  forall buf t, appends [] (fill_trace native xs buf t).
Proof.
  induction xs as [|x xs IH]; intros buf t; cbn [fill_trace];
    [apply appends_ret|].
  assert (Hu : forall b, appends [] (struct_unpack_d native b)).
  { intros b. unfold struct_unpack_d.
    destruct (Nat.eqb _ _); auto with calls. }
  apply (appends_bind [] []); [apply Hu | intros ?].
  apply (appends_bind [] []); [apply Hu | intros ?]. apply IH.
Qed.

Lemma appends_read_TRACE_REAL (native : byteorder) (fuel : nat) (arg : string)
    (NumPoints : Z) :
  appends [OpReadTraceReal] (read_TRACE_REAL native fuel arg NumPoints).
Proof.
  unfold read_TRACE_REAL.
  apply (appends_bind [OpReadTraceReal] []); [apply appends_note | intros _].
  quiet_bind. quiet_bind. quiet_bind.
  - apply appends_if; [apply appends_recv_trace|].
    quiet_bind. apply appends_if; auto with calls.
    apply appends_try; auto with calls.
  - apply appends_fill_trace.
Qed.

Lemma appends_read_TRACE_ASCII : appends [OpReadTraceAscii] read_TRACE_ASCII.
Proof.
  unfold read_TRACE_ASCII.
  apply (appends_bind [OpReadTraceAscii] []); [apply appends_note | intros _].
  quiet_bind. apply appends_try; auto with calls.
Qed.

(* ------------------------------------------------------------------ *)
(** ** The handle stays of its kind *)

Section Kinds.

Context {A B : Type}.

Lemma keeps_ret (a : A) : keeps_kind (ret a).
Proof. intros self a' self' H. now injection H as _ <-. Qed.

Lemma keeps_raise (e : exn) : keeps_kind (@raise A e).
Proof. intros self a self' H. discriminate H. Qed.

Lemma keeps_bind (m : M A) (k : A -> M B) :
  keeps_kind m -> (forall a, keeps_kind (k a)) -> keeps_kind (bind m k).
Proof.
  intros Hm Hk self b self' H. unfold bind in H.
  destruct (m self) as [a self1 | |] eqn:E; try discriminate.
  now rewrite (Hk a _ _ _ H), (Hm _ _ _ E).
Qed.

Lemma keeps_try (m : M A) (h : exn -> M A) :
  keeps_kind m -> (forall e self a self', h e self <> Return a self') ->
  keeps_kind (try_except m h).
Proof.
  intros Hm Hh self a self' H. unfold try_except in H.
  destruct (m self) as [a1 self1 | e self1 |] eqn:E; try discriminate.
  - injection H as <- <-. eapply Hm, E.
  - now apply Hh in H.
Qed.

Lemma keeps_if (b : bool) (m1 m2 : M A) :
  keeps_kind m1 -> keeps_kind m2 -> keeps_kind (if b then m1 else m2).
Proof. now destruct b. Qed.

Lemma keeps_on_socket (method : string) (f : socket -> (exn + A) * socket) :
  keeps_kind (on_socket method f).
Proof.
  intros self a self' H. unfold on_socket in H. unfold kind_of.
  destruct (instrument self) as [[s|v]|]; try discriminate.
  destruct (f s) as [[e|a'] s']; try discriminate.
  now injection H as _ <-.
Qed.

Lemma keeps_on_visa (method : string) (f : visa -> (exn + A) * visa) :
  keeps_kind (on_visa method f).
Proof.
  intros self a self' H. unfold on_visa in H. unfold kind_of.
  destruct (instrument self) as [[s|v]|]; try discriminate.
  destruct (f v) as [[e|a'] v']; try discriminate.
  now injection H as _ <-.
Qed.

End Kinds.

Lemma keeps_log (l : level) (msg : str) : keeps_kind (log_msg l msg).
Proof. intros self a self' H. now injection H as _ <-. Qed.

Lemma keeps_note (o : op) : keeps_kind (note o).
Proof. intros self a self' H. now injection H as _ <-. Qed.

Lemma keeps_kind_is (name : string) : keeps_kind (kind_is name).
Proof. intros self a self' H. now injection H as _ <-. Qed.

Lemma keeps_encoded (s : str) : keeps_kind (encoded s).
Proof.
  unfold encoded. destruct (encode s); [apply keeps_ret | apply keeps_raise].
Qed.

#[local] Hint Resolve keeps_ret keeps_raise keeps_on_socket keeps_on_visa
  keeps_log keeps_note keeps_kind_is keeps_encoded reraise_never_returns
  : calls.

Lemma write_kind (command : str) : keeps_kind (write command).
Proof.
  unfold write.
  repeat first [ apply keeps_bind; [auto with calls | intros ?]
               | apply keeps_if
               | apply keeps_try
               | solve [auto with calls] ].
Qed.

Lemma read_TRACE_ASCII_kind (self : BOSA) (vs : list float64) (self' : BOSA) :
  read_TRACE_ASCII self = Return vs self' -> kind_of self = VisaHandle.
Proof.
  unfold read_TRACE_ASCII, on_visa, kind_of. run. intros H.
  destruct (instrument self) as [[s|v]|]; try discriminate H. reflexivity.
Qed.

Lemma read_TRACE_ASCII_on_socket (self : BOSA) (s : socket) :
  instrument self = Some (Socket s) ->
  read_TRACE_ASCII self
  = Raise (AttributeError "read_ascii_values")
      {| interfaceType := interfaceType self; instrument := instrument self;
         log := log self
                ++ [(DEBUG, lit "Reading data using GPIB interface...");
                    (ERROR, lit "Could not read data")];
         stdout := stdout self
                   ++ [ExnLine (AttributeError "read_ascii_values")];
         history := history self ++ [OpReadTraceAscii] |}.
Proof.
  intros Hi. unfold read_TRACE_ASCII, on_visa. run. rewrite Hi.
  run. now rewrite <- app_assoc.
Qed.

Lemma ask_TRACE_ASCII_kind (self : BOSA) (vs : list float64) (self' : BOSA) :
  ask_TRACE_ASCII self = Return vs self' -> kind_of self = VisaHandle.
Proof.
  unfold ask_TRACE_ASCII, bind. intros H.
  destruct (write (lit "FORM ASCII") self) as [a1 s1| |] eqn:E1;
    try discriminate H.
  destruct (write (lit "TRAC?") s1) as [a2 s2| |] eqn:E2; try discriminate H.
  destruct (read_TRACE_ASCII s2) as [vs' s3| |] eqn:E3; try discriminate H.
  apply read_TRACE_ASCII_kind in E3.
  apply write_kind in E1, E2. congruence.
Qed.

(* ------------------------------------------------------------------ *)
(** ** Binary trace: what is decoded, and how it is received *)

Lemma nth_error_map_seq {A} (f : nat -> A) (n i : nat) :
  (i < n)%nat -> nth_error (map f (seq 0 n)) i = Some (f i).
Proof.
  intros H. rewrite nth_error_map, nth_error_seq.
  destruct (Nat.ltb_spec i n); [reflexivity | lia].
Qed.

(** C1.  For every point count [N], when the connection receives a buffer of
    exactly [N*16] bytes (over the socket in any fragments, or from the bus),
    [read_TRACE_REAL] returns a trace of exactly [N] rows, and row [i] holds
    the two doubles decoded from bytes [i*16, i*16+8) and [i*16+8, i*16+16)
    of the buffer, each as [struct.unpack] returns it. *)
Theorem read_TRACE_REAL_decodes_pairs :
  forall (native : byteorder) (N : nat) (buf : bytes) (self : BOSA)
         (fuel : nat) (arg : string),
    receives self buf ->
    List.length buf = (N * 16)%nat ->
    (N * 16 < fuel)%nat ->
    exists t self',
      read_TRACE_REAL native fuel arg (Z.of_nat N) self = Return t self'
      /\ List.length t = N
      /\ forall i, (i < N)%nat -> nth_error t i = Some (pair_at native buf i).
Proof.
  intros native N buf self fuel arg Hrecv Hlen Hfuel.
  destruct Hrecv as [(Hlan & s & Hi & Hopen & Hbuf)
                    | (Hgpib & v & rs & Hi & Hopen & Hrep)].
  - destruct (read_TRACE_REAL_lan native fuel arg N self s)
      as (self' & s' & cs & Hrun & _); auto; try (rewrite Hbuf; lia).
    rewrite Hbuf, <- Hlen, firstn_all in Hrun.
    exists (map (pair_at native buf) (seq 0 N)), self'.
    split; [exact Hrun|]. split.
    + now rewrite length_map, length_seq.
    + intros i Hi'. now apply nth_error_map_seq.
  - destruct (read_TRACE_REAL_gpib native fuel arg N self v buf rs)
      as (self' & Hrun); auto.
    exists (map (pair_at native buf) (seq 0 N)), self'.
    split; [exact Hrun|]. split.
    + now rewrite length_map, length_seq.
    + intros i Hi'. now apply nth_error_map_seq.
Qed.

Lemma read_TRACE_REAL_decodes_pairs_witness :
  exists t self',
    read_TRACE_REAL LittleEndian 17 "LAN" (Z.of_nat 1)
      (lan_object [one_le; two_le] Silent) = Return t self'
    /\ List.length t = 1%nat
    /\ forall i, (i < 1)%nat ->
         nth_error t i = Some (pair_at LittleEndian (one_le ++ two_le) i).
Proof.
  apply (read_TRACE_REAL_decodes_pairs LittleEndian 1 (one_le ++ two_le)
           (lan_object [one_le; two_le] Silent) 17 "LAN").
  - left. split; [reflexivity|].
    exists (open_socket [one_le; two_le] Silent). repeat split.
  - reflexivity.
  - cbn. lia.
Defined.

(** The scenario of the specification: five points, delivered in fragments
    of 30, 30 and 20 bytes. *)
Example five_points_in_three_fragments :
  let payload := one_le ++ two_le ++ two_le ++ one_le ++ one_le ++ one_le
                 ++ two_le ++ two_le ++ one_le ++ two_le in
  let f1 := S754_finite false 4503599627370496 (-52) in
  let f2 := S754_finite false 4503599627370496 (-51) in
  exists self',
    read_TRACE_REAL LittleEndian 100 "LAN" 5
      (lan_object [firstn 30 payload; firstn 30 (skipn 30 payload);
                   skipn 60 payload] Silent)
    = Return [[Tuple1 f1; Tuple1 f2]; [Tuple1 f2; Tuple1 f1];
              [Tuple1 f1; Tuple1 f1]; [Tuple1 f2; Tuple1 f2];
              [Tuple1 f1; Tuple1 f2]] self'.
Proof. eexists. vm_compute. reflexivity. Qed.

(** C5.  On a socket, [read_TRACE_REAL] asks [recv] for the bytes still
    missing when fewer than 19200 are, and for 19200 otherwise, so never for
    more than 19200; the chunks it was given, joined in order, are the first
    [NumPoints*16] bytes of the stream, and so is the buffer its receive
    loop has accumulated when it ends; the trace returned is decoded from
    that buffer, and the rest of the stream is left unread. *)
Theorem read_TRACE_REAL_chunks :
  forall (native : byteorder) (N : nat) (self : BOSA) (s : socket)
         (fuel : nat) (arg : string),
    lower (interfaceType self) = "lan"%string ->
    instrument self = Some (Socket s) -> sock_closed s = false ->
    (N * 16 <= List.length (List.concat (inbox s)))%nat ->
    (N * 16 < fuel)%nat ->
    exists t self' s' cs,
      read_TRACE_REAL native fuel arg (Z.of_nat N) self = Return t self'
      /\ instrument self' = Some (Socket s')
      /\ calls s' = calls s ++ cs
      /\ chunked (Z.of_nat N * 16) cs = true
      /\ received cs = firstn (N * 16) (List.concat (inbox s))
      /\ List.concat (inbox s') = skipn (N * 16) (List.concat (inbox s))
      /\ (exists self1,
             recv_trace fuel (Z.of_nat N * 2 * 8) [] self
             = Return (firstn (N * 16) (List.concat (inbox s))) self1)
      /\ t = map (pair_at native (firstn (N * 16) (List.concat (inbox s))))
                 (seq 0 N).
Proof.
  intros native N self s fuel arg Hlan Hi Hopen Hlen Hfuel.
  destruct (read_TRACE_REAL_lan native fuel arg N self s)
    as (self' & s' & cs & Hrun & Hi' & Hrest & Hcalls & Hchunk & Hrecv); auto.
  eexists _, self', s', cs.
  split; [exact Hrun|]. do 5 (split; [assumption|]).
  split; [|reflexivity].
  destruct (recv_trace_complete fuel (Z.of_nat N * 2 * 8) [] self s)
    as (s1 & cs1 & Hloop & _); [exact Hi | exact Hopen | lia | lia |].
  replace (Z.to_nat (Z.of_nat N * 2 * 8)) with (N * 16)%nat in Hloop by lia.
  eexists. exact Hloop.
Qed.

Lemma read_TRACE_REAL_chunks_witness :
  exists t self' s' cs,
    read_TRACE_REAL LittleEndian 17 "LAN" (Z.of_nat 1)
      (lan_object [one_le; two_le ++ one_le] Silent) = Return t self'
    /\ instrument self' = Some (Socket s')
    /\ calls s' = [] ++ cs
    /\ chunked (Z.of_nat 1 * 16) cs = true
    /\ received cs = firstn (1 * 16) (one_le ++ (two_le ++ one_le) ++ [])
    /\ List.concat (inbox s')
       = skipn (1 * 16) (one_le ++ (two_le ++ one_le) ++ [])
    /\ (exists self1,
           recv_trace 17 (Z.of_nat 1 * 2 * 8) []
             (lan_object [one_le; two_le ++ one_le] Silent)
           = Return (firstn (1 * 16) (one_le ++ (two_le ++ one_le) ++ []))
                    self1)
    /\ t = map (pair_at LittleEndian
                  (firstn (1 * 16) (one_le ++ (two_le ++ one_le) ++ [])))
               (seq 0 1).
Proof.
  apply (read_TRACE_REAL_chunks LittleEndian 1
           (lan_object [one_le; two_le ++ one_le] Silent)
           (open_socket [one_le; two_le ++ one_le] Silent) 17 "LAN").
  - reflexivity.
  - reflexivity.
  - reflexivity.
  - cbn. lia.
  - cbn. lia.
Defined.

(** C2.  When the peer closes the socket after delivering fewer than
    [NumPoints*16] bytes, [read_TRACE_REAL] neither raises nor returns: every
    further [recv] yields the empty bytes object at once, the count of
    missing bytes stays above zero, and the loop goes round for as long as it
    is run. *)
Theorem read_TRACE_REAL_spins_after_close :
  forall (native : byteorder) (NumPoints : Z) (self : BOSA) (s : socket)
         (fuel : nat) (arg : string),
    lower (interfaceType self) = "lan"%string ->
    instrument self = Some (Socket s) -> sock_closed s = false ->
    at_end s = PeerClosed ->
    Z.of_nat (List.length (List.concat (inbox s))) < NumPoints * 16 ->
    read_TRACE_REAL native fuel arg NumPoints self = OutOfFuel.
Proof.
  intros. now apply read_TRACE_REAL_starved with (s := s).
Qed.

Lemma read_TRACE_REAL_spins_after_close_witness :
  read_TRACE_REAL LittleEndian 1000 "LAN" 1 (lan_object [one_le] PeerClosed)
  = OutOfFuel.
Proof.
  apply (read_TRACE_REAL_spins_after_close LittleEndian 1
           (lan_object [one_le] PeerClosed) (open_socket [one_le] PeerClosed)
           1000 "LAN"); reflexivity.
Defined.

(** A silent peer, by contrast, makes [recv] time out, and that exception is
    re-raised to the caller. *)
Example read_TRACE_REAL_times_out :
  exists self',
    read_TRACE_REAL LittleEndian 10 "LAN" 1 (lan_object [one_le] Silent)
    = Raise TimeoutError self'.
Proof. eexists. vm_compute. reflexivity. Qed.

(* ------------------------------------------------------------------ *)
(** ** Lines: write, read, ask *)

(** C3.  On a socket, [read] calls [recv(115200)] once per arriving
    fragment, decodes each chunk and appends it; it stops at the first chunk
    that brings a newline into the accumulated text, leaves later fragments
    unread, and returns the whole accumulated text, with the terminator and
    with whatever followed it in that chunk.  [ask] returns the same text. *)
Theorem read_returns_whole_accumulator :
  forall (self : BOSA) (s : socket) (pre : list bytes) (last : bytes)
         (post : list bytes) (tp tl : str) (fuel : nat),
    lower (interfaceType self) = "lan"%string ->
    instrument self = Some (Socket s) -> sock_closed s = false ->
    inbox s = pre ++ last :: post ->
    Forall whole (pre ++ [last]) ->
    decode_all pre = Some tp -> decode last = Some tl ->
    contains NL tp = false -> contains NL tl = true ->
    (List.length pre < fuel)%nat ->
    (exists self' s',
        read fuel self = Return (tp ++ tl) self'
        /\ instrument self' = Some (Socket s')
        /\ inbox s' = post
        /\ calls s' = calls s ++ map (Recv 115200) (pre ++ [last]))
    /\ (forall command data,
           encode (command ++ CRLF) = Some data -> send_fault s = None ->
           exists self', ask fuel command self = Return (tp ++ tl) self').
Proof.
  intros self s pre last post tp tl fuel
         Hlan Hi Hopen Hin Hw Hdp Hdl Htp Htl Hfuel.
  split.
  - now apply read_fragments.
  - intros command data Henc Hfault. unfold ask, bind.
    rewrite (write_lan command self s data) by assumption.
    match goal with
    | |- context [read fuel ?st] =>
      destruct (read_fragments fuel st (logged s (Sendall data) (inbox s))
                  pre last post tp tl)
        as (self' & s' & Hrun & _); auto
    end.
    rewrite Hrun. eexists. reflexivity.
Qed.

Lemma read_returns_whole_accumulator_witness :
  (exists self' s',
      read 2 (lan_object [wire_bytes (lit "ACME,BOSA400");
                          wire_bytes (lit ",001,1.0" ++ CRLF ++ lit "NEXT");
                          wire_bytes (lit "LATER" ++ CRLF)] Silent)
      = Return (lit "ACME,BOSA400" ++ lit ",001,1.0" ++ CRLF ++ lit "NEXT")
               self'
      /\ instrument self' = Some (Socket s')
      /\ inbox s' = [wire_bytes (lit "LATER" ++ CRLF)]
      /\ calls s'
         = [] ++ map (Recv 115200)
                     ([wire_bytes (lit "ACME,BOSA400")]
                      ++ [wire_bytes (lit ",001,1.0" ++ CRLF ++ lit "NEXT")]))
  /\ (forall command data,
         encode (command ++ CRLF) = Some data -> @None exn = None ->
         exists self',
           ask 2 command
             (lan_object [wire_bytes (lit "ACME,BOSA400");
                          wire_bytes (lit ",001,1.0" ++ CRLF ++ lit "NEXT");
                          wire_bytes (lit "LATER" ++ CRLF)] Silent)
           = Return (lit "ACME,BOSA400" ++ lit ",001,1.0" ++ CRLF ++ lit "NEXT")
                    self').
Proof.
  apply (read_returns_whole_accumulator
           (lan_object [wire_bytes (lit "ACME,BOSA400");
                        wire_bytes (lit ",001,1.0" ++ CRLF ++ lit "NEXT");
                        wire_bytes (lit "LATER" ++ CRLF)] Silent)
           (open_socket [wire_bytes (lit "ACME,BOSA400");
                         wire_bytes (lit ",001,1.0" ++ CRLF ++ lit "NEXT");
                         wire_bytes (lit "LATER" ++ CRLF)] Silent)
           [wire_bytes (lit "ACME,BOSA400")]
           (wire_bytes (lit ",001,1.0" ++ CRLF ++ lit "NEXT"))
           [wire_bytes (lit "LATER" ++ CRLF)]
           (lit "ACME,BOSA400") (lit ",001,1.0" ++ CRLF ++ lit "NEXT") 2).
  - reflexivity.
  - reflexivity.
  - reflexivity.
  - reflexivity.
  - repeat constructor; try discriminate; vm_compute; discriminate.
  - vm_compute. reflexivity.
  - vm_compute. reflexivity.
  - vm_compute. reflexivity.
  - vm_compute. reflexivity.
  - cbn. lia.
Defined.

(** The scenario of the specification: the reply to ["*IDN?"] comes back with
    its carriage return and line feed. *)
Example ask_IDN :
  exists self',
    ask 1 (lit "*IDN?") (lan_object [idn_reply] Silent)
    = Return (lit "ACME,BOSA400,001,1.0" ++ CRLF) self'.
Proof. eexists. vm_compute. reflexivity. Qed.

(** C4, as stated, fails: of the stream ["A\r\nB\r\n"], [read] returns
    ["A\r\n"] when it arrives one byte at a time and the whole of it when it
    arrives in one fragment. *)
Lemma read_depends_on_fragmentation :
  ~ (exists text self1 self2,
        read 10 (lan_object (bytewise two_lines) Silent) = Return text self1
        /\ read 10 (lan_object [two_lines] Silent) = Return text self2).
Proof.
  intros (text & self1 & self2 & H1 & H2).
  vm_compute in H1, H2.
  injection H1 as <- _. discriminate H2.
Qed.

(** Nor can a character of several bytes arrive one byte at a time: each
    chunk is decoded on its own. *)
Example read_split_character :
  (exists self', read 10 (lan_object (bytewise [xc3; xa9; x0a]) Silent)
                 = Raise UnicodeDecodeError self')
  /\ (exists self', read 10 (lan_object [[xc3; xa9; x0a]] Silent)
                    = Return [233; 10] self').
Proof. split; eexists; vm_compute; reflexivity. Qed.

(** C4, amended.  For a stream of one-byte (ASCII) characters whose only
    newline is its last byte, [read] on a socket returns the same text, the
    whole stream, however the stream is cut into fragments: one byte at a
    time, in a single fragment, or otherwise. *)
Theorem read_same_text_when_newline_is_last :
  forall (body : bytes) (self1 self2 : BOSA) (s1 s2 : socket) (fuel : nat),
    lower (interfaceType self1) = "lan"%string ->
    lower (interfaceType self2) = "lan"%string ->
    instrument self1 = Some (Socket s1) -> sock_closed s1 = false ->
    instrument self2 = Some (Socket s2) -> sock_closed s2 = false ->
    List.concat (inbox s1) = body ++ [x0a] ->
    List.concat (inbox s2) = body ++ [x0a] ->
    ascii_bytes body ->
    contains NL (map byte_val body) = false ->
    (List.length body < fuel)%nat ->
    exists self1' self2',
      read fuel self1 = Return (map byte_val (body ++ [x0a])) self1'
      /\ read fuel self2 = Return (map byte_val (body ++ [x0a])) self2'.
Proof.
  intros body self1 self2 s1 s2 fuel Hl1 Hl2 Hi1 Ho1 Hi2 Ho2 Hin1 Hin2
         Hascii Hbody Hfuel.
  destruct (read_ascii_stream fuel self1 s1 body) as (self1' & H1); auto.
  destruct (read_ascii_stream fuel self2 s2 body) as (self2' & H2); auto.
  now exists self1', self2'.
Qed.

Lemma read_same_text_when_newline_is_last_witness :
  exists self1' self2',
    read 5 (lan_object (bytewise (wire_bytes (lit "CA" ++ CRLF))) Silent)
    = Return (map byte_val (wire_bytes (lit "CA" ++ [13]) ++ [x0a])) self1'
    /\ read 5 (lan_object [wire_bytes (lit "CA" ++ CRLF)] Silent)
       = Return (map byte_val (wire_bytes (lit "CA" ++ [13]) ++ [x0a])) self2'.
Proof.
  apply (read_same_text_when_newline_is_last
           (wire_bytes (lit "CA" ++ [13]))
           (lan_object (bytewise (wire_bytes (lit "CA" ++ CRLF))) Silent)
           (lan_object [wire_bytes (lit "CA" ++ CRLF)] Silent)
           (open_socket (bytewise (wire_bytes (lit "CA" ++ CRLF))) Silent)
           (open_socket [wire_bytes (lit "CA" ++ CRLF)] Silent) 5);
    try reflexivity.
  - repeat constructor; vm_compute; reflexivity.
  - cbn. lia.
Defined.

Lemma sent_app (a b : list sock_call) : sent (a ++ b) = sent a ++ sent b.
Proof.
  induction a as [|[d|n d] a IH]; cbn [sent app]; auto.
  now rewrite IH, app_assoc.
Qed.

Lemma write_sends (command : str) (self : BOSA) (data : bytes) :
  ready_to_send self ->
  channel_encode self (command ++ CRLF) = Some data ->
  exists self',
    write command self = Return tt self' /\ wire self' = wire self ++ data.
Proof.
  intros Hready Henc. unfold channel_encode in Henc.
  destruct Hready as [(Hlan & s & Hi & Hopen & Hfault)
                     | (Hgpib & v & Hi & Hopen & Hfault & Hterm)].
  - rewrite Hlan in Henc. cbn [String.eqb Ascii.eqb Bool.eqb] in Henc.
    rewrite (write_lan command self s data) by assumption.
    eexists. split; [reflexivity|].
    unfold wire. cbn [instrument]. rewrite Hi. cbn [calls logged].
    rewrite sent_app. cbn [sent]. now rewrite app_nil_r.
  - rewrite Hgpib in Henc. cbn [String.eqb Ascii.eqb Bool.eqb] in Henc.
    rewrite (write_gpib command self v data) by (try rewrite Hterm; assumption).
    eexists. split; [reflexivity|].
    unfold wire. cbn [instrument]. rewrite Hi. cbn [written].
    rewrite concat_app. cbn [List.concat]. now rewrite app_nil_r.
Qed.

Lemma channel_encode_ascii (self : BOSA) (t : str) :
  ready_to_send self -> is_ascii t ->
  channel_encode self t = Some (wire_bytes t).
Proof.
  intros Hready Ht. destruct (encode_is_ascii t Ht) as [E1 E2].
  unfold channel_encode.
  destruct Hready as [(-> & _) | (-> & _)];
    cbn [String.eqb Ascii.eqb Bool.eqb]; assumption.
Qed.

(** C6.  On both transports, when the connection is open for writing,
    [write(command)] puts on the channel exactly the bytes of the command
    followed by carriage return and line feed, all of them: for every
    command the channel's encoding accepts, and so for every ASCII command,
    whose bytes are its characters.  On the socket the driver appends the
    terminator and calls [sendall]; on the bus it hands the command to the
    resource, which appends its write termination (carriage return and line
    feed, as opened). *)
Theorem write_sends_command_and_terminator :
  forall (command : str) (self : BOSA),
    ready_to_send self ->
    (forall data,
        channel_encode self (command ++ CRLF) = Some data ->
        exists self',
          write command self = Return tt self'
          /\ wire self' = wire self ++ data)
    /\ (is_ascii command ->
        exists self',
          write command self = Return tt self'
          /\ wire self' = wire self ++ wire_bytes (command ++ CRLF)).
Proof.
  intros command self Hready. split.
  - intros data Henc. now apply write_sends.
  - intros Hascii. apply write_sends; [exact Hready|].
    apply channel_encode_ascii; [exact Hready|].
    apply Forall_app. split; [exact Hascii|].
    repeat constructor; lia.
Qed.

Lemma write_sends_command_and_terminator_witness :
  (exists self',
      write (lit "TRAC?") (lan_object [] Silent) = Return tt self'
      /\ wire self' = wire (lan_object [] Silent)
                      ++ wire_bytes (lit "TRAC?" ++ CRLF))
  /\ (exists self',
         write (lit "TRAC?") (gpib_object []) = Return tt self'
         /\ wire self' = wire (gpib_object [])
                         ++ wire_bytes (lit "TRAC?" ++ CRLF)).
Proof.
  split.
  - apply (proj2 (write_sends_command_and_terminator (lit "TRAC?")
                    (lan_object [] Silent)
                    (or_introl
                       (conj eq_refl
                          (ex_intro _ (open_socket [] Silent)
                             (conj eq_refl (conj eq_refl eq_refl))))))).
    repeat constructor; vm_compute; discriminate.
  - apply (proj2 (write_sends_command_and_terminator (lit "TRAC?")
                    (gpib_object [])
                    (or_intror
                       (conj eq_refl
                          (ex_intro _ (open_resource [])
                             (conj eq_refl
                                (conj eq_refl (conj eq_refl eq_refl)))))))).
    repeat constructor; vm_compute; discriminate.
Defined.

(* ------------------------------------------------------------------ *)
(** ** Request and response *)

(** C9, as stated, fails: [ask_TRACE_ASCII] on a bus that answers makes two
    writes in a row, ["FORM ASCII"] and ["TRAC?"], and then one read. *)
Lemma ask_TRACE_ASCII_writes_twice :
  ~ (forall vs self',
        ask_TRACE_ASCII gpib_with_values = Return vs self' ->
        one_read_per_write (history self') = true).
Proof.
  intros H.
  assert (Hex : exists vs self',
             ask_TRACE_ASCII gpib_with_values = Return vs self'
             /\ one_read_per_write (history self') = false)
    by (eexists _, _; split; vm_compute; reflexivity).
  destruct Hex as (vs & self' & Hrun & Hfalse).
  rewrite (H _ _ Hrun) in Hfalse. discriminate Hfalse.
Qed.

(** C9, amended.  When they return, [ask] has made one write of the command
    and then one read; [ask_TRACE_REAL] one write of ["TRAC?"] and then one
    binary trace read; [ask_TRACE_ASCII] two writes, ["FORM ASCII"] and
    ["TRAC?"], and then one ASCII trace read. *)
Theorem facade_calls :
  forall (native : byteorder) (fuel : nat) (self : BOSA),
    (forall command data self',
        ask fuel command self = Return data self' ->
        history self' = history self ++ [OpWrite command; OpRead])
    /\ (forall arg NumPoints t self',
           ask_TRACE_REAL native fuel arg NumPoints self = Return t self' ->
           history self'
           = history self ++ [OpWrite (lit "TRAC?"); OpReadTraceReal])
    /\ (forall vs self',
           ask_TRACE_ASCII self = Return vs self' ->
           history self'
           = history self ++ [OpWrite (lit "FORM ASCII");
                              OpWrite (lit "TRAC?"); OpReadTraceAscii]).
Proof.
  intros native fuel self. repeat split.
  - intros command data self'.
    apply (appends_bind [OpWrite command] [OpRead]);
      [apply appends_write | intros _].
    apply (appends_bind [OpRead] []); [apply appends_read | intros ?].
    apply appends_ret.
  - intros arg NumPoints t self'.
    apply (appends_bind [OpWrite (lit "TRAC?")] [OpReadTraceReal]);
      [apply appends_write | intros _].
    apply (appends_bind [OpReadTraceReal] []);
      [apply appends_read_TRACE_REAL | intros ?].
    apply appends_ret.
  - intros vs self'.
    apply (appends_bind [OpWrite (lit "FORM ASCII")]
                        [OpWrite (lit "TRAC?"); OpReadTraceAscii]);
      [apply appends_write | intros _].
    apply (appends_bind [OpWrite (lit "TRAC?")] [OpReadTraceAscii]);
      [apply appends_write | intros _].
    apply (appends_bind [OpReadTraceAscii] []);
      [apply appends_read_TRACE_ASCII | intros ?].
    apply appends_ret.
Qed.

Lemma facade_calls_witness :
  exists data self',
    ask 1 (lit "*IDN?") (lan_object [idn_reply] Silent) = Return data self'
    /\ history self' = [] ++ [OpWrite (lit "*IDN?"); OpRead].
Proof.
  eexists _, _. split.
  - vm_compute. reflexivity.
  - refine (proj1 (facade_calls LittleEndian 1
                     (lan_object [idn_reply] Silent)) (lit "*IDN?") _ _ _).
    vm_compute. reflexivity.
Defined.

(** C10.  [read_TRACE_ASCII] calls [read_ascii_values] on the handle without
    looking at the interface name.  A socket has no such method: on a socket
    the call raises AttributeError, which is logged, printed and re-raised,
    and neither [read_TRACE_ASCII] nor [ask_TRACE_ASCII] ever returns a
    value; whenever either of them returns, the handle is a bus resource. *)
Theorem read_TRACE_ASCII_needs_bus :
  forall self : BOSA,
    (forall s, instrument self = Some (Socket s) ->
       (exists self',
           read_TRACE_ASCII self
           = Raise (AttributeError "read_ascii_values") self')
       /\ (forall vs self', ask_TRACE_ASCII self <> Return vs self'))
    /\ (forall vs self',
           read_TRACE_ASCII self = Return vs self'
           \/ ask_TRACE_ASCII self = Return vs self' ->
           exists v, instrument self = Some (Visa v)).
Proof.
  intros self. split.
  - intros s Hi. split.
    + eexists. now apply read_TRACE_ASCII_on_socket with (s := s).
    + intros vs self' H. apply ask_TRACE_ASCII_kind in H.
      unfold kind_of in H. rewrite Hi in H. discriminate H.
  - intros vs self' [H | H];
      [apply read_TRACE_ASCII_kind in H | apply ask_TRACE_ASCII_kind in H];
      unfold kind_of in H;
      destruct (instrument self) as [[s|v]|]; try discriminate H;
      now exists v.
Qed.

Lemma read_TRACE_ASCII_needs_bus_witness :
  (exists self',
      read_TRACE_ASCII (lan_object [idn_reply] Silent)
      = Raise (AttributeError "read_ascii_values") self')
  /\ (forall vs self',
         ask_TRACE_ASCII (lan_object [idn_reply] Silent) <> Return vs self').
Proof.
  apply (proj1 (read_TRACE_ASCII_needs_bus (lan_object [idn_reply] Silent))
           (open_socket [idn_reply] Silent)).
  reflexivity.
Defined.

(** On a bus that answers, the ASCII trace is returned. *)
Example ask_TRACE_ASCII_on_bus :
  exists self',
    ask_TRACE_ASCII gpib_with_values
    = Return [S754_finite false 4503599627370496 (-52);
              S754_finite false 4503599627370496 (-51)] self'.
Proof. eexists. vm_compute. reflexivity. Qed.

(* ------------------------------------------------------------------ *)
(** ** Tearing down *)

Lemma close_keeps_log (self : BOSA) (e : exn) (self1 : BOSA) :
  close_instrument self = Raise e self1 -> log self1 = log self.
Proof.
  unfold close_instrument. intros H.
  destruct (instrument self) as [[s|v]|].
  - destruct (sock_close s) as [[x|u] s']; try discriminate H.
    now injection H as _ <-.
  - destruct (visa_close v) as [[x|u] v']; try discriminate H.
    now injection H as _ <-.
  - now injection H as _ <-.
Qed.

(** C8.  When closing the handle raises an exception that has no [message]
    attribute, as no built-in exception has, the handler of [__del__] fails
    on [e.message] before it can log: the destructor raises AttributeError
    and the log is as it was.  A GPIB object whose resource was never opened
    is such a case, the missing [instrument] attribute being the error. *)
Theorem del_close_error_escapes :
  forall (self : BOSA) (e : exn) (self1 : BOSA),
    upper (interfaceType self) = "LAN"%string
    \/ upper (interfaceType self) = "GPIB"%string ->
    close_instrument self = Raise e self1 ->
    exn_message e = None ->
    __del__ self = Raise (AttributeError "message") self1
    /\ log self1 = log self.
Proof.
  intros self e self1 Hkind Hclose Hmsg. split.
  - unfold __del__, try_except.
    destruct Hkind as [-> | ->]; cbn [String.eqb Ascii.eqb Bool.eqb];
      rewrite Hclose, Hmsg; reflexivity.
  - eapply close_keeps_log, Hclose.
Qed.

Lemma del_close_error_escapes_witness :
  __del__ gpib_unopened = Raise (AttributeError "message") gpib_unopened
  /\ log gpib_unopened = log gpib_unopened.
Proof.
  apply (del_close_error_escapes gpib_unopened (AttributeError "instrument")
           gpib_unopened).
  - right. reflexivity.
  - reflexivity.
  - reflexivity.
Defined.

(** The same on a socket whose [close] fails with OSError. *)
Example del_socket_close_fails :
  __del__ lan_close_fails = Raise (AttributeError "message") lan_close_fails.
Proof. reflexivity. Qed.

(** Without a failure of [close], the destructor can be run again and again:
    the second run finds the handle closed and changes nothing. *)
Lemma del_twice (self : BOSA) (h : handle) :
  instrument self = Some h ->
  match h with
  | Socket s => sock_close_fault s = None
  | Visa v => visa_close_fault v = None
  end ->
  exists self',
    __del__ self = Return tt self' /\ __del__ self' = Return tt self'.
Proof.
  intros Hi Hok. unfold __del__, try_except, close_instrument, ret.
  destruct (String.eqb (upper (interfaceType self)) "LAN") eqn:Elan;
    [|destruct (String.eqb (upper (interfaceType self)) "GPIB") eqn:Egpib].
  3: { exists self. now rewrite Elan, Egpib. }
  all: rewrite Hi; destruct h as [s|v];
    [ unfold sock_close; rewrite Hok; destruct (sock_closed s) eqn:Ec
    | unfold visa_close; rewrite Hok; destruct (visa_closed v) eqn:Ec ];
    eexists; (split; [reflexivity|]);
    cbn [set_instrument interfaceType instrument];
    rewrite ?Elan, ?Egpib; cbn [sock_closed visa_closed];
    rewrite ?Ec; reflexivity.
Qed.

(* ------------------------------------------------------------------ *)
(** ** Setters and their parameters *)

Lemma str_eqb_true (a b : str) : str_eqb a b = true -> a = b.
Proof. unfold str_eqb. now destruct (list_eq_dec Z.eq_dec a b). Qed.





(** What it sends there: the command without the magnitude. *)
Example set_bottomY_bad_magnitude_wire :
  exists self',
    set_bottomY 1 (PStr (lit "1")) (PStr (lit "XYZ")) (PBool false)
                (PBool false) lan_answering
    = Return (PStr (lit "0" ++ CRLF)) self'
    /\ wire self' = wire_bytes (lit "DISP:TRAC:Y:BOTT 1" ++ CRLF)
    /\ stdout self' = [].
Proof. eexists. repeat split; vm_compute; reflexivity. Qed.

(** Two further departures, both from the diagnostic branch itself: after
    the message about [scale] the method goes on and reads [scal], which was
    never assigned; and a state that is not a [str] cannot be joined to the
    message. *)
Example set_bottomY_bad_scale :
  set_bottomY 1 (PStr (lit "1")) (PStr (lit "DBM")) (PBool false)
              (PStr (lit "x")) lan_answering
  = Raise (UnboundLocalError "scal")
      {| interfaceType := "LAN"; instrument := instrument lan_answering;
         log := [];
         stdout := [Line (lit "Value for scale must be boolean, instead it is x")];
         history := [] |}.
Proof. vm_compute. reflexivity. Qed.

Example set_state_bad_integer :
  set_state 1 (PStr (lit "HOLD")) (PInt 2) lan_answering
  = Raise TypeError lan_answering.
Proof. vm_compute. reflexivity. Qed.



(* ------------------------------------------------------------------ *)
(** ** Frames: what the methods do not touch *)

Section Always.

Context {A B : Type}.
Variable R : BOSA -> BOSA -> Prop.
Hypothesis R_refl : forall self, R self self.
Hypothesis R_trans : forall a b c, R a b -> R b c -> R a c.

Lemma always_ret (a : A) : always R (ret a).
Proof. intros self. apply R_refl. Qed.

Lemma always_raise (e : exn) : always R (@raise A e).
Proof. intros self. apply R_refl. Qed.

Lemma always_diverge : always R (@diverge A).
Proof. intros self. exact I. Qed.

Lemma always_bind (m : M A) (k : A -> M B) :
  always R m -> (forall a, always R (k a)) -> always R (bind m k).
Proof.
  intros Hm Hk self. unfold bind. specialize (Hm self).
  destruct (m self) as [a self1 | e self1 |]; auto.
  specialize (Hk a self1). destruct (k a self1); eauto.
Qed.

Lemma always_try (m : M A) (h : exn -> M A) :
  always R m -> (forall e, always R (h e)) -> always R (try_except m h).
Proof.
  intros Hm Hh self. unfold try_except. specialize (Hm self).
  destruct (m self) as [a self1 | e self1 |]; auto.
  specialize (Hh e self1). destruct (h e self1); eauto.
Qed.

Lemma always_if (b : bool) (m1 m2 : M A) :
  always R m1 -> always R m2 -> always R (if b then m1 else m2).
Proof. now destruct b. Qed.

End Always.

Section Same.

Context {B : Type}.
Variable f : BOSA -> B.

(** [f] looks at the interface name and the handle only. *)
Hypothesis f_object :
  forall self self',
    interfaceType self' = interfaceType self ->
    instrument self' = instrument self -> f self' = f self.

Lemma same_refl (self : BOSA) : same f self self.
Proof. reflexivity. Qed.

Lemma same_trans (a b c : BOSA) : same f a b -> same f b c -> same f a c.
Proof. unfold same. congruence. Qed.

Lemma same_log (l : level) (msg : str) : always (same f) (log_msg l msg).
Proof. intros self. now apply f_object. Qed.

Lemma same_print (o : output) : always (same f) (print o).
Proof. intros self. now apply f_object. Qed.

Lemma same_note (o : op) : always (same f) (note o).
Proof. intros self. now apply f_object. Qed.

Lemma same_kind_is (name : string) : always (same f) (kind_is name).
Proof. intros self. reflexivity. Qed.

Lemma same_reraise {A} (msg : string) (e : exn) :
  always (same f) (@reraise A msg e).
Proof.
  unfold reraise.
  apply always_bind; [apply same_trans | apply same_log | intros _].
  apply always_bind; [apply same_trans | apply same_print | intros _].
  apply always_raise, same_refl.
Qed.

Lemma same_on_socket {A} (method : string)
    (g : socket -> (exn + A) * socket) :
  socket_keeps f g -> always (same f) (on_socket method g).
Proof.
  intros Hg self. unfold on_socket.
  destruct (instrument self) as [[s|v]|] eqn:E; try reflexivity.
  specialize (Hg self s E).
  destruct (g s) as [[e|a] s']; exact Hg.
Qed.

Lemma same_on_visa {A} (method : string) (g : visa -> (exn + A) * visa) :
  visa_keeps f g -> always (same f) (on_visa method g).
Proof.
  intros Hg self. unfold on_visa.
  destruct (instrument self) as [[s|v]|] eqn:E; try reflexivity.
  specialize (Hg self v E).
  destruct (g v) as [[e|a] v']; exact Hg.
Qed.

Ltac framing_with leaf :=
  repeat first
    [ leaf
    | apply always_bind; [apply same_trans | | intros ?]
    | apply always_try; [apply same_trans | | intros ?]
    | apply always_if
    | apply always_ret, same_refl
    | apply always_raise, same_refl
    | apply always_diverge
    | apply same_log
    | apply same_print
    | apply same_note
    | apply same_kind_is
    | apply same_reraise
    | apply same_on_socket
    | apply same_on_visa
    | progress auto ].

Ltac framing := framing_with fail.

Hypothesis recv_keeps : forall n, socket_keeps f (sock_recv n).
Hypothesis sendall_keeps : forall d, socket_keeps f (sock_sendall d).
Hypothesis visa_read_keeps : visa_keeps f visa_read.
Hypothesis visa_read_bytes_keeps : forall n, visa_keeps f (visa_read_bytes n).
Hypothesis visa_values_keeps : visa_keeps f visa_read_ascii_values.
Hypothesis visa_write_keeps : forall c, visa_keeps f (visa_write c).

Lemma same_write (command : str) : always (same f) (write command).
Proof.
  unfold write, encoded. framing.
  destruct (encode (command ++ CRLF)); framing.
Qed.

Lemma same_read_lan (fuel : nat) :
  forall message, always (same f) (read_lan fuel message).
Proof.
  induction fuel as [|fuel IH]; intros message; cbn [read_lan]; framing.
  unfold decoded. destruct (decode _); framing.
Qed.

Lemma same_read_gpib (fuel : nat) : always (same f) (read_gpib fuel).
Proof.
  induction fuel as [|fuel IH]; cbn [read_gpib]; framing.
  destruct a; framing.
Qed.

Lemma same_read (fuel : nat) : always (same f) (read fuel).
Proof.
  unfold read. framing; [apply same_read_lan | apply same_read_gpib].
Qed.

Lemma same_ask (fuel : nat) (command : str) :
  always (same f) (ask fuel command).
Proof.
  unfold ask.
  framing_with ltac:(first [apply same_write | apply same_read]).
Qed.

Lemma same_recv_trace (fuel : nat) :
  forall msgLength acc, always (same f) (recv_trace fuel msgLength acc).
Proof.
  induction fuel as [|fuel IH]; intros msgLength acc; cbn [recv_trace];
    framing.
Qed.

Lemma same_fill_trace (native : byteorder) (xs : list nat) :
  forall buf t, always (same f) (fill_trace native xs buf t).
Proof.
  induction xs as [|x xs IH]; intros buf t; cbn [fill_trace]; framing;
    unfold struct_unpack_d; destruct (Nat.eqb _ _); framing.
Qed.

Lemma same_read_TRACE_REAL (native : byteorder) (fuel : nat) (arg : string)
    (NumPoints : Z) :
  always (same f) (read_TRACE_REAL native fuel arg NumPoints).
Proof.
  unfold read_TRACE_REAL. framing;
    [apply same_recv_trace | apply same_fill_trace].
Qed.

Lemma same_read_TRACE_ASCII : always (same f) read_TRACE_ASCII.
Proof. unfold read_TRACE_ASCII. framing. Qed.

End Same.

(* ------------------------------------------------------------------ *)
(** ** Encoding, then decoding *)

Lemma byte_val_of (n : Z) : 0 <= n < 256 -> byte_val (byte_of n) = n.
Proof.
  intros Hn. unfold byte_val, byte_of.
  destruct (Byte.of_N (Z.to_N n)) as [b|] eqn:E.
  - apply Byte.to_of_N in E. rewrite E. lia.
  - apply Byte.of_N_None_iff in E. lia.
Qed.

Lemma between_of (lo hi n : Z) :
  0 <= n < 256 -> between lo hi (byte_of n) = (lo <=? n) && (n <=? hi).
Proof. intros Hn. unfold between. now rewrite byte_val_of. Qed.

Lemma some_eq {A} (a b : A) : Some a = Some b -> a = b.
Proof. now intros [= ->]. Qed.

Lemma decode_encode_char (c : Z) (bs rest : bytes) :
  encode_char c = Some bs ->
  decode (bs ++ rest) = option_map (cons c) (decode rest).
Proof.
  unfold encode_char.
  destruct (Z.ltb_spec c 0); [discriminate|].
  destruct (Z.ltb_spec c 128).
  { intros E; apply some_eq in E; subst bs. cbn [app]. remember rest as t. cbn [decode].
    rewrite byte_val_of by lia.
    destruct (Z.ltb_spec c 128); [reflexivity | lia]. }
  destruct (Z.ltb_spec c 2048).
  { intros E; apply some_eq in E; subst bs. cbn [app].
    remember (byte_of (128 + c mod 64) :: rest) as t eqn:Et.
    cbn [decode]. subst t. cbv beta match.
    pose proof (Z.div_mod c 64 ltac:(lia)).
    pose proof (Z.mod_pos_bound c 64 ltac:(lia)).
    assert (2 <= c / 64 < 32) by (split; [apply Z.div_le_lower_bound | apply Z.div_lt_upper_bound]; lia).
    unfold low6. rewrite !between_of by lia. rewrite !byte_val_of by lia.
    destruct (Z.ltb_spec (192 + c / 64) 128); [lia|].
    replace ((194 <=? 192 + c / 64) && (192 + c / 64 <=? 223)) with true
      by (symmetry; apply andb_true_intro; split; apply Z.leb_le; lia).
    replace ((128 <=? 128 + c mod 64) && (128 + c mod 64 <=? 191)) with true
      by (symmetry; apply andb_true_intro; split; apply Z.leb_le; lia).
    replace ((192 + c / 64 - 192) * 64 + (128 + c mod 64 - 128)) with c by lia.
    reflexivity. }
  destruct (Z.ltb_spec c 65536).
  { destruct (andb (55296 <=? c) (c <=? 57343)) eqn:Hs; [discriminate|].
    intros E; apply some_eq in E; subst bs. cbn [app].
    remember (byte_of (128 + (c / 64) mod 64)
              :: byte_of (128 + c mod 64) :: rest) as t eqn:Et.
    cbn [decode]. subst t. cbv beta match.
    pose proof (Z.div_mod c 64 ltac:(lia)).
    pose proof (Z.mod_pos_bound c 64 ltac:(lia)).
    pose proof (Z.div_mod (c / 64) 64 ltac:(lia)).
    pose proof (Z.mod_pos_bound (c / 64) 64 ltac:(lia)).
    assert (Hq : c / 4096 = c / 64 / 64) by (rewrite Z.div_div by lia; reflexivity).
    assert (32 <= c / 64 < 1024) by (split; [apply Z.div_le_lower_bound | apply Z.div_lt_upper_bound]; lia).
    assert (0 <= c / 4096 < 16) by (rewrite Hq; split; [apply Z.div_le_lower_bound | apply Z.div_lt_upper_bound]; lia).
    unfold low6, second3.
    rewrite !between_of by lia. rewrite !byte_val_of by lia.
    destruct (Z.ltb_spec (224 + c / 4096) 128); [lia|].
    replace ((194 <=? 224 + c / 4096) && (224 + c / 4096 <=? 223)) with false
      by (symmetry; apply andb_false_intro2; apply Z.leb_gt; lia).
    replace ((224 <=? 224 + c / 4096) && (224 + c / 4096 <=? 239)) with true
      by (symmetry; apply andb_true_intro; split; apply Z.leb_le; lia).
    apply andb_false_elim in Hs.
    assert (Hsecond :
              (if 224 + c / 4096 =? 224
               then (160 <=? 128 + (c / 64) mod 64) && (128 + (c / 64) mod 64 <=? 191)
               else if 224 + c / 4096 =? 237
                    then (128 <=? 128 + (c / 64) mod 64) && (128 + (c / 64) mod 64 <=? 159)
                    else (128 <=? 128 + (c / 64) mod 64) && (128 + (c / 64) mod 64 <=? 191))
              = true).
    { destruct (Z.eqb_spec (224 + c / 4096) 224);
        [|destruct (Z.eqb_spec (224 + c / 4096) 237)];
        apply andb_true_intro; split; apply Z.leb_le;
        destruct Hs as [Hs | Hs];
        try (apply Z.leb_gt in Hs); lia. }
    rewrite Hsecond.
    replace ((128 <=? 128 + c mod 64) && (128 + c mod 64 <=? 191)) with true
      by (symmetry; apply andb_true_intro; split; apply Z.leb_le; lia).
    cbn [andb].
    replace ((224 + c / 4096 - 224) * 4096 + (128 + (c / 64) mod 64 - 128) * 64
             + (128 + c mod 64 - 128)) with c by lia.
    reflexivity. }
  destruct (Z.ltb_spec c 1114112); [|discriminate].
  intros E; apply some_eq in E; subst bs. cbn [app].
  remember (byte_of (128 + (c / 4096) mod 64)
            :: byte_of (128 + (c / 64) mod 64)
            :: byte_of (128 + c mod 64) :: rest) as t eqn:Et.
  cbn [decode]. subst t. cbv beta match.
  pose proof (Z.div_mod c 64 ltac:(lia)).
  pose proof (Z.mod_pos_bound c 64 ltac:(lia)).
  pose proof (Z.div_mod (c / 64) 64 ltac:(lia)).
  pose proof (Z.mod_pos_bound (c / 64) 64 ltac:(lia)).
  pose proof (Z.div_mod (c / 4096) 64 ltac:(lia)).
  pose proof (Z.mod_pos_bound (c / 4096) 64 ltac:(lia)).
  assert (Hq : c / 4096 = c / 64 / 64) by (rewrite Z.div_div by lia; reflexivity).
  assert (Hq' : c / 262144 = c / 4096 / 64) by (rewrite Z.div_div by lia; reflexivity).
  assert (1024 <= c / 64 < 17408) by (split; [apply Z.div_le_lower_bound | apply Z.div_lt_upper_bound]; lia).
  assert (16 <= c / 4096 < 272) by (rewrite Hq; split; [apply Z.div_le_lower_bound | apply Z.div_lt_upper_bound]; lia).
  assert (0 <= c / 262144 < 5) by (rewrite Hq'; split; [apply Z.div_le_lower_bound | apply Z.div_lt_upper_bound]; lia).
  unfold low6, second4.
  rewrite !between_of by lia. rewrite !byte_val_of by lia.
  destruct (Z.ltb_spec (240 + c / 262144) 128); [lia|].
  replace ((194 <=? 240 + c / 262144) && (240 + c / 262144 <=? 223)) with false
    by (symmetry; apply andb_false_intro2; apply Z.leb_gt; lia).
  replace ((224 <=? 240 + c / 262144) && (240 + c / 262144 <=? 239)) with false
    by (symmetry; apply andb_false_intro2; apply Z.leb_gt; lia).
  replace ((240 <=? 240 + c / 262144) && (240 + c / 262144 <=? 244)) with true
    by (symmetry; apply andb_true_intro; split; apply Z.leb_le; lia).
  assert (Hsecond :
            (if 240 + c / 262144 =? 240
             then (144 <=? 128 + (c / 4096) mod 64) && (128 + (c / 4096) mod 64 <=? 191)
             else if 240 + c / 262144 =? 244
                  then (128 <=? 128 + (c / 4096) mod 64) && (128 + (c / 4096) mod 64 <=? 143)
                  else (128 <=? 128 + (c / 4096) mod 64) && (128 + (c / 4096) mod 64 <=? 191))
            = true).
  { destruct (Z.eqb_spec (240 + c / 262144) 240);
      [|destruct (Z.eqb_spec (240 + c / 262144) 244)];
      apply andb_true_intro; split; apply Z.leb_le; lia. }
  rewrite Hsecond.
  replace ((128 <=? 128 + (c / 64) mod 64) && (128 + (c / 64) mod 64 <=? 191))
    with true by (symmetry; apply andb_true_intro; split; apply Z.leb_le; lia).
  replace ((128 <=? 128 + c mod 64) && (128 + c mod 64 <=? 191)) with true
    by (symmetry; apply andb_true_intro; split; apply Z.leb_le; lia).
  cbn [andb].
  replace ((240 + c / 262144 - 240) * 262144
           + (128 + (c / 4096) mod 64 - 128) * 4096
           + (128 + (c / 64) mod 64 - 128) * 64 + (128 + c mod 64 - 128))
    with c by lia.
  reflexivity.
Qed.

Lemma decode_encode (s : str) (bs : bytes) :
  encode s = Some bs -> decode bs = Some s.
Proof.
  revert bs. induction s as [|c s IH]; intros bs H; cbn [encode] in H.
  - now injection H as <-.
  - destruct (encode_char c) as [bc|] eqn:Ec; [|discriminate].
    destruct (encode s) as [br|] eqn:Er; [|discriminate].
    injection H as <-. rewrite (decode_encode_char c bc br Ec).
    now rewrite (IH br eq_refl).
Qed.

(* ------------------------------------------------------------------ *)
(** ** The frames, for the transport methods *)

Lemma wire_object (self self' : BOSA) :
  interfaceType self' = interfaceType self ->
  instrument self' = instrument self -> wire self' = wire self.
Proof. intros _ H. unfold wire. now rewrite H. Qed.

Lemma incoming_object (self self' : BOSA) :
  interfaceType self' = interfaceType self ->
  instrument self' = instrument self -> incoming self' = incoming self.
Proof. intros _ H. unfold incoming. now rewrite H. Qed.

Lemma recv_keeps_wire (n : Z) : socket_keeps wire (sock_recv n).
Proof.
  intros self s Hi. unfold wire. cbn [instrument set_instrument]. rewrite Hi.
  unfold sock_recv.
  destruct (sock_closed s); [reflexivity|].
  destruct (n <? 0); [reflexivity|].
  destruct (n =? 0);
    [cbn [snd calls logged]; rewrite sent_app; cbn; now rewrite app_nil_r|].
  destruct (take_chunk (Z.to_nat n) (inbox s)) as [[|b c] rest];
    [destruct (at_end s)|];
    cbn [snd calls logged]; rewrite ?sent_app; cbn; now rewrite ?app_nil_r.
Qed.

Ltac visa_cases v :=
  unfold visa_read, visa_read_bytes, visa_read_ascii_values, next_reply;
  destruct (visa_closed v); [reflexivity|];
  destruct (replies v) as [|[t|b|vs|e] rs]; try reflexivity.

Lemma visa_read_keeps_wire : visa_keeps wire visa_read.
Proof.
  intros self v Hi. unfold wire. cbn [instrument set_instrument]. rewrite Hi.
  visa_cases v.
Qed.

Lemma visa_read_bytes_keeps_wire (n : Z) :
  visa_keeps wire (visa_read_bytes n).
Proof.
  intros self v Hi. unfold wire. cbn [instrument set_instrument]. rewrite Hi.
  visa_cases v. now destruct (Z.of_nat (List.length b) =? n).
Qed.

Lemma visa_values_keeps_wire : visa_keeps wire visa_read_ascii_values.
Proof.
  intros self v Hi. unfold wire. cbn [instrument set_instrument]. rewrite Hi.
  visa_cases v.
Qed.

Lemma sendall_keeps_incoming (d : bytes) :
  socket_keeps incoming (sock_sendall d).
Proof.
  intros self s Hi. unfold incoming. cbn [instrument set_instrument].
  rewrite Hi. unfold sock_sendall.
  destruct (sock_closed s); [reflexivity|].
  now destruct (send_fault s).
Qed.

Lemma visa_write_keeps_incoming (c : str) :
  visa_keeps incoming (visa_write c).
Proof.
  intros self v Hi. unfold incoming. cbn [instrument set_instrument].
  rewrite Hi. unfold visa_write.
  destruct (visa_closed v); [reflexivity|].
  destruct (write_fault v); [reflexivity|].
  now destruct (encode_ascii _).
Qed.

Lemma named_condition_object (self self' : BOSA) :
  interfaceType self' = interfaceType self ->
  instrument self' = instrument self ->
  named_condition self' = named_condition self.
Proof. intros H1 H2. unfold named_condition, condition. now rewrite H1, H2. Qed.

Ltac named_socket s Hi :=
  unfold named_condition, condition; cbn [instrument set_instrument interfaceType];
  rewrite Hi.

Lemma recv_keeps_condition (n : Z) : socket_keeps named_condition (sock_recv n).
Proof.
  intros self s Hi. named_socket s Hi. unfold sock_recv.
  destruct (sock_closed s) eqn:E; [cbn; now rewrite ?E|].
  destruct (n <? 0); [cbn; now rewrite ?E|].
  destruct (n =? 0); [cbn; now rewrite ?E|].
  destruct (take_chunk (Z.to_nat n) (inbox s)) as [[|b c] rest];
    [destruct (at_end s)|]; cbn; now rewrite ?E.
Qed.

Lemma sendall_keeps_condition (d : bytes) :
  socket_keeps named_condition (sock_sendall d).
Proof.
  intros self s Hi. named_socket s Hi. unfold sock_sendall.
  destruct (sock_closed s) eqn:E; [cbn; now rewrite ?E|].
  destruct (send_fault s) eqn:F; cbn; now rewrite ?E, ?F.
Qed.

Ltac visa_condition v :=
  unfold visa_read, visa_read_bytes, visa_read_ascii_values, next_reply;
  destruct (visa_closed v) eqn:E; [cbn; now rewrite ?E|];
  destruct (replies v) as [|[t|b|vs|e] rs]; cbn; rewrite ?E; try reflexivity.

Lemma visa_read_keeps_condition : visa_keeps named_condition visa_read.
Proof. intros self v Hi. named_socket v Hi. visa_condition v. Qed.

Lemma visa_read_bytes_keeps_condition (n : Z) :
  visa_keeps named_condition (visa_read_bytes n).
Proof.
  intros self v Hi. named_socket v Hi. visa_condition v.
  destruct (Z.of_nat (List.length b) =? n); cbn; now rewrite ?E.
Qed.

Lemma visa_values_keeps_condition :
  visa_keeps named_condition visa_read_ascii_values.
Proof. intros self v Hi. named_socket v Hi. visa_condition v. Qed.

Lemma visa_write_keeps_condition (c : str) :
  visa_keeps named_condition (visa_write c).
Proof.
  intros self v Hi. named_socket v Hi. unfold visa_write.
  destruct (visa_closed v) eqn:E; [cbn; now rewrite ?E|].
  destruct (write_fault v) eqn:F; [cbn; now rewrite ?E, ?F|].
  destruct (encode_ascii _); cbn; now rewrite ?E, ?F.
Qed.

(** X1.  The methods that read never send: whether [read],
    [read_TRACE_REAL] or [read_TRACE_ASCII] returns or raises, the bytes put
    on the channel are those that were there before the call. *)
Theorem reads_never_send :
  forall (native : byteorder) (fuel : nat) (arg : string) (NumPoints : Z),
    always (same wire) (read fuel)
    /\ always (same wire) (read_TRACE_REAL native fuel arg NumPoints)
    /\ always (same wire) read_TRACE_ASCII.
Proof.
  intros native fuel arg NumPoints. repeat split.
  - apply same_read;
      auto using wire_object, recv_keeps_wire, visa_read_keeps_wire.
  - apply same_read_TRACE_REAL;
      auto using wire_object, recv_keeps_wire, visa_read_bytes_keeps_wire.
  - apply same_read_TRACE_ASCII;
      auto using wire_object, visa_values_keeps_wire.
Qed.

(** X2.  [write] never takes anything off the channel: whether it returns
    or raises, what the handle has still to deliver is what it had. *)
Theorem write_never_receives :
  forall command : str, always (same incoming) (write command).
Proof.
  intros command. apply same_write;
    auto using incoming_object, sendall_keeps_incoming,
      visa_write_keeps_incoming.
Qed.

Lemma ask_keeps_condition (fuel : nat) (command : str) :
  always (same named_condition) (ask fuel command).
Proof.
  apply same_ask;
    auto using named_condition_object, recv_keeps_condition,
      sendall_keeps_condition, visa_read_keeps_condition,
      visa_write_keeps_condition.
Qed.

Lemma read_keeps_condition (fuel : nat) :
  always (same named_condition) (read fuel).
Proof.
  apply same_read;
    auto using named_condition_object, recv_keeps_condition,
      visa_read_keeps_condition.
Qed.

Lemma read_TRACE_REAL_keeps_condition (native : byteorder) (fuel : nat)
    (arg : string) (NumPoints : Z) :
  always (same named_condition) (read_TRACE_REAL native fuel arg NumPoints).
Proof.
  apply same_read_TRACE_REAL;
    auto using named_condition_object, recv_keeps_condition,
      visa_read_bytes_keeps_condition.
Qed.

(** X3.  None of [write], [read], [ask], [read_TRACE_REAL] and
    [read_TRACE_ASCII] closes the handle, changes the faults that await it
    or renames the interface, however it ends; a failed call leaves the
    object usable for the next. *)
Theorem transport_keeps_condition :
  forall (native : byteorder) (fuel : nat) (command : str) (arg : string)
         (NumPoints : Z),
    always (same named_condition) (write command)
    /\ always (same named_condition) (read fuel)
    /\ always (same named_condition) (ask fuel command)
    /\ always (same named_condition)
               (read_TRACE_REAL native fuel arg NumPoints)
    /\ always (same named_condition) read_TRACE_ASCII.
Proof.
  intros native fuel command arg NumPoints. repeat split.
  - apply same_write;
      auto using named_condition_object, sendall_keeps_condition,
        visa_write_keeps_condition.
  - apply read_keeps_condition.
  - apply ask_keeps_condition.
  - apply read_TRACE_REAL_keeps_condition.
  - apply same_read_TRACE_ASCII;
      auto using named_condition_object, visa_values_keeps_condition.
Qed.

(* ------------------------------------------------------------------ *)
(** ** read on the bus *)

Lemma read_gpib_skips (k : nat) :
  forall (fuel : nat) (self : BOSA) (v : visa) (s : str) (rest : list reply),
    instrument self = Some (Visa v) -> visa_closed v = false ->
    replies v = repeat (ReplyText []) k ++ ReplyText s :: rest ->
    s <> [] -> (k < fuel)%nat ->
    read_gpib fuel self
    = Return s (set_instrument self (Visa (with_replies v rest))).
Proof.
  induction k as [|k IH]; intros fuel self v s rest Hi Hopen Hrep Hs Hfuel;
    (destruct fuel as [|fuel]; [lia|]);
    cbn [read_gpib]; unfold bind, try_except, on_visa; rewrite Hi;
    unfold visa_read, next_reply; rewrite Hopen, Hrep; cbn [repeat app].
  - destruct s; [congruence | reflexivity].
  - rewrite (IH fuel _ (with_replies v (repeat (ReplyText []) k
                                         ++ ReplyText s :: rest)) s rest);
      auto; lia.
Qed.

(** X4.  On the bus, [read] makes one [read()] per turn, passes over empty
    payloads and returns the first payload that is not empty, as it is,
    newline or not; the answers after it are left for the next call. *)
Theorem read_gpib_first_payload :
  forall (fuel : nat) (self : BOSA) (v : visa) (k : nat) (s : str)
         (rest : list reply),
    lower (interfaceType self) = "gpib"%string ->
    instrument self = Some (Visa v) -> visa_closed v = false ->
    replies v = repeat (ReplyText []) k ++ ReplyText s :: rest ->
    s <> [] -> (k < fuel)%nat ->
    exists self',
      read fuel self = Return s self'
      /\ incoming self' = ([], rest)
      /\ stdout self' = stdout self.
Proof.
  intros fuel self v k s rest Hgpib Hi Hopen Hrep Hs Hfuel.
  unfold read. run_as Hgpib.
  match goal with
  | |- context [read_gpib fuel ?st] =>
    rewrite (read_gpib_skips k fuel st v s rest) by assumption
  end.
  run. eexists. repeat split.
Qed.

Lemma read_gpib_first_payload_witness :
  exists self',
    read 3 gpib_slow = Return (lit "CA") self'
    /\ incoming self' = ([], [ReplyText (lit "later")])
    /\ stdout self' = stdout gpib_slow.
Proof.
  apply (read_gpib_first_payload 3 gpib_slow
           (open_resource [ReplyText []; ReplyText []; ReplyText (lit "CA");
                           ReplyText (lit "later")])
           2 (lit "CA") [ReplyText (lit "later")]);
    try reflexivity.
  - discriminate.
  - lia.
Defined.

(* ------------------------------------------------------------------ *)
(** ** read on the socket when no newline comes *)

Lemma sock_recv_silent (bufsize : Z) (s : socket) :
  sock_closed s = false -> 0 < bufsize -> List.concat (inbox s) = [] ->
  at_end s = Silent ->
  sock_recv bufsize s = (inl TimeoutError, s).
Proof.
  intros Hopen Hpos Hdata Hend.
  destruct (take_chunk_spec (Z.to_nat bufsize) (inbox s)) as (Hcat & _ & _);
    [lia|].
  unfold sock_recv. rewrite Hopen, Hend.
  destruct (Z.ltb_spec bufsize 0); [lia|].
  destruct (Z.eqb_spec bufsize 0); [lia|].
  destruct (take_chunk (Z.to_nat bufsize) (inbox s)) as [c rest].
  cbn [fst snd] in *. rewrite Hdata in Hcat.
  symmetry in Hcat. apply app_eq_nil in Hcat as [-> _]. reflexivity.
Qed.

Lemma on_socket_raises {A} (method : string)
    (f : socket -> (exn + A) * socket) (self : BOSA) (s s' : socket) (e : exn) :
  instrument self = Some (Socket s) -> f s = (inl e, s') ->
  on_socket method f self = Raise e (set_instrument self (Socket s')).
Proof. intros Hi Hf. unfold on_socket. now rewrite Hi, Hf. Qed.

Lemma read_lan_starved (fuel : nat) :
  forall (acc : str) (self : BOSA) (s : socket),
    instrument self = Some (Socket s) -> sock_closed s = false ->
    at_end s = PeerClosed ->
    ascii_bytes (List.concat (inbox s)) ->
    contains NL (map byte_val (List.concat (inbox s))) = false ->
    contains NL acc = false ->
    read_lan fuel acc self = OutOfFuel.
Proof.
  induction fuel as [|fuel IH]; intros acc self s Hi Hopen Hend Hascii Hnl Hacc;
    [reflexivity|].
  cbn [read_lan]. unfold bind at 1. unfold try_except. unfold bind at 1.
  destruct (List.concat (inbox s)) as [|b content] eqn:Hdata.
  - destruct (sock_recv_eof 115200 s) as (rest & Hr & Hrest); auto; [lia|].
    rewrite (on_socket_returns _ _ self s _ _ Hi Hr).
    unfold bind, decoded. cbn [decode ret]. rewrite app_nil_r, Hacc.
    apply (IH acc _ (logged s (Recv 115200 []) rest)); auto;
      cbn [inbox logged]; rewrite Hrest; auto; constructor.
  - destruct (sock_recv_data 115200 s) as (c & rest & Hr & Hc & _ & Hcat);
      auto; [lia | congruence |].
    rewrite (on_socket_returns _ _ self s _ c Hi Hr).
    rewrite Hdata in Hcat. rewrite Hcat in Hascii, Hnl.
    apply ascii_bytes_app in Hascii as [Hac Har].
    rewrite map_app, contains_app in Hnl.
    apply orb_false_elim in Hnl as [Hnc Hnr].
    unfold bind at 1. unfold decoded. rewrite (decode_ascii c Hac).
    cbn [ret bind]. rewrite contains_app, Hacc, Hnc. cbn [orb].
    apply (IH _ _ (logged s (Recv 115200 c) rest)); auto.
    now rewrite contains_app, Hacc, Hnc.
Qed.

(** X5.  On a socket whose peer has closed without a newline in what it
    sent, [read] neither returns nor raises: [recv] keeps giving empty
    bytes, the text never gains a newline, and the loop goes round for as
    long as it is run. *)
Theorem read_spins_after_close :
  forall (fuel : nat) (self : BOSA) (s : socket),
    lower (interfaceType self) = "lan"%string ->
    instrument self = Some (Socket s) -> sock_closed s = false ->
    at_end s = PeerClosed ->
    ascii_bytes (List.concat (inbox s)) ->
    contains NL (map byte_val (List.concat (inbox s))) = false ->
    read fuel self = OutOfFuel.
Proof.
  intros fuel self s Hlan Hi Hopen Hend Hascii Hnl.
  unfold read. run_as Hlan.
  match goal with
  | |- context [read_lan fuel [] ?st] =>
    now rewrite (read_lan_starved fuel [] st s)
  end.
Qed.

Lemma read_spins_after_close_witness :
  read 1000 (lan_object [wire_bytes (lit "CA")] PeerClosed) = OutOfFuel.
Proof.
  apply (read_spins_after_close 1000
           (lan_object [wire_bytes (lit "CA")] PeerClosed)
           (open_socket [wire_bytes (lit "CA")] PeerClosed));
    try reflexivity.
  repeat constructor; vm_compute; reflexivity.
Defined.

Lemma read_lan_times_out (fuel : nat) :
  forall (acc : str) (self : BOSA) (s : socket),
    instrument self = Some (Socket s) -> sock_closed s = false ->
    at_end s = Silent ->
    ascii_bytes (List.concat (inbox s)) ->
    contains NL (map byte_val (List.concat (inbox s))) = false ->
    contains NL acc = false ->
    (List.length (List.concat (inbox s)) < fuel)%nat ->
    exists s',
      read_lan fuel acc self
      = Raise TimeoutError
          {| interfaceType := interfaceType self;
             instrument := Some (Socket s');
             log := log self ++ [(ERROR, lit "Could not read data")];
             stdout := stdout self ++ [ExnLine TimeoutError];
             history := history self |}
      /\ List.concat (inbox s') = [].
Proof.
  induction fuel as [|fuel IH];
    intros acc self s Hi Hopen Hend Hascii Hnl Hacc Hfuel; [lia|].
  cbn [read_lan]. unfold bind at 1. unfold try_except. unfold bind at 1.
  destruct (List.concat (inbox s)) as [|b content] eqn:Hdata.
  - rewrite (on_socket_raises _ _ self s s TimeoutError Hi
               (sock_recv_silent 115200 s Hopen ltac:(lia) Hdata Hend)).
    run. exists s. split; [reflexivity | exact Hdata].
  - destruct (sock_recv_data 115200 s) as (c & rest & Hr & Hc & _ & Hcat);
      auto; [lia | congruence |].
    rewrite (on_socket_returns _ _ self s _ c Hi Hr).
    rewrite Hdata in Hcat. rewrite Hcat in Hascii, Hnl.
    apply ascii_bytes_app in Hascii as [Hac Har].
    rewrite map_app, contains_app in Hnl.
    apply orb_false_elim in Hnl as [Hnc Hnr].
    unfold bind at 1. unfold decoded. rewrite (decode_ascii c Hac).
    cbn [ret bind]. rewrite contains_app, Hacc, Hnc. cbn [orb].
    destruct (IH (acc ++ map byte_val c)
                (set_instrument self (Socket (logged s (Recv 115200 c) rest)))
                (logged s (Recv 115200 c) rest))
      as (s' & Hrun & Hleft); auto.
    { now rewrite contains_app, Hacc, Hnc. }
    { cbn [inbox logged]. rewrite Hcat, length_app in Hfuel.
      destruct c; [congruence | cbn in Hfuel; lia]. }
    exists s'. split; [exact Hrun | exact Hleft].
Qed.

(** X6.  On a socket whose peer falls silent before any newline, [read]
    consumes what was sent, then the timeout of [recv] is logged as an
    error, printed and raised to the caller; the text received so far is
    dropped and nothing is left to read. *)
Theorem read_times_out :
  forall (fuel : nat) (self : BOSA) (s : socket),
    lower (interfaceType self) = "lan"%string ->
    instrument self = Some (Socket s) -> sock_closed s = false ->
    at_end s = Silent ->
    ascii_bytes (List.concat (inbox s)) ->
    contains NL (map byte_val (List.concat (inbox s))) = false ->
    (List.length (List.concat (inbox s)) < fuel)%nat ->
    exists self' s',
      read fuel self = Raise TimeoutError self'
      /\ instrument self' = Some (Socket s')
      /\ List.concat (inbox s') = []
      /\ stdout self' = stdout self ++ [ExnLine TimeoutError]
      /\ log self'
         = log self ++ [(DEBUG, lit "Reading data using LAN interface...");
                        (ERROR, lit "Could not read data")].
Proof.
  intros fuel self s Hlan Hi Hopen Hend Hascii Hnl Hfuel.
  unfold read. run_as Hlan.
  match goal with
  | |- context [read_lan fuel [] ?st] =>
    destruct (read_lan_times_out fuel [] st s) as (s' & Hrun & Hleft); auto
  end.
  rewrite Hrun. run. eexists _, s'. repeat split; auto.
  now rewrite <- app_assoc.
Qed.

Lemma read_times_out_witness :
  exists self' s',
    read 5 (lan_object [wire_bytes (lit "CA")] Silent)
    = Raise TimeoutError self'
    /\ instrument self' = Some (Socket s')
    /\ List.concat (inbox s') = []
    /\ stdout self' = [] ++ [ExnLine TimeoutError]
    /\ log self'
       = [] ++ [(DEBUG, lit "Reading data using LAN interface...");
                (ERROR, lit "Could not read data")].
Proof.
  apply (read_times_out 5 (lan_object [wire_bytes (lit "CA")] Silent)
           (open_socket [wire_bytes (lit "CA")] Silent));
    try reflexivity.
  - repeat constructor; vm_compute; reflexivity.
  - cbn. lia.
Defined.

Lemma read_lan_undecodable (pre : list bytes) :
  forall (fuel : nat) (acc : str) (self : BOSA) (s : socket)
         (bad : bytes) (post : list bytes) (tp : str),
    instrument self = Some (Socket s) -> sock_closed s = false ->
    inbox s = pre ++ bad :: post ->
    Forall whole (pre ++ [bad]) ->
    decode_all pre = Some tp -> decode bad = None ->
    contains NL (acc ++ tp) = false ->
    (List.length pre < fuel)%nat ->
    exists s',
      read_lan fuel acc self
      = Raise UnicodeDecodeError
          {| interfaceType := interfaceType self;
             instrument := Some (Socket s');
             log := log self ++ [(ERROR, lit "Could not read data")];
             stdout := stdout self ++ [ExnLine UnicodeDecodeError];
             history := history self |}
      /\ inbox s' = post.
Proof.
  induction pre as [|f pre IH];
    intros fuel acc self s bad post tp Hi Hopen Hin Hw Hdp Hdb Hacc Hfuel;
    (destruct fuel as [|fuel]; [cbn in Hfuel; lia|]);
    cbn [read_lan]; unfold bind at 1; unfold try_except; unfold bind at 1.
  - cbn [app] in *. inversion Hw as [|? ? Hwb _]; subst.
    rewrite (on_socket_returns _ _ self s _ _ Hi
               (sock_recv_whole s bad post Hopen Hin Hwb)).
    unfold bind, decoded. rewrite Hdb. run.
    eexists. split; reflexivity.
  - cbn [app] in *. inversion Hw as [|? ? Hwf Hw']; subst.
    cbn [decode_all] in Hdp.
    destruct (decode f) as [tf|] eqn:Hdf; [|discriminate].
    destruct (decode_all pre) as [tp'|] eqn:Hdp'; [|discriminate].
    apply some_eq in Hdp. subst tp.
    rewrite (on_socket_returns _ _ self s _ _ Hi
               (sock_recv_whole s f (pre ++ bad :: post) Hopen Hin Hwf)).
    unfold bind at 1. unfold decoded. rewrite Hdf. cbn [ret bind].
    rewrite app_assoc in Hacc.
    assert (Hf : contains NL (acc ++ tf) = false).
    { rewrite contains_app in Hacc. now apply orb_false_elim in Hacc. }
    rewrite Hf.
    destruct (IH fuel (acc ++ tf)
                (set_instrument self
                   (Socket (logged s (Recv 115200 f) (pre ++ bad :: post))))
                (logged s (Recv 115200 f) (pre ++ bad :: post))
                bad post tp')
      as (s' & Hrun & Hin'); auto.
    { cbn in Hfuel. lia. }
    exists s'. split; [exact Hrun | exact Hin'].
Qed.

(** X7.  On a socket, each chunk is decoded by itself: when a chunk arrives
    that is not valid UTF-8 on its own (a character cut by the fragment
    boundary, say) before any newline, [read] logs, prints and raises
    UnicodeDecodeError; the text of the chunks before it is lost and the
    chunk is gone from the channel. *)
Theorem read_undecodable_chunk :
  forall (fuel : nat) (self : BOSA) (s : socket) (pre : list bytes)
         (bad : bytes) (post : list bytes) (tp : str),
    lower (interfaceType self) = "lan"%string ->
    instrument self = Some (Socket s) -> sock_closed s = false ->
    inbox s = pre ++ bad :: post ->
    Forall whole (pre ++ [bad]) ->
    decode_all pre = Some tp -> decode bad = None ->
    contains NL tp = false ->
    (List.length pre < fuel)%nat ->
    exists self',
      read fuel self = Raise UnicodeDecodeError self'
      /\ incoming self' = (post, [])
      /\ stdout self' = stdout self ++ [ExnLine UnicodeDecodeError].
Proof.
  intros fuel self s pre bad post tp Hlan Hi Hopen Hin Hw Hdp Hdb Htp Hfuel.
  unfold read. run_as Hlan.
  match goal with
  | |- context [read_lan fuel [] ?st] =>
    destruct (read_lan_undecodable pre fuel [] st s bad post tp)
      as (s' & Hrun & Hin'); auto
  end.
  rewrite Hrun. run. eexists. repeat split.
  unfold incoming. cbn [instrument]. now rewrite Hin'.
Qed.

Lemma read_undecodable_chunk_witness :
  exists self',
    read 2 (lan_object [wire_bytes (lit "caf"); [xc3]; [xa9; x0a]] Silent)
    = Raise UnicodeDecodeError self'
    /\ incoming self' = ([[xa9; x0a]], [])
    /\ stdout self' = [] ++ [ExnLine UnicodeDecodeError].
Proof.
  apply (read_undecodable_chunk 2
           (lan_object [wire_bytes (lit "caf"); [xc3]; [xa9; x0a]] Silent)
           (open_socket [wire_bytes (lit "caf"); [xc3]; [xa9; x0a]] Silent)
           [wire_bytes (lit "caf")] [xc3] [[xa9; x0a]] (lit "caf"));
    try reflexivity.
  - repeat constructor; try discriminate; vm_compute; discriminate.
  - cbn. lia.
Defined.

(* ------------------------------------------------------------------ *)
(** ** ask *)

(** X8.  When the write of [ask] fails, on a socket whose [sendall] raises
    or on a bus whose [write] does, the exception is logged, printed and
    raised to the caller and [ask] does not go on to read: the only call
    made is the write, and what the handle had to deliver is still there. *)
Theorem ask_stops_when_write_fails :
  forall (fuel : nat) (command : str) (self : BOSA) (e : exn),
    (lower (interfaceType self) = "lan"%string
     /\ (exists s data, instrument self = Some (Socket s)
                        /\ sock_closed s = false
                        /\ send_fault s = Some e
                        /\ encode (command ++ CRLF) = Some data))
    \/ (lower (interfaceType self) = "gpib"%string
        /\ (exists v, instrument self = Some (Visa v)
                      /\ visa_closed v = false /\ write_fault v = Some e)) ->
    exists self',
      ask fuel command self = Raise e self'
      /\ history self' = history self ++ [OpWrite command]
      /\ incoming self' = incoming self
      /\ stdout self' = stdout self ++ [ExnLine e].
Proof.
  intros fuel command self e
         [(Hlan & s & data & Hi & Hopen & Hfault & Henc)
         | (Hgpib & v & Hi & Hopen & Hfault)].
  - unfold ask, write, encoded, on_socket, sock_sendall. run_as Hlan.
    rewrite Henc. run. rewrite Hi. cbv beta match. rewrite Hopen, Hfault.
    run. eexists. repeat split;
      unfold incoming, wire; cbn [instrument set_instrument]; now rewrite Hi.
  - unfold ask, write, on_visa, visa_write. run_as Hgpib.
    rewrite Hi. cbv beta match. rewrite Hopen, Hfault.
    run. eexists. repeat split;
      unfold incoming, wire; cbn [instrument set_instrument]; now rewrite Hi.
Qed.

Lemma ask_stops_when_write_fails_witness :
  exists self',
    ask 1 (lit "*IDN?") lan_send_fails = Raise OSError self'
    /\ history self' = history lan_send_fails ++ [OpWrite (lit "*IDN?")]
    /\ incoming self' = incoming lan_send_fails
    /\ stdout self' = stdout lan_send_fails ++ [ExnLine OSError].
Proof.
  apply (ask_stops_when_write_fails 1 (lit "*IDN?") lan_send_fails OSError).
  left. split; [reflexivity|].
  eexists _, _. repeat split.
Defined.

Lemma read_lan_newline (fuel : nat) :
  forall (acc : str) (self : BOSA) (m : str) (self' : BOSA),
    read_lan fuel acc self = Return m self' -> contains NL m = true.
Proof.
  induction fuel as [|fuel IH]; intros acc self m self' H;
    cbn [read_lan] in H; [discriminate H|].
  apply bind_returns in H as (a & self1 & _ & H).
  destruct (contains NL a) eqn:E.
  - injection H as <- _. exact E.
  - eapply IH, H.
Qed.

Lemma read_newline (fuel : nat) (self : BOSA) (m : str) (self' : BOSA) :
  lower (interfaceType self) = "lan"%string ->
  read fuel self = Return m self' -> contains NL m = true.
Proof.
  intros Hlan H. unfold read in H.
  apply bind_returns in H as (? & self1 & H1 & H).
  apply bind_returns in H as (lan & self2 & H2 & H).
  assert (Hl : lan = true /\ interfaceType self2 = interfaceType self).
  { unfold note in H1. injection H1 as _ <-.
    unfold kind_is in H2. cbn [interfaceType] in H2.
    injection H2 as <- <-. now rewrite Hlan. }
  destruct Hl as [-> _].
  apply bind_returns in H as (m' & self3 & H3 & H).
  apply bind_returns in H3 as (? & self4 & _ & H3).
  apply bind_returns in H3 as (m'' & self5 & H5 & H3).
  apply bind_returns in H3 as (? & self6 & _ & H3).
  injection H3 as -> _.
  apply bind_returns in H as (? & self7 & _ & H).
  injection H as <- _.
  eapply read_lan_newline, H5.
Qed.

(** X9.  On a socket, a text that [read] returns always contains a newline;
    so does every answer of [ask], and [get_mode()] never equals ["MAIN"],
    the bare name the acquisition scripts compare it with. *)
Theorem lan_answers_keep_their_newline :
  forall (fuel : nat) (self : BOSA),
    lower (interfaceType self) = "lan"%string ->
    (forall m self', read fuel self = Return m self' -> contains NL m = true)
    /\ (forall command m self',
           ask fuel command self = Return m self' -> contains NL m = true)
    /\ (forall v self',
           get_mode fuel self = Return v self' ->
           py_eq v (PStr (lit "MAIN")) = false).
Proof.
  intros fuel self Hlan.
  assert (Hask : forall command m self',
             ask fuel command self = Return m self' -> contains NL m = true).
  { intros command m self' H. unfold ask in H.
    apply bind_returns in H as (? & self1 & H1 & H).
    apply bind_returns in H as (m' & self2 & H2 & H).
    injection H as <- _.
    pose proof (same_write named_condition named_condition_object
                  sendall_keeps_condition visa_write_keeps_condition
                  command self) as Hk.
    rewrite H1 in Hk. injection Hk as Hname _.
    eapply read_newline, H2. now rewrite Hname. }
  repeat split; auto.
  - intros m self'. now apply read_newline.
  - intros v self' H. unfold get_mode, return_ask in H.
    apply bind_returns in H as (m & self1 & H1 & H).
    injection H as <- _. apply Hask in H1.
    cbn [py_eq]. unfold str_eqb.
    destruct (list_eq_dec Z.eq_dec m (lit "MAIN")) as [-> | _];
      [discriminate H1 | reflexivity].
Qed.

Lemma lan_answers_keep_their_newline_witness :
  exists v self',
    get_mode 1 (lan_object [wire_bytes (lit "MAIN" ++ CRLF)] Silent)
    = Return v self'
    /\ py_eq v (PStr (lit "MAIN")) = false.
Proof.
  eexists _, _. split.
  - vm_compute. reflexivity.
  - refine (proj2 (proj2 (lan_answers_keep_their_newline 1
                            (lan_object [wire_bytes (lit "MAIN" ++ CRLF)]
                                        Silent) eq_refl)) _ _ _).
    vm_compute. reflexivity.
Defined.

(** X10.  Writing and reading are inverse on the socket: when the peer
    sends back, in one fragment, the very bytes [write(command)] sent, [ask]
    returns the command with its ["\r\n"], whatever characters the command
    is made of, provided it holds no newline of its own. *)
Theorem ask_echo_round_trip :
  forall (fuel : nat) (command : str) (data : bytes) (self : BOSA)
         (s : socket) (rest : list bytes),
    lower (interfaceType self) = "lan"%string ->
    instrument self = Some (Socket s) -> sock_closed s = false ->
    send_fault s = None ->
    encode (command ++ CRLF) = Some data ->
    contains NL command = false ->
    inbox s = data :: rest ->
    Z.of_nat (List.length data) <= 115200 ->
    (0 < fuel)%nat ->
    exists self',
      ask fuel command self = Return (command ++ CRLF) self'
      /\ wire self' = wire self ++ data
      /\ incoming self' = (rest, []).
Proof.
  intros fuel command data self s rest
         Hlan Hi Hopen Hfault Henc Hnl Hin Hlen Hfuel.
  unfold ask, bind.
  rewrite (write_lan command self s data) by assumption.
  assert (Hdata : data <> []).
  { intros ->. apply decode_encode in Henc. cbn in Henc.
    destruct command; discriminate Henc. }
  assert (Hw : Forall whole ([] ++ [data]))
    by (repeat constructor; assumption).
  assert (Hdec : decode data = Some (command ++ CRLF))
    by now apply decode_encode.
  assert (Hnl' : contains NL (command ++ CRLF) = true)
    by (rewrite contains_app, Hnl; reflexivity).
  match goal with
  | |- context [read fuel ?st] =>
    destruct (read_fragments fuel st (logged s (Sendall data) (inbox s))
                [] data rest [] (command ++ CRLF)
                Hlan eq_refl Hopen Hin Hw eq_refl Hdec eq_refl Hnl' Hfuel)
      as (self' & s' & Hrun & Hi' & Hin' & Hcalls)
  end.
  cbn [app] in Hrun. rewrite Hrun. exists self'. split; [reflexivity|].
  unfold wire, incoming. rewrite Hi, Hi', Hin', Hcalls.
  cbn [calls logged app map]. rewrite !sent_app. cbn [sent].
  now rewrite !app_nil_r.
Qed.

Lemma ask_echo_round_trip_witness :
  exists self',
    ask 1 [233; 8364] (lan_object [[xc3; xa9; xe2; x82; xac; x0d; x0a]] Silent)
    = Return ([233; 8364] ++ CRLF) self'
    /\ wire self'
       = wire (lan_object [[xc3; xa9; xe2; x82; xac; x0d; x0a]] Silent)
         ++ [xc3; xa9; xe2; x82; xac; x0d; x0a]
    /\ incoming self' = ([], []).
Proof.
  apply (ask_echo_round_trip 1 [233; 8364]
           [xc3; xa9; xe2; x82; xac; x0d; x0a]
           (lan_object [[xc3; xa9; xe2; x82; xac; x0d; x0a]] Silent)
           (open_socket [[xc3; xa9; xe2; x82; xac; x0d; x0a]] Silent) []);
    try reflexivity.
  - cbn. lia.
  - lia.
Defined.

(* ------------------------------------------------------------------ *)
(** ** The binary trace, further *)

(** X11.  A negative point count makes the byte count negative; on a
    socket the first [recv] refuses it, and [read_TRACE_REAL] logs, prints
    and raises ValueError without taking anything off the channel. *)
Theorem read_TRACE_REAL_negative_count :
  forall (native : byteorder) (fuel : nat) (arg : string) (NumPoints : Z)
         (self : BOSA) (s : socket),
    lower (interfaceType self) = "lan"%string ->
    instrument self = Some (Socket s) -> sock_closed s = false ->
    NumPoints < 0 -> (0 < fuel)%nat ->
    exists self',
      read_TRACE_REAL native fuel arg NumPoints self = Raise ValueError self'
      /\ incoming self' = incoming self
      /\ stdout self' = stdout self ++ [ExnLine ValueError].
Proof.
  intros native fuel arg NumPoints self s Hlan Hi Hopen Hneg Hfuel.
  destruct fuel as [|fuel]; [lia|].
  unfold read_TRACE_REAL. run_as Hlan. cbn [recv_trace].
  unfold bind at 1. unfold try_except. unfold bind at 1.
  rewrite recv_request.
  assert (Hrecv : sock_recv (Z.min (NumPoints * 2 * 8) 19200) s
                  = (inl ValueError, s)).
  { unfold sock_recv. rewrite Hopen.
    destruct (Z.ltb_spec (Z.min (NumPoints * 2 * 8) 19200) 0);
      [reflexivity | lia]. }
  match goal with
  | |- context [on_socket "recv" ?g ?st] =>
    rewrite (on_socket_raises "recv" g st s s ValueError Hi Hrecv)
  end.
  run. eexists. repeat split.
  unfold incoming. cbn [instrument set_instrument]. now rewrite Hi.
Qed.

Lemma read_TRACE_REAL_negative_count_witness :
  exists self',
    read_TRACE_REAL LittleEndian 1 "LAN" (-1)
      (lan_object [one_le; two_le] Silent) = Raise ValueError self'
    /\ incoming self' = incoming (lan_object [one_le; two_le] Silent)
    /\ stdout self'
       = stdout (lan_object [one_le; two_le] Silent) ++ [ExnLine ValueError].
Proof.
  apply (read_TRACE_REAL_negative_count LittleEndian 1 "LAN" (-1)
           (lan_object [one_le; two_le] Silent)
           (open_socket [one_le; two_le] Silent));
    try reflexivity; lia.
Defined.

(** X12.  A binary trace and the text line that follows it on the same
    socket are told apart by count alone: however the stream is cut into
    fragments, [read_TRACE_REAL] takes exactly the [N*16] bytes of the trace
    and the [read] that follows returns the line whole. *)
Theorem trace_then_line :
  forall (native : byteorder) (N : nat) (buf body : bytes) (self : BOSA)
         (s : socket) (fuel : nat) (arg : string),
    lower (interfaceType self) = "lan"%string ->
    instrument self = Some (Socket s) -> sock_closed s = false ->
    List.concat (inbox s) = buf ++ body ++ [x0a] ->
    List.length buf = (N * 16)%nat ->
    ascii_bytes body ->
    contains NL (map byte_val body) = false ->
    (N * 16 < fuel)%nat -> (List.length body < fuel)%nat ->
    exists self',
      (t <- read_TRACE_REAL native fuel arg (Z.of_nat N) ;;
       line <- read fuel ;;
       ret (t, line)) self
      = Return (map (pair_at native buf) (seq 0 N),
                map byte_val (body ++ [x0a])) self'.
Proof.
  intros native N buf body self s fuel arg
         Hlan Hi Hopen Hin Hlen Hascii Hnl Hf1 Hf2.
  destruct (read_TRACE_REAL_lan native fuel arg N self s)
    as (self1 & s1 & cs & Hrun & Hi1 & Hrest & _); auto.
  { rewrite Hin, length_app. lia. }
  pose proof (read_TRACE_REAL_keeps_condition native fuel arg (Z.of_nat N) self)
    as Hk.
  rewrite Hrun in Hk. unfold same, named_condition, condition in Hk.
  rewrite Hi, Hi1 in Hk. injection Hk as Hname Hclosed _ _.
  rewrite Hin, <- Hlen, firstn_app, Nat.sub_diag, firstn_all in Hrun.
  rewrite Hin, <- Hlen, skipn_app, Nat.sub_diag, skipn_all in Hrest.
  cbn [firstn skipn app] in Hrun, Hrest. rewrite app_nil_r in Hrun.
  destruct (read_ascii_stream fuel self1 s1 body) as (self2 & Hread); auto.
  { now rewrite Hname. }
  { now rewrite Hclosed. }
  unfold bind. rewrite Hrun, Hread. now exists self2.
Qed.

Lemma trace_then_line_witness :
  exists self',
    (t <- read_TRACE_REAL LittleEndian 20 "LAN" (Z.of_nat 1) ;;
     line <- read 20 ;;
     ret (t, line))
      (lan_object [one_le ++ two_le ++ wire_bytes (lit "OK" ++ CRLF)] Silent)
    = Return (map (pair_at LittleEndian (one_le ++ two_le)) (seq 0 1),
              map byte_val (wire_bytes (lit "OK" ++ [13]) ++ [x0a])) self'.
Proof.
  apply (trace_then_line LittleEndian 1 (one_le ++ two_le)
           (wire_bytes (lit "OK" ++ [13]))
           (lan_object [one_le ++ two_le ++ wire_bytes (lit "OK" ++ CRLF)]
                       Silent)
           (open_socket [one_le ++ two_le ++ wire_bytes (lit "OK" ++ CRLF)]
                        Silent) 20 "LAN");
    try reflexivity.
  - repeat constructor; vm_compute; reflexivity.
  - cbn. lia.
  - cbn. lia.
Defined.

(* ------------------------------------------------------------------ *)
(** ** What a returned trace is made of *)





(* ------------------------------------------------------------------ *)
(** ** Construction and teardown *)

Lemma lower_upper_char (a : ascii) : lower_char (upper_char a) = lower_char a.
Proof. destruct a as [[] [] [] [] [] [] [] []]; reflexivity. Qed.

Lemma upper_lower_char (a : ascii) : upper_char (lower_char a) = upper_char a.
Proof. destruct a as [[] [] [] [] [] [] [] []]; reflexivity. Qed.

Lemma lower_upper (s : string) : lower (upper s) = lower s.
Proof.
  unfold lower, upper. induction s as [|a s IH]; [reflexivity|].
  cbn [string_map]. now rewrite IH, lower_upper_char.
Qed.

Lemma upper_lower (s : string) : upper (lower s) = upper s.
Proof.
  unfold lower, upper. induction s as [|a s IH]; [reflexivity|].
  cbn [string_map]. now rewrite IH, upper_lower_char.
Qed.

(** X13.  An interface name in ASCII that is neither LAN nor GPIB, in any
    case of letters, makes [__init__] log an error and raise before any handle is
    made or any command sent; tearing the rejected object down then does
    nothing at all. *)
Theorem init_rejects_unknown_interface :
  forall (fuel : nat) (name : string) (fresh : socket) (refusal : option exn)
         (resource : exn + visa) (IDN Reset : bool) (world : BOSA),
    is_ascii (lit name) ->
    lower name <> "lan"%string -> lower name <> "gpib"%string ->
    let rejected :=
      {| interfaceType := name; instrument := None;
         log := log world ++ [(ERROR, lit "Interface Type " ++ lit name
                                      ++ lit " not valid")];
         stdout := stdout world; history := history world |} in
    __init__ fuel name fresh refusal resource IDN Reset world
    = Raise (LibraryError None) rejected
    /\ __del__ rejected = Return tt rejected.
Proof.
  intros fuel name fresh refusal resource IDN Reset world _ Hlan Hgpib rejected.
  apply String.eqb_neq in Hlan as Elan. apply String.eqb_neq in Hgpib as Egpib.
  split.
  - unfold __init__. run. rewrite Elan. run. rewrite Egpib. reflexivity.
  - unfold __del__, try_except. cbn [interfaceType rejected].
    destruct (String.eqb_spec (upper name) "LAN") as [E | _].
    { exfalso. apply Hlan. now rewrite <- lower_upper, E. }
    destruct (String.eqb_spec (upper name) "GPIB") as [E | _].
    { exfalso. apply Hgpib. now rewrite <- lower_upper, E. }
    reflexivity.
Qed.

Lemma init_rejects_unknown_interface_witness :
  __init__ 1 "USB" (open_socket [] Silent) None (inl VisaIOError) true true
           quiet_world
  = Raise (LibraryError None)
      {| interfaceType := "USB"; instrument := None;
         log := log quiet_world
                ++ [(ERROR, lit "Interface Type " ++ lit "USB"
                            ++ lit " not valid")];
         stdout := stdout quiet_world; history := history quiet_world |}
  /\ __del__
       {| interfaceType := "USB"; instrument := None;
          log := log quiet_world
                 ++ [(ERROR, lit "Interface Type " ++ lit "USB"
                             ++ lit " not valid")];
          stdout := stdout quiet_world; history := history quiet_world |}
     = Return tt
         {| interfaceType := "USB"; instrument := None;
            log := log quiet_world
                   ++ [(ERROR, lit "Interface Type " ++ lit "USB"
                               ++ lit " not valid")];
            stdout := stdout quiet_world; history := history quiet_world |}.
Proof.
  apply (init_rejects_unknown_interface 1 "USB" (open_socket [] Silent) None
           (inl VisaIOError) true true quiet_world);
    [repeat constructor; vm_compute; discriminate | discriminate..].
Defined.

(** X14.  When [open_resource] fails, [__init__] logs, prints and raises
    its exception and [instrument] is never assigned; the destructor of
    that object, finding no handle, ends in AttributeError from its own
    handler, with nothing more logged. *)
Theorem init_gpib_unopened :
  forall (fuel : nat) (name : string) (fresh : socket) (refusal : option exn)
         (e : exn) (IDN Reset : bool) (world : BOSA),
    lower name = "gpib"%string ->
    exists unopened,
      __init__ fuel name fresh refusal (inl e) IDN Reset world
      = Raise e unopened
      /\ instrument unopened = None
      /\ stdout unopened = stdout world ++ [ExnLine e]
      /\ history unopened = history world
      /\ __del__ unopened = Raise (AttributeError "message") unopened.
Proof.
  intros fuel name fresh refusal e IDN Reset world Hgpib.
  assert (Hup : upper name = "GPIB"%string)
    by now rewrite <- upper_lower, Hgpib.
  eexists. split; [|split; [|split; [|split]]].
  - unfold __init__. run_as Hgpib. reflexivity.
  - reflexivity.
  - reflexivity.
  - reflexivity.
  - unfold __del__, try_except. cbn [interfaceType]. rewrite Hup. reflexivity.
Qed.

Lemma init_gpib_unopened_witness :
  exists unopened,
    __init__ 1 "GPIB" (open_socket [] Silent) None (inl VisaIOError) true false
             quiet_world
    = Raise VisaIOError unopened
    /\ instrument unopened = None
    /\ stdout unopened = stdout quiet_world ++ [ExnLine VisaIOError]
    /\ history unopened = history quiet_world
    /\ __del__ unopened = Raise (AttributeError "message") unopened.
Proof.
  apply (init_gpib_unopened 1 "GPIB" (open_socket [] Silent) None VisaIOError
           true false quiet_world).
  reflexivity.
Defined.

(** X15.  When [connect] is refused, the exception is logged and printed
    twice, once by [connectLan] and once by [__init__], and raised; the
    socket made for the attempt stays assigned, so the destructor of that
    object closes it and returns. *)
Theorem init_lan_refused :
  forall (fuel : nat) (name : string) (fresh : socket) (e : exn)
         (resource : exn + visa) (IDN Reset : bool) (world : BOSA),
    lower name = "lan"%string ->
    sock_closed fresh = false -> sock_close_fault fresh = None ->
    exists refused closed,
      __init__ fuel name fresh (Some e) resource IDN Reset world
      = Raise e refused
      /\ instrument refused = Some (Socket fresh)
      /\ stdout refused = stdout world ++ [ExnLine e; ExnLine e]
      /\ history refused = history world
      /\ __del__ refused = Return tt closed
      /\ condition closed = Some (true, send_fault fresh, None).
Proof.
  intros fuel name fresh e resource IDN Reset world Hlan Hopen Hfault.
  assert (Hup : upper name = "LAN"%string)
    by now rewrite <- upper_lower, Hlan.
  eexists _, _. split; [|split; [|split; [|split; [|split]]]].
  - unfold __init__, connectLan, assign_instrument, on_socket.
    run_as Hlan. reflexivity.
  - reflexivity.
  - cbn [stdout]. now rewrite <- app_assoc.
  - reflexivity.
  - unfold __del__, try_except, close_instrument. cbn [interfaceType instrument].
    rewrite Hup. cbn [String.eqb Ascii.eqb Bool.eqb].
    unfold sock_close. rewrite Hopen.
    revert Hfault. destruct (sock_close_fault fresh); [discriminate|].
    reflexivity.
  - unfold condition. cbn. now rewrite ?Hfault.
Qed.

Lemma init_lan_refused_witness :
  exists refused closed,
    __init__ 1 "LAN" (open_socket [] Silent) (Some OSError) (inl VisaIOError)
             true false quiet_world
    = Raise OSError refused
    /\ instrument refused = Some (Socket (open_socket [] Silent))
    /\ stdout refused = stdout quiet_world ++ [ExnLine OSError; ExnLine OSError]
    /\ history refused = history quiet_world
    /\ __del__ refused = Return tt closed
    /\ condition closed
       = Some (true, send_fault (open_socket [] Silent), None).
Proof.
  apply (init_lan_refused 1 "LAN" (open_socket [] Silent) OSError
           (inl VisaIOError) true false quiet_world);
    reflexivity.
Defined.

Lemma appends_assign_instrument (h : handle) :
  appends [] (assign_instrument h).
Proof.
  intros self a self' H. injection H as _ <-. cbn. now rewrite app_nil_r.
Qed.

Lemma appends_connectLan (fresh : socket) (refusal : option exn) :
  appends [] (connectLan fresh refusal).
Proof.
  unfold connectLan.
  quiet_bind. apply (appends_bind [] []);
    [apply appends_assign_instrument | intros _].
  apply (appends_bind [] []).
  - apply appends_try; auto with calls. quiet_bind. auto with calls.
  - intros _. quiet_bind. auto with calls.
Qed.

Lemma appends_connection (name : string) (fresh : socket)
    (refusal : option exn) (resource : exn + visa) :
  appends []
    (lan <- kind_is "lan" ;;
     if lan then
       log_msg INFO (lit "Connection to BOSA using Lan interface on %r") ;;;
       try_except (connectLan fresh refusal)
                  (reraise "Could not connect to BOSA device")
     else
       gpib <- kind_is "gpib" ;;
       if gpib then
         log_msg INFO (lit "GPIB interface chosen to connect BOSA on %r") ;;;
         try_except
           (match resource with
            | inl e => raise e
            | inr v => assign_instrument (Visa v)
            end)
           (reraise "couldn't connect to device") ;;;
         log_msg INFO (lit "Connected to device.")
       else
         log_msg ERROR (lit "Interface Type " ++ lit name
                        ++ lit " not valid") ;;;
         raise (LibraryError None)).
Proof.
  quiet_bind. apply appends_if.
  - quiet_bind. apply appends_try; auto with calls.
    apply appends_connectLan.
  - quiet_bind. apply appends_if.
    + quiet_bind. apply (appends_bind [] []); [|intros _; auto with calls].
      apply appends_try; auto with calls.
      destruct resource; [apply appends_raise | apply appends_assign_instrument].
    + quiet_bind. apply appends_raise.
Qed.

(** X16.  When [__init__] returns, the transport calls it has made are: a
    write of ["*IDN?"] and then one read, if [IDN] was asked for; after
    them a write of ["*RST"], with no read to follow it, if [Reset] was
    asked for; and no other. *)
Theorem init_calls :
  forall (fuel : nat) (name : string) (fresh : socket) (refusal : option exn)
         (resource : exn + visa) (IDN Reset : bool) (world self' : BOSA),
    __init__ fuel name fresh refusal resource IDN Reset world
    = Return tt self' ->
    history self'
    = history world
      ++ (if IDN then [OpWrite (lit "*IDN?"); OpRead] else [])
      ++ (if Reset then [OpWrite (lit "*RST")] else []).
Proof.
  intros fuel name fresh refusal resource IDN Reset world self' H.
  unfold __init__ in H.
  refine (appends_bind [] _ _ _ (appends_connection name fresh refusal resource)
            _ _ _ _ H).
  intros _.
  apply (appends_bind (if IDN then [OpWrite (lit "*IDN?"); OpRead] else [])
                      (if Reset then [OpWrite (lit "*RST")] else [])).
  - destruct IDN; [|apply appends_ret].
    apply (appends_bind [OpWrite (lit "*IDN?")] [OpRead]).
    + apply appends_try; auto with calls.
      quiet_bind. apply appends_write.
    + intros _. quiet_bind.
      apply (appends_bind [OpRead] []).
      * apply appends_try; auto with calls. apply appends_read.
      * intros response. apply appends_print.
  - intros _. destruct Reset; [|apply appends_ret].
    apply appends_try; auto with calls.
    quiet_bind. apply appends_write.
Qed.

Lemma init_calls_witness :
  exists self',
    __init__ 1 "LAN" answering_socket None (inl VisaIOError) true true
             quiet_world = Return tt self'
    /\ history self'
       = history quiet_world ++ [OpWrite (lit "*IDN?"); OpRead]
         ++ [OpWrite (lit "*RST")].
Proof.
  eexists. split.
  - vm_compute. reflexivity.
  - refine (init_calls 1 "LAN" answering_socket None (inl VisaIOError)
              true true quiet_world _ _).
    vm_compute. reflexivity.
Defined.

(** X17.  When [close] does not fail, the destructor can be run again and
    again, on a socket as on a bus resource: the first run returns, and a
    second run on the object it leaves returns too and changes nothing, not
    even the log. *)
Theorem del_can_be_repeated :
  forall (self : BOSA) (h : handle),
    instrument self = Some h ->
    match h with
    | Socket s => sock_close_fault s = None
    | Visa v => visa_close_fault v = None
    end ->
    exists self',
      __del__ self = Return tt self' /\ __del__ self' = Return tt self'.
Proof. exact del_twice. Qed.

Lemma del_can_be_repeated_witness :
  exists self',
    __del__ (lan_object [idn_reply] Silent) = Return tt self'
    /\ __del__ self' = Return tt self'.
Proof.
  apply (del_can_be_repeated (lan_object [idn_reply] Silent)
           (Socket (open_socket [idn_reply] Silent))); reflexivity.
Defined.

(** X18.  Once the destructor has closed a socket, the object is of no
    further use: [ask] raises OSError at its write, sends nothing and reads
    nothing. *)
Theorem ask_after_close :
  forall (fuel : nat) (command : str) (data : bytes) (self : BOSA)
         (s : socket),
    lower (interfaceType self) = "lan"%string ->
    instrument self = Some (Socket s) -> sock_closed s = false ->
    sock_close_fault s = None ->
    encode (command ++ CRLF) = Some data ->
    exists self',
      (__del__ ;;; ask fuel command) self = Raise OSError self'
      /\ wire self' = wire self
      /\ incoming self' = incoming self
      /\ history self' = history self ++ [OpWrite command].
Proof.
  intros fuel command data self s Hlan Hi Hopen Hfault Henc.
  assert (Hup : upper (interfaceType self) = "LAN"%string)
    by now rewrite <- upper_lower, Hlan.
  unfold bind at 1. unfold __del__, try_except, close_instrument.
  rewrite Hup. cbn [String.eqb Ascii.eqb Bool.eqb]. rewrite Hi.
  unfold sock_close. rewrite Hopen.
  revert Hfault. destruct (sock_close_fault s); [discriminate | intros _].
  unfold ask, write, encoded, on_socket, sock_sendall. run_as Hlan.
  rewrite Henc. run.
  eexists. split; [reflexivity|].
  unfold wire, incoming. cbn [instrument set_instrument calls inbox history].
  rewrite Hi. repeat split.
Qed.

Lemma ask_after_close_witness :
  exists self',
    (__del__ ;;; ask 1 (lit "*IDN?")) (lan_object [idn_reply] Silent)
    = Raise OSError self'
    /\ wire self' = wire (lan_object [idn_reply] Silent)
    /\ incoming self' = incoming (lan_object [idn_reply] Silent)
    /\ history self'
       = history (lan_object [idn_reply] Silent) ++ [OpWrite (lit "*IDN?")].
Proof.
  apply (ask_after_close 1 (lit "*IDN?") (wire_bytes (lit "*IDN?" ++ CRLF))
           (lan_object [idn_reply] Silent) (open_socket [idn_reply] Silent));
    reflexivity.
Defined.

(* ------------------------------------------------------------------ *)
(** ** The command layer *)

Lemma py_in_strs (x : str) (l : list str) :
  py_in (PStr x) (map PStr l) = true -> In x l.
Proof.
  unfold py_in. induction l as [|a l IH]; cbn [map existsb py_eq In];
    [discriminate|].
  intros H. apply orb_prop in H as [H | H].
  - left. symmetry. now apply str_eqb_true.
  - right. now apply IH.
Qed.

Lemma strs_py_in (x : str) (l : list str) :
  In x l -> py_in (PStr x) (map PStr l) = true.
Proof.
  unfold py_in. induction l as [|a l IH]; cbn [map existsb py_eq In];
    [tauto|].
  intros [-> | H].
  - unfold str_eqb. destruct (list_eq_dec Z.eq_dec x x); [reflexivity | congruence].
  - rewrite (IH H). apply orb_true_r.
Qed.

(** X19.  [set_mode] compares the name in upper case: a name that is one
    of MAIN, BOSA, TLS and CA in any case of letters is sent in upper case;
    any other text is reported on the output and nothing is sent. *)
Theorem set_mode_outcomes :
  forall (fuel : nat) (m : str) (self : BOSA),
    is_ascii m ->
    (In (str_upper m) [lit "MAIN"; lit "BOSA"; lit "TLS"; lit "CA"] ->
     set_mode fuel (PStr m) self
     = return_ask fuel (lit "INST:STAT:MODE " ++ str_upper m) self)
    /\ (~ In (str_upper m) [lit "MAIN"; lit "BOSA"; lit "TLS"; lit "CA"] ->
        reported_not_sent (set_mode fuel (PStr m)) self).
Proof.
  intros fuel m self _. unfold set_mode, method_upper, modes. split.
  - intros H.
    apply (strs_py_in _ [lit "MAIN"; lit "BOSA"; lit "TLS"; lit "CA"]) in H.
    cbn [map] in H. run. now rewrite H.
  - intros H. run.
    destruct (py_in (PStr (str_upper m)) _) eqn:E.
    + exfalso. apply H.
      now apply (py_in_strs _ [lit "MAIN"; lit "BOSA"; lit "TLS"; lit "CA"]).
    + unfold reported_not_sent, plus. run. eexists. reflexivity.
Qed.

Lemma set_mode_outcomes_witness :
  set_mode 1 (PStr (lit "ca")) lan_answering
  = return_ask 1 (lit "INST:STAT:MODE " ++ str_upper (lit "ca")) lan_answering
  /\ reported_not_sent (set_mode 1 (PStr (lit "OSA"))) lan_answering.
Proof.
  split.
  - apply (proj1 (set_mode_outcomes 1 (lit "ca") lan_answering
                    ltac:(repeat constructor; vm_compute; discriminate))).
    vm_compute. tauto.
  - apply (proj2 (set_mode_outcomes 1 (lit "OSA") lan_answering
                    ltac:(repeat constructor; vm_compute; discriminate))).
    vm_compute. intros [E | [E | [E | [E | []]]]]; discriminate E.
Defined.

(** X20.  The eight on/off setters ([set_wavSingle], [set_wavSweepCal],
    [set_avgState], [set_avgCorr], [set_laser], [set_sweep],
    [set_inpMueller], [set_mrkState]) send their command with one of 1, 0,
    ON and OFF and nothing else: for an [on] that is a text in ASCII, or
    not a text at all (a boolean, an integer, [None]), the call either
    sends such a command, or prints a diagnostic and sends nothing, or
    raises TypeError with nothing printed or sent.  [True], [1] and ["1"]
    send the same command, and so do [False], [0] and ["0"].  Texts with
    letters outside ASCII are left out: [str.upper] can turn one into OFF. *)
Theorem switch_setter_outcomes :
  forall (command : str) (fuel : nat) (on : pyval) (self : BOSA),
    ascii_arg on ->
    ((exists token,
         In token [lit "1"; lit "0"; lit "ON"; lit "OFF"]
         /\ switch_setter command fuel on self
            = return_ask fuel (command ++ token) self)
     \/ reported_not_sent (switch_setter command fuel on) self
     \/ switch_setter command fuel on self = Raise TypeError self)
    /\ (In on [PBool true; PInt 1; PStr (lit "1")] ->
        switch_setter command fuel on self
        = return_ask fuel (command ++ lit "1") self)
    /\ (In on [PBool false; PInt 0; PStr (lit "0")] ->
        switch_setter command fuel on self
        = return_ask fuel (command ++ lit "0") self).
Proof.
  intros command fuel on self _. split; [|split].
  - unfold switch_setter.
    destruct (py_in (PStr (str_upper (py_str on))) _) eqn:E.
    + left. exists (str_upper (py_str on)). split; [|reflexivity].
      now apply (py_in_strs _ [lit "1"; lit "0"; lit "ON"; lit "OFF"]).
    + destruct on as [|b|n|s]; cbn [is_bool].
      * right. right. reflexivity.
      * left. destruct b; cbn [py_eq Bool.eqb].
        -- exists (lit "1"). split; [cbn; tauto | reflexivity].
        -- exists (lit "0"). split; [cbn; tauto | reflexivity].
      * right. right. reflexivity.
      * right. left. unfold reported_not_sent, plus. run.
        eexists. reflexivity.
  - intros [<- | [<- | [<- | []]]]; reflexivity.
  - intros [<- | [<- | [<- | []]]]; reflexivity.
Qed.

Lemma switch_setter_outcomes_witness :
  set_laser 1 (PInt 1) lan_answering
  = return_ask 1 (lit "SENS:SWITCH " ++ lit "1") lan_answering.
Proof.
  apply (proj1 (proj2 (switch_setter_outcomes (lit "SENS:SWITCH ") 1 (PInt 1)
                         lan_answering I))).
  cbn. tauto.
Defined.

(** X21.  The nine wavelength setters ([set_wavSmooth], [set_wavSpan],
    [set_wavSpeed], [set_wavStat], [set_wavStart], [set_wavStop],
    [set_wavRes], [set_mrkX], [set_TPowUp]) send their command, the value, a
    space and the unit in upper case, the unit being one of NM, PM, GHZ,
    THZ or nothing; otherwise they print and send nothing, or raise
    TypeError.  An absent unit ([None], [""], [0], [False]) is the empty
    unit, and the command then ends with the space. *)
Theorem wavelength_setter_outcomes :
  forall (command : str) (fuel : nat) (value units : pyval) (self : BOSA),
    ascii_arg units ->
    ((exists v u,
         value = PStr v
         /\ In u [lit "NM"; lit "PM"; lit "GHZ"; lit "THZ"; empty_str]
         /\ wavelength_setter command fuel value units self
            = return_ask fuel (command ++ v ++ lit " " ++ u) self)
     \/ reported_not_sent (wavelength_setter command fuel value units) self
     \/ wavelength_setter command fuel value units self
        = Raise TypeError self)
    /\ (forall v,
           truthy units = false ->
           wavelength_setter command fuel (PStr v) units self
           = return_ask fuel (command ++ v ++ lit " ") self).
Proof.
  intros command fuel value units self _. split.
  - unfold wavelength_setter, wavelength_units.
    destruct (py_in (PStr (str_upper (py_str (py_or units (PStr empty_str))))) _)
      eqn:E.
    + destruct value as [|b|n|v]; try (right; right; reflexivity).
      left. exists v, (str_upper (py_str (py_or units (PStr empty_str)))).
      split; [reflexivity|]. split.
      * now apply (py_in_strs _ [lit "NM"; lit "PM"; lit "GHZ"; lit "THZ";
                                  empty_str]).
      * unfold plus. run. now rewrite <- !app_assoc.
    + destruct units as [|b|n|s]; try (right; right; reflexivity).
      right. left. unfold reported_not_sent, plus. run.
      eexists. reflexivity.
  - intros v Hu. unfold wavelength_setter, py_or. rewrite Hu.
    cbn. unfold plus. run. now rewrite <- !app_assoc.
Qed.

Lemma wavelength_setter_outcomes_witness :
  set_wavSpan 1 (PStr (lit "40")) PNone lan_answering
  = return_ask 1 (lit "SENS:WAV:SPAN " ++ lit "40" ++ lit " ") lan_answering.
Proof.
  apply (proj2 (wavelength_setter_outcomes (lit "SENS:WAV:SPAN ") 1
                  (PStr (lit "40")) PNone lan_answering I)).
  reflexivity.
Defined.

(** X22.  [set_wavSmooth(value, units)] sends the command of the centre
    wavelength: unless the value reads MAX, it does exactly what
    [set_wavCenter(units, value)] does. *)
Theorem set_wavSmooth_sets_the_centre :
  forall (fuel : nat) (value units : pyval) (self : BOSA),
    ascii_arg value -> ascii_arg units ->
    py_eq (PStr (str_upper (py_str value))) (PStr (lit "MAX")) = false ->
    set_wavSmooth fuel value units self = set_wavCenter fuel units value self.
Proof.
  intros fuel value units self _ _ H.
  unfold set_wavSmooth, set_wavCenter, wavelength_setter. now rewrite H.
Qed.

Lemma set_wavSmooth_sets_the_centre_witness :
  set_wavSmooth 1 (PStr (lit "0.1")) (PStr (lit "nm")) lan_answering
  = set_wavCenter 1 (PStr (lit "nm")) (PStr (lit "0.1")) lan_answering.
Proof.
  apply (set_wavSmooth_sets_the_centre 1 (PStr (lit "0.1")) (PStr (lit "nm"))
           lan_answering).
  - repeat constructor; vm_compute; discriminate.
  - repeat constructor; vm_compute; discriminate.
  - reflexivity.
Defined.

(** X23.  [set_format] with a boolean [data]: a [length] other than -1 with
    the ASCII format raises TypeError before anything is sent (the command
    is a text plus an integer); a format that is neither ASCII nor REAL is
    reported on the output, and the bare command FORM, with :DATA when
    [data] is set, is sent all the same. *)
Theorem set_format_outcomes :
  forall (fuel : nat) (f : str) (length : Z) (d : bool) (self : BOSA),
    is_ascii f ->
    (str_upper f = lit "ASCII" -> length <> -1 ->
     set_format fuel (PStr f) length (PBool d) self = Raise TypeError self)
    /\ (str_upper f <> lit "ASCII" -> str_upper f <> lit "REAL" ->
        set_format fuel (PStr f) length (PBool d) self
        = (print (Line (lit "Value for format must be ASCII or REAL, instead it is "
                        ++ f)) ;;;
           return_ask fuel (lit "FORM"
                            ++ (if d then lit ":DATA" else empty_str))) self).
Proof.
  intros fuel f length d self _. split.
  - intros Hf Hlen. unfold set_format, flag.
    destruct d; cbn [py_eq Bool.eqb py_str]; run; rewrite Hf;
      destruct (Z.eqb_spec length (-1)); try contradiction; reflexivity.
  - intros Ha Hr. unfold set_format, flag.
    assert (Ea : str_eqb (str_upper f) (lit "ASCII") = false).
    { destruct (str_eqb (str_upper f) (lit "ASCII")) eqn:E; [|reflexivity].
      now apply str_eqb_true in E. }
    assert (Er : str_eqb (str_upper f) (lit "REAL") = false).
    { destruct (str_eqb (str_upper f) (lit "REAL")) eqn:E; [|reflexivity].
      now apply str_eqb_true in E. }
    destruct d; cbn [py_eq Bool.eqb py_str]; run; cbn [py_str];
      rewrite Ea, Er; reflexivity.
Qed.

Lemma set_format_outcomes_witness :
  set_format 1 (PStr (lit "ascii")) 8 (PBool false) lan_answering
  = Raise TypeError lan_answering.
Proof.
  apply (proj1 (set_format_outcomes 1 (lit "ascii") 8 false lan_answering
                  ltac:(repeat constructor; vm_compute; discriminate))).
  - reflexivity.
  - lia.
Defined.

(** X24.  [set_maxHold] and [set_minHold] cannot report a [state] that is
    not a boolean: the message is built from [stat], which has no value on
    that path, and the call raises UnboundLocalError with nothing printed
    or sent.  With a boolean [state], a boolean [on] raises TypeError, the
    command being a text plus an integer. *)
Theorem hold_setter_outcomes :
  forall (command : str) (fuel : nat) (on state : pyval) (self : BOSA),
    ascii_arg on ->
    (py_eq state (PBool true) = false -> py_eq state (PBool false) = false ->
     hold_setter command fuel on state self
     = Raise (UnboundLocalError "stat") self)
    /\ (forall b st, on = PBool b -> state = PBool st ->
           hold_setter command fuel on state self = Raise TypeError self).
Proof.
  intros command fuel on state self _. split.
  - intros Ht Hf. unfold hold_setter. now rewrite Ht, Hf.
  - intros b st -> ->. unfold hold_setter.
    destruct st, b; reflexivity.
Qed.

Lemma hold_setter_outcomes_witness :
  set_maxHold 1 (PStr (lit "ON")) (PStr (lit "yes")) lan_answering
  = Raise (UnboundLocalError "stat") lan_answering.
Proof.
  apply (proj1 (hold_setter_outcomes (lit "CALC:MAX") 1 (PStr (lit "ON"))
                  (PStr (lit "yes")) lan_answering
                  ltac:(repeat constructor; vm_compute; discriminate)));
    reflexivity.
Defined.

(** X25.  The flags of [get_bottomY] and [get_trcount] are compared with
    [==]: 1 and 0 pass for [True] and [False]; a text flag is reported on
    the output and nothing is sent; [None] or another integer raises
    TypeError, the message being a text plus that value. *)
Theorem flags_are_compared_not_typed :
  forall (fuel : nat) (scale : pyval) (self : BOSA),
    get_bottomY fuel (PInt 1) scale self
    = get_bottomY fuel (PBool true) scale self
    /\ get_bottomY fuel (PInt 0) scale self
       = get_bottomY fuel (PBool false) scale self
    /\ (forall w, reported_not_sent (get_bottomY fuel (PStr w) scale) self)
    /\ (forall b w,
           reported_not_sent (get_bottomY fuel (PBool b) (PStr w)) self)
    /\ (forall w, reported_not_sent (get_trcount fuel (PStr w)) self)
    /\ get_bottomY fuel PNone scale self = Raise TypeError self
    /\ (forall n, n <> 0 -> n <> 1 ->
           get_bottomY fuel (PInt n) scale self = Raise TypeError self
           /\ get_trcount fuel (PInt n) self = Raise TypeError self).
Proof.
  intros fuel scale self. repeat split; try reflexivity.
  - intros w. unfold reported_not_sent. eexists. reflexivity.
  - intros b w. unfold reported_not_sent. destruct b; eexists; reflexivity.
  - intros w. unfold reported_not_sent. eexists. reflexivity.
  - unfold get_bottomY, flag. cbn [py_eq].
    destruct (Z.eqb_spec 1 n); [congruence|].
    destruct (Z.eqb_spec 0 n); [congruence|]. reflexivity.
  - unfold get_trcount, flag. cbn [py_eq].
    destruct (Z.eqb_spec 1 n); [congruence|].
    destruct (Z.eqb_spec 0 n); [congruence|]. reflexivity.
Qed.

(** X26.  [set_inpPol] does not fail on its argument: for a [pol] that is
    a text in ASCII, or not a text at all (a boolean, an integer, [None]),
    the call either sends INP:POL with one of the nine listed names, or
    prints its fixed diagnostic and sends nothing.  Texts with letters
    outside ASCII are left out: [str.upper] can turn one into MIN or
    SIMUL. *)
Theorem set_inpPol_outcomes :
  forall (fuel : nat) (pol : pyval) (self : BOSA),
    ascii_arg pol ->
    (exists token,
        In token [lit "1+2"; lit "1"; lit "2"; lit "1&2"; lit "PDL";
                  lit "MAX"; lit "MIN"; lit "SIMUL"; lit "INDEP"]
        /\ set_inpPol fuel pol self
           = return_ask fuel (lit "INP:POL " ++ token) self)
    \/ reported_not_sent (set_inpPol fuel pol) self.
Proof.
  intros fuel pol self _. unfold set_inpPol.
  destruct (py_in (PStr (str_upper (py_str pol))) _) eqn:E.
  - left. exists (str_upper (py_str pol)). split; [|reflexivity].
    now apply (py_in_strs _ [lit "1+2"; lit "1"; lit "2"; lit "1&2";
                              lit "PDL"; lit "MAX"; lit "MIN"; lit "SIMUL";
                              lit "INDEP"]).
  - right. unfold reported_not_sent. eexists. reflexivity.
Qed.

Lemma set_inpPol_outcomes_witness :
  (exists token,
      In token [lit "1+2"; lit "1"; lit "2"; lit "1&2"; lit "PDL";
                lit "MAX"; lit "MIN"; lit "SIMUL"; lit "INDEP"]
      /\ set_inpPol 1 (PStr (lit "pdl")) lan_answering
         = return_ask 1 (lit "INP:POL " ++ token) lan_answering)
  \/ reported_not_sent (set_inpPol 1 (PStr (lit "pdl"))) lan_answering.
Proof.
  apply (set_inpPol_outcomes 1 (PStr (lit "pdl")) lan_answering).
  repeat constructor; vm_compute; discriminate.
Defined.

(* ------------------------------------------------------------------ *)
(** ** The acquisition scripts *)

Lemma str_eqb_refl (a : str) : str_eqb a a = true.
Proof. unfold str_eqb. destruct (list_eq_dec Z.eq_dec a a); congruence. Qed.

Lemma str_eqb_false (a b : str) : a <> b -> str_eqb a b = false.
Proof. unfold str_eqb. destruct (list_eq_dec Z.eq_dec a b); congruence. Qed.

Lemma writes_app (h k : list op) : writes (h ++ k) = writes h ++ writes k.
Proof.
  induction h as [|o h IH]; [reflexivity|].
  destruct o; cbn [app writes]; now rewrite IH.
Qed.

(** One exchange on a socket whose next fragment is a whole line. *)
Lemma ask_lan_line (fuel : nat) (command : str) (cmd : bytes) (self : BOSA)
    (s : socket) (data : bytes) (rest : list bytes) (line : str) :
  lower (interfaceType self) = "lan"%string ->
  instrument self = Some (Socket s) -> sock_closed s = false ->
  send_fault s = None -> encode (command ++ CRLF) = Some cmd ->
  inbox s = data :: rest -> whole data -> decode data = Some line ->
  contains NL line = true -> (0 < fuel)%nat ->
  exists self' s',
    ask fuel command self = Return line self'
    /\ interfaceType self' = interfaceType self
    /\ instrument self' = Some (Socket s')
    /\ sock_closed s' = false /\ send_fault s' = None
    /\ inbox s' = rest
    /\ stdout self' = stdout self
    /\ history self' = history self ++ [OpWrite command; OpRead].
Proof.
  intros Hlan Hi Hopen Hfault Henc Hin Hw Hdec Hnl Hfuel.
  assert (Hrun : exists self' s',
             ask fuel command self = Return line self'
             /\ interfaceType self' = interfaceType self
             /\ instrument self' = Some (Socket s')
             /\ sock_closed s' = false
             /\ inbox s' = rest
             /\ stdout self' = stdout self
             /\ history self' = history self ++ [OpWrite command; OpRead]).
  { unfold ask, bind.
    rewrite (write_lan command self s cmd) by assumption.
    unfold read. run_as Hlan.
    match goal with
    | |- context [read_lan fuel [] ?st] =>
      destruct (read_lan_fragments [] fuel [] st
                  (logged s (Sendall cmd) (inbox s)) data rest [] line
                  eq_refl Hopen Hin
                  ltac:(repeat constructor; apply Hw)
                  eq_refl Hdec eq_refl Hnl Hfuel)
        as (s' & Hrun & Hin' & _ & Hopen')
    end.
    rewrite Hrun. cbn [app]. run.
    eexists _, s'. split; [reflexivity|].
    cbn [interfaceType instrument stdout history].
    rewrite <- app_assoc. repeat split; assumption. }
  destruct Hrun as (self' & s' & Hrun & Hk & Hi' & Hopen' & Hin' & Hout & Hh).
  exists self', s'. repeat split; try assumption.
  pose proof (ask_keeps_condition fuel command self) as Hc.
  rewrite Hrun in Hc. unfold same, named_condition, condition in Hc.
  rewrite Hi, Hi' in Hc. injection Hc as _ _ Hc _. now rewrite Hc.
Qed.

Lemma checkvar_hit (fuel : nat) (msg : str) (slptime : Z) (checkv v : pyval)
    (checkf : M pyval) (self self1 : BOSA) :
  checkf self = Return v self1 ->
  py_eq v (PStr (msg ++ CRLF)) = true ->
  checkvar (S fuel) msg slptime checkv checkf self = Return tt self1.
Proof.
  intros Hf Hv. unfold checkvar, bind. rewrite Hf.
  cbn [checkvar_loop]. now rewrite Hv.
Qed.

Lemma checkvar_miss (fuel : nat) (msg : str) (slptime : Z) (checkv v : pyval)
    (checkf : M pyval) (self self1 : BOSA) :
  checkf self = Return v self1 ->
  py_eq v (PStr (msg ++ CRLF)) = false ->
  checkvar (S fuel) msg slptime checkv checkf self
  = (print (Line (py_str v)) ;;; checkvar fuel msg slptime checkv checkf) self1.
Proof.
  intros Hf Hv. unfold checkvar at 1. unfold bind at 1. rewrite Hf.
  cbn [checkvar_loop]. rewrite Hv. cbn [negb].
  unfold checkvar, bind, print, sleep, ret.
  destruct (checkf _); reflexivity.
Qed.

(** X27.  [checkvar(msg, ..., get_mode)] on a socket polls until an answer
    is [msg] followed by ["\r\n"]: when the peer answers with some lines
    that differ from it and then with that line, each in a fragment of its
    own, the call returns after one query more than the lines that
    differed, has printed those lines in order, and leaves what follows
    unread.  The value passed as [checkv] plays no part. *)
Theorem checkvar_polls_until_match :
  forall (others : list str) (frags : list bytes) (msg : str) (last : bytes)
         (rest : list bytes) (fuel fuel' : nat) (slptime : Z)
         (checkv : pyval) (self : BOSA) (s : socket),
    lower (interfaceType self) = "lan"%string ->
    instrument self = Some (Socket s) -> sock_closed s = false ->
    send_fault s = None ->
    inbox s = frags ++ last :: rest ->
    Forall2 (other_answer msg) frags others ->
    whole last -> decode last = Some (msg ++ CRLF) ->
    (List.length others < fuel)%nat -> (0 < fuel')%nat ->
    exists self',
      checkvar fuel msg slptime checkv (get_mode fuel') self = Return tt self'
      /\ stdout self' = stdout self ++ map Line others
      /\ writes (history self')
         = writes (history self)
           ++ repeat (lit "INST:STAT:MODE ?") (S (List.length others))
      /\ incoming self' = (rest, []).
Proof.
  intros others frags msg last rest fuel fuel' slptime checkv self s
         Hlan Hi Hopen Hfault Hin Hothers Hw Hdec Hfuel Hfuel'.
  revert fuel self s Hlan Hi Hopen Hfault Hin Hfuel.
  assert (Henc : exists cmd,
             encode (lit "INST:STAT:MODE ?" ++ CRLF) = Some cmd)
    by (eexists; vm_compute; reflexivity).
  destruct Henc as (cmd & Henc).
  assert (Hnl : contains NL (msg ++ CRLF) = true)
    by (rewrite contains_app; cbn; apply orb_true_r).
  induction Hothers as [|f t frags others (Hwf & Hdf & Hnlf & Hne) _ IH];
    intros fuel self s Hlan Hi Hopen Hfault Hin Hfuel;
    (destruct fuel as [|fuel]; [cbn in Hfuel; lia|]); cbn [app] in Hin.
  - destruct (ask_lan_line fuel' (lit "INST:STAT:MODE ?") cmd self s last rest
                (msg ++ CRLF))
      as (self1 & s1 & Hask & Hk & Hi1 & Hopen1 & Hfault1 & Hin1 & Hout & Hh);
      auto.
    exists self1. split.
    + apply (checkvar_hit fuel msg slptime checkv (PStr (msg ++ CRLF))).
      * unfold get_mode, return_ask, bind. now rewrite Hask.
      * cbn [py_eq]. apply str_eqb_refl.
    + cbn [map List.length repeat]. rewrite app_nil_r, Hout, Hh, writes_app.
      repeat split. unfold incoming. now rewrite Hi1, Hin1.
  - destruct (ask_lan_line fuel' (lit "INST:STAT:MODE ?") cmd self s f
                (frags ++ last :: rest) t)
      as (self1 & s1 & Hask & Hk & Hi1 & Hopen1 & Hfault1 & Hin1 & Hout & Hh);
      auto.
    rewrite (checkvar_miss fuel msg slptime checkv (PStr t) _ self self1).
    + unfold bind at 1. unfold print. cbn [py_str].
      match goal with
      | |- context [checkvar fuel msg slptime checkv _ ?st] =>
        destruct (IH fuel st s1) as (self' & Hrun & Hout' & Hh' & Hrest)
      end; cbn [interfaceType instrument]; try congruence.
      { cbn [List.length] in Hfuel. lia. }
      exists self'. split; [exact Hrun|].
      cbn [stdout history] in Hout', Hh'.
      rewrite Hout', Hh', Hout, Hh, writes_app.
      cbn [map List.length repeat writes app]. rewrite <- !app_assoc.
      repeat split. exact Hrest.
    + unfold get_mode, return_ask, bind. now rewrite Hask.
    + cbn [py_eq]. now apply str_eqb_false.
Qed.

Lemma checkvar_polls_until_match_witness :
  exists self',
    checkvar 2 (lit "CA") 5 (PStr empty_str) (get_mode 1) lan_changing_mode
    = Return tt self'
    /\ stdout self' = stdout lan_changing_mode ++ map Line [lit "MAIN" ++ CRLF]
    /\ writes (history self')
       = writes (history lan_changing_mode)
         ++ repeat (lit "INST:STAT:MODE ?") 2
    /\ incoming self' = ([], []).
Proof.
  apply (checkvar_polls_until_match
           [lit "MAIN" ++ CRLF] [wire_bytes (lit "MAIN" ++ CRLF)] (lit "CA")
           (wire_bytes (lit "CA" ++ CRLF)) [] 2 1 5 (PStr empty_str)
           lan_changing_mode
           (open_socket [wire_bytes (lit "MAIN" ++ CRLF);
                         wire_bytes (lit "CA" ++ CRLF)] Silent));
    try reflexivity.
  - constructor; [|constructor].
    split; [split; [discriminate | vm_compute; discriminate]|].
    split; [reflexivity|]. split; [reflexivity | discriminate].
  - split; [discriminate | vm_compute; discriminate].
  - cbn. lia.
  - lia.
Defined.

(* ------------------------------------------------------------------ *)
(** ** Flattening the trace *)

Lemma nest_rect_list (P : nest -> Prop) :
  (forall a, P (Item a)) ->
  (forall xs, Forall P xs -> P (Tup xs)) ->
  forall t, P t.
Proof.
  intros HI HT. fix IH 1. intros [a|xs]; [apply HI|].
  apply HT. induction xs as [|x xs IHxs]; constructor; [apply IH | exact IHxs].
Qed.

Lemma flatten_tuple (t : nest) :
  flatten t = match t with Tup _ => leaves t | Item _ => [] end.
Proof.
  induction t as [a | xs IH] using nest_rect_list; [reflexivity|].
  cbn [flatten leaves].
  induction IH as [|x xs Hx _ IHxs]; [reflexivity|].
  cbn [flat_map]. rewrite IHxs. f_equal.
  destruct x as [a | ys]; [reflexivity | exact Hx].
Qed.

(** X28.  The scripts' [flatten] yields, in order, every number held at
    any depth in a tuple; applied to something that is not a tuple, a bare
    number included, it yields nothing. *)
Theorem flatten_yields_the_leaves :
  (forall xs, flatten (Tup xs) = leaves (Tup xs))
  /\ (forall a, flatten (Item a) = [])
  /\ (forall xs ys, flatten (Tup (xs ++ ys))
                    = flatten (Tup xs) ++ flatten (Tup ys))
  /\ (forall xs, flatten (Tup [Tup xs]) = flatten (Tup xs)).
Proof.
  repeat split.
  - intros xs. apply (flatten_tuple (Tup xs)).
  - intros xs ys. cbn [flatten]. apply flat_map_app.
  - intros xs. cbn [flatten flat_map]. apply app_nil_r.
Qed.

Lemma heads_rows (points : list (float64 * float64)) :
  heads (rows_of points) = Some (map (fun p => Tuple1 (fst p)) points)
  /\ heads (map (@tl cell) (rows_of points))
     = Some (map (fun p => Tuple1 (snd p)) points)
  /\ heads (map (@tl cell) (map (@tl cell) (rows_of points)))
     = match points with [] => Some [] | _ => None end.
Proof.
  unfold rows_of. induction points as [|p points (IH1 & IH2 & IH3)];
    [repeat split|].
  cbn [map heads tl]. rewrite IH1, IH2. repeat split.
Qed.

Lemma flatten_column (f : float64 * float64 -> float64)
    (points : list (float64 * float64)) :
  flatten (Tup (map nest_of_cell (map (fun p => Tuple1 (f p)) points)))
  = map (fun p => AFloat (f p)) points.
Proof.
  cbn [flatten]. induction points as [|p points IH]; [reflexivity|].
  cbn [map flat_map nest_of_cell flatten app]. now rewrite IH.
Qed.

(** X29.  What the scripts make of a trace: [zip] of the rows followed by
    [flatten] gives the first coordinates and the second coordinates of the
    points, each in the order of the rows and free of the one-element tuples
    [struct.unpack] wrapped them in; this holds of the trace
    [read_TRACE_REAL] returns for a buffer with at least one point.  For a
    trace of no rows the unpacking of the [zip] into two names raises
    ValueError. *)
Theorem script_axes_columns :
  forall (points : list (float64 * float64)),
    script_axes (rows_of points)
    = match points with
      | [] => inl ValueError
      | _ => inr (map (fun p => AFloat (fst p)) points,
                  map (fun p => AFloat (snd p)) points)
      end
    /\ forall (o : byteorder) (buf : bytes) (N : nat),
         script_axes (map (pair_at o buf) (seq 0 (S N)))
         = inr (map (fun i => AFloat (float_at o
                                 (slice (i * 16) (i * 16 + 8) buf)))
                    (seq 0 (S N)),
                map (fun i => AFloat (float_at o
                                 (slice (i * 16 + 8) (i * 16 + 16) buf)))
                    (seq 0 (S N))).
Proof.
  assert (H : forall points,
             script_axes (rows_of points)
             = match points with
               | [] => inl ValueError
               | _ => inr (map (fun p => AFloat (fst p)) points,
                           map (fun p => AFloat (snd p)) points)
               end).
  { intros [|p points]; [reflexivity|].
    destruct (heads_rows (p :: points)) as (H1 & H2 & H3).
    unfold script_axes.
    change (zip_star (rows_of (p :: points)))
      with (zip_columns 2 (rows_of (p :: points))).
    cbn [zip_columns]. rewrite H1, H2.
    now rewrite !flatten_column. }
  intros points. split; [apply H|].
  intros o buf N.
  specialize (H (map (fun i => (float_at o (slice (i * 16) (i * 16 + 8) buf),
                                float_at o (slice (i * 16 + 8) (i * 16 + 16) buf)))
                     (seq 0 (S N)))).
  unfold rows_of in H. rewrite map_map in H. cbn [fst snd] in H.
  change (fun x : nat =>
            [Tuple1 (float_at o (slice (x * 16) (x * 16 + 8) buf));
             Tuple1 (float_at o (slice (x * 16 + 8) (x * 16 + 16) buf))])
    with (pair_at o buf) in H.
  rewrite H. cbn [seq map]. rewrite !map_map. reflexivity.
Qed.
